(** * Resumable Postgres -> Elasticsearch transfer (01_etl)

    A shallow embedding of [states.py], [loaders.py], [decorators.py] and
    [main.py].  Python values that reach the checkpoint file are JSON
    values; everything the process does to the outside world (file,
    database cursor, search index, sleeping, error logging) is recorded as
    an event of a trace, so that a killed process is a prefix of the trace
    of the same run left alone. *)

From Stdlib Require Import ZArith List String Ascii Lia Bool.
From stdpp Require Import gmap strings list fin_maps pretty.

Local Open Scope Z_scope.
Set Warnings "-register-all".

(** ** Python values and exceptions *)

(** What [json.load] can return and [json.dump] can write.  A float is
    identified by the text [json.dump] emits for it. *)
Inductive json : Type :=
| JNull
| JBool (b : bool)
| JInt (n : Z)
| JFloat (repr : string)
| JStr (s : string)
| JList (l : list json)
| JDict (m : gmap string json).

Inductive exn : Type :=
| FileNotFoundError
| PermissionError
| JSONDecodeError
| AttributeError
| TypeError
| ValueError
| OverflowError
| ValidationError               (* pydantic *)
| OperationalError (msg : string)  (* psycopg2.OperationalError *)
| InterfaceError (msg : string)    (* psycopg2.InterfaceError *)
| BulkIndexError (failed : nat)    (* elasticsearch.helpers.BulkIndexError *)
| KeyboardInterrupt                (* a BaseException that is no Exception *)
| OutOfFuel                        (* never raised by Python: see [transfer] *)
| Unmodelled.                      (* never raised by Python: see [fromisoformat] *)

(** [except Exception] *)
Definition is_Exception (e : exn) : bool :=
  match e with KeyboardInterrupt => false | _ => true end.

(** [except FileNotFoundError] *)
Definition is_FileNotFoundError (e : exn) : bool :=
  match e with FileNotFoundError => true | _ => false end.

(** [except psycopg2.Error] *)
Definition is_psycopg2_Error (e : exn) : bool :=
  match e with OperationalError _ | InterfaceError _ => true | _ => false end.

Inductive result (A : Type) : Type :=
| Ok (a : A)
| Raise (e : exn).
Arguments Ok {A} a.
Arguments Raise {A} e.

(** ** datetime: [isoformat] and [fromisoformat] *)

Record datetime : Type := mkdt {
  year : Z; month : Z; day : Z;
  hour : Z; minute : Z; second : Z; microsecond : Z }.

(** [datetime.min] *)
Definition dt_min : datetime := mkdt 1 1 1 0 0 0 0.

Definition is_leap (y : Z) : bool :=
  ((y mod 4 =? 0) && negb (y mod 100 =? 0)) || (y mod 400 =? 0).

Definition days_in_month (y m : Z) : Z :=
  if m =? 2 then (if is_leap y then 29 else 28)
  else if (m =? 4) || (m =? 6) || (m =? 9) || (m =? 11) then 30 else 31.

(** The values the [datetime] constructor accepts. *)
Definition valid_datetime (t : datetime) : bool :=
  (1 <=? year t) && (year t <=? 9999) &&
  (1 <=? month t) && (month t <=? 12) &&
  (1 <=? day t) && (day t <=? days_in_month (year t) (month t)) &&
  (0 <=? hour t) && (hour t <=? 23) &&
  (0 <=? minute t) && (minute t <=? 59) &&
  (0 <=? second t) && (second t <=? 59) &&
  (0 <=? microsecond t) && (microsecond t <=? 999999).

(** Chronological order, as Python compares naive datetimes: field by
    field, most significant first. *)
Definition dt_key (t : datetime) : Z :=
  (((((year t * 13 + month t) * 32 + day t) * 24 + hour t) * 60
      + minute t) * 60 + second t) * 1000000 + microsecond t.

Definition dt_le (a b : datetime) : Prop := dt_key a <= dt_key b.
Definition dt_lt (a b : datetime) : Prop := dt_key a < dt_key b.

Definition digit_char (d : Z) : ascii := ascii_of_nat (Z.to_nat (48 + d)).

Definition digit_value (c : ascii) : option Z :=
  let n := Z.of_nat (nat_of_ascii c) in
  if (48 <=? n) && (n <=? 57) then Some (n - 48) else None.

(** [n] written with exactly [w] decimal digits, zero padded. *)
Fixpoint pad (w : nat) (n : Z) : string :=
  match w with
  | O => EmptyString
  | S w' => String (digit_char (n / 10 ^ Z.of_nat w')) (pad w' (n mod 10 ^ Z.of_nat w'))
  end.

(** Reads exactly [w] decimal digits. *)
Fixpoint read_digits (w : nat) (acc : Z) (s : string) : option (Z * string) :=
  match w with
  | O => Some (acc, s)
  | S w' =>
      match s with
      | EmptyString => None
      | String c s' =>
          match digit_value c with
          | Some d => read_digits w' (acc * 10 + d) s'
          | None => None
          end
      end
  end.

Definition expect (c : ascii) (s : string) : option string :=
  match s with
  | String c' s' => if Ascii.eqb c c' then Some s' else None
  | EmptyString => None
  end.

(** [datetime.isoformat()] of a naive datetime:
    [YYYY-MM-DDTHH:MM:SS], followed by [.ffffff] when the microsecond is
    not zero. *)
Definition isoformat (t : datetime) : string :=
  pad 4 (year t) +:+ "-" +:+ pad 2 (month t) +:+ "-" +:+ pad 2 (day t) +:+ "T" +:+
  pad 2 (hour t) +:+ ":" +:+ pad 2 (minute t) +:+ ":" +:+ pad 2 (second t) +:+
  (if microsecond t =? 0 then "" else "." +:+ pad 6 (microsecond t)).

(** The date of an ISO text: [YYYY-MM-DD], and what follows it. *)
Definition parse_date (s : string) : option (Z * Z * Z * string) :=
  '(y, s) ← read_digits 4 0 s; s ← expect "-" s;
  '(mo, s) ← read_digits 2 0 s; s ← expect "-" s;
  '(d, s) ← read_digits 2 0 s;
  Some (y, mo, d, s).

(** The time of an ISO text, to the end of the text:
    [HH], [HH:MM], [HH:MM:SS], [HH:MM:SS.fff] or [HH:MM:SS.ffffff]. *)
Definition parse_clock (s : string) : option (Z * Z * Z * Z) :=
  '(h, s) ← read_digits 2 0 s;
  match s with
  | EmptyString => Some (h, 0, 0, 0)
  | _ =>
      s ← expect ":" s; '(mi, s) ← read_digits 2 0 s;
      match s with
      | EmptyString => Some (h, mi, 0, 0)
      | _ =>
          s ← expect ":" s; '(se, s) ← read_digits 2 0 s;
          match s with
          | EmptyString => Some (h, mi, se, 0)
          | _ =>
              s ← expect "." s; '(ms, s) ← read_digits 3 0 s;
              match s with
              | EmptyString => Some (h, mi, se, ms * 1000)
              | _ =>
                  '(us, s) ← read_digits 3 ms s;
                  match s with
                  | EmptyString => Some (h, mi, se, us)
                  | _ => None
                  end
              end
          end
      end
  end.

(** A date alone is midnight; otherwise one character, whichever it is,
    separates the date from the time. *)
Definition parse_iso (s : string) : option datetime :=
  '(y, mo, d, s) ← parse_date s;
  match s with
  | EmptyString => Some (mkdt y mo d 0 0 0 0)
  | String _ s =>
      '(h, mi, se, us) ← parse_clock s;
      Some (mkdt y mo d h mi se us)
  end.

(** [datetime.fromisoformat] to a naive datetime, on the layouts every
    version of CPython since 3.7 reads in the same way:
    [YYYY-MM-DD[*HH[:MM[:SS[.fff[fff]]]]]], where [*] is any one
    character; this covers what [isoformat] emits.  The fields are then
    checked as the constructor does ([ValueError] otherwise), and a text
    that does not begin with the four digits of a year is refused with
    [ValueError] by every version.  On the other texts the versions
    differ (a UTC offset gives an aware datetime; 3.11 reads further ISO
    8601 layouts; an hour of 24 is read by some): the model does not
    cover them and says so with [Unmodelled], from which no property
    below draws a conclusion. *)
Definition fromisoformat (s : string) : result datetime :=
  match read_digits 4 0 s with
  | None => Raise ValueError
  | Some _ =>
      match parse_iso s with
      | Some t =>
          if valid_datetime t then Ok t
          else if hour t =? 24 then Raise Unmodelled else Raise ValueError
      | None => Raise Unmodelled
      end
  end.

(** ** The checkpoint file and the trace of effects *)

(** [state.json] as the next [open]/[json.load] finds it. *)
Inductive file_state : Type :=
| NoFile                  (* [open] raises FileNotFoundError *)
| Unreadable              (* [open] raises another OSError *)
| NotJson (text : string) (* text on which [json.load] raises; the empty file is one *)
| Json (v : json).        (* text that [json.load] decodes to [v] *)

(** [with open(path) as fp: json.load(fp)] *)
Definition open_and_load (f : file_state) : result json :=
  match f with
  | NoFile => Raise FileNotFoundError
  | Unreadable => Raise PermissionError
  | NotJson _ => Raise JSONDecodeError
  | Json v => Ok v
  end.

(** A row of the cursor ([DictCursor]); SQL NULL is [None].  [actors]
    and [writers] are what [JSON_AGG(json_build_object('id', p.id, 'name',
    p.full_name))] gives: a list of objects with the two keys, each value a
    text or JSON null. *)
Record Row : Type := mkRow {
  r_id : option string;
  r_title : option string;
  r_description : option string;
  r_imdb_rating : option string;
  r_genre : option string;
  r_director : option string;
  r_actors_names : option string;
  r_writers_names : option string;
  r_actors : option (list (option string * option string));
  r_writers : option (list (option string * option string)) }.

(** [models.MoviesForEs]: [id] and [title] are plain [str], the other
    fields are [... | None]. *)
Record MoviesForEs : Type := mkMovie {
  m_id : string;
  m_title : string;
  m_description : option string;
  m_imdb_rating : option string;
  m_genre : option string;
  m_director : option string;
  m_actors_names : option string;
  m_writers_names : option string;
  m_actors : option (list (string * string));
  m_writers : option (list (string * string)) }.

(** One action handed to [elasticsearch.helpers.bulk]:
    [{"_index": ..., "_source": row.json()}]. *)
Record action : Type := mkAction { a_index : string; a_source : MoviesForEs }.

Inductive event : Type :=
| EvFileOpenW                      (* [open(path, 'w')]: the file is truncated *)
| EvFileDump (v : json)            (* [json.dump] and close: the document is in the file *)
| EvConnect                        (* [psycopg2.connect] *)
| EvExecute (sdate : datetime)     (* [cursor.execute(query, {'sdate': ...})] *)
| EvScroll (n : Z)                 (* [cursor.scroll(n)] *)
| EvFetch (rows : nat)             (* [cursor.fetchmany()] returned that many rows *)
| EvEsInit                         (* [EsDb.__init__]: the index exists afterwards *)
| EvBulk (chunk : list action)     (* one bulk request sent to the index *)
| EvSleep (seconds : Z)            (* [time.sleep] *)
| EvLogError (failed : nat)        (* [logging.error] of [bulk_write] *)
| EvLogException (e : exn).        (* [logging.exception] of [backoff] *)

Definition trace : Type := list event.

(** How one [psycopg2.connect] call turns out: refused, or a connection
    that may be lost at its [drop_at]-th [fetchmany] (counted from 0). *)
Inductive connect_plan : Type :=
| Refused (msg : string)
| Up (drop_at : option nat).

(** What the process does not control. *)
Record environment : Type := mkEnv {
  initial_file : file_state;          (* [state.json] before the first event *)
  table : datetime -> list Row;       (* the query's result set for [sdate], in its ORDER BY order *)
  wall_clock : nat -> datetime;       (* what [dt.utcnow()] reads once that many events happened *)
  es_rejects : MoviesForEs -> bool;   (* the documents the index refuses *)
  pg_plan : nat -> connect_plan;      (* the n-th [psycopg2.connect] *)
  PAGE_SIZE : option nat }.           (* the module global, when it is defined *)

Definition file_step (f : file_state) (e : event) : file_state :=
  match e with
  | EvFileOpenW => NotJson ""
  | EvFileDump v => Json v
  | _ => f
  end.

(** The file after the events of [tr]. *)
Definition file_after (f0 : file_state) (tr : trace) : file_state :=
  fold_left file_step tr f0.

Definition is_connect (e : event) : bool :=
  match e with EvConnect => true | _ => false end.

Definition connects (tr : trace) : nat := length (List.filter is_connect tr).

(** ** Effectful code: a trace-passing monad with exceptions *)

Definition io (A : Type) : Type := trace -> trace * result A.

#[global] Instance io_ret : MRet io := fun A a tr => (tr, Ok a).

#[global] Instance io_bind : MBind io := fun A B k c tr =>
  match c tr with
  | (tr', Ok a) => k a tr'
  | (tr', Raise e) => (tr', Raise e)
  end.

Definition raise {A : Type} (e : exn) : io A := fun tr => (tr, Raise e).

Definition lift {A : Type} (r : result A) : io A := fun tr => (tr, r).

Definition emit (e : event) : io unit := fun tr => (tr ++ [e], Ok tt).

(** [try: c  except <catches> as e: handler e] *)
Definition try_except {A : Type} (c : io A) (catches : exn -> bool)
    (handler : exn -> io A) : io A := fun tr =>
  match c tr with
  | (tr', Raise e) => if catches e then handler e tr' else (tr', Raise e)
  | r => r
  end.

(** [try: c  except <catches> as e: handler e  else: orelse] *)
Definition try_except_else {A B : Type} (c : io A) (catches : exn -> bool)
    (handler : exn -> io B) (orelse : A -> io B) : io B := fun tr =>
  match c tr with
  | (tr', Raise e) => if catches e then handler e tr' else (tr', Raise e)
  | (tr', Ok a) => orelse a tr'
  end.

(** ** states.py *)

Module FileStorage.

(** [save_state]: [open(..., 'w')] empties the file, then the
    document is written. *)
Definition save_state (state : json) : io unit :=
  emit EvFileOpenW ;; emit (EvFileDump state).

Definition read_file (env : environment) : io json := fun tr =>
  (tr, open_and_load (file_after (initial_file env) tr)).

(** [retrieve_state] of main's [states.py]: [except Exception]. *)
Definition retrieve_state (env : environment) : io json :=
  try_except (read_file env) is_Exception (fun _ => mret (JDict ∅)).

(** [retrieve_state] of [etl_fill.py]: [except FileNotFoundError]. *)
Definition retrieve_state_fill (env : environment) : io json :=
  try_except (read_file env) is_FileNotFoundError (fun _ => mret (JDict ∅)).

End FileStorage.

(** [d.get(key, default)] *)
Definition default_to {A : Type} (d : A) (o : option A) : A :=
  match o with Some v => v | None => d end.

(** A [State] object is its [state] attribute; its storage is the one
    file.  The methods return the attribute after the call. *)
Module State.

Definition init (env : environment) : io json := FileStorage.retrieve_state env.

(** [self.state.update({key: value}); self.storage.save_state(self.state)] *)
Definition set_state (self : json) (key : string) (value : json) : io json :=
  match self with
  | JDict m =>
      let m' := <[key := value]> m in
      FileStorage.save_state (JDict m') ;; mret (JDict m')
  | _ => raise AttributeError
  end.

(** [self.state.get(key, default)] *)
Definition get_state (self : json) (key : string) (default : json) : io json :=
  match self with
  | JDict m => mret (default_to default (m !! key))
  | _ => raise AttributeError
  end.

(** [self.state.pop(key, None); self.storage.save_state(self.state)] *)
Definition clear_state (self : json) (key : string) : io json :=
  match self with
  | JDict m =>
      let m' := delete key m in
      FileStorage.save_state (JDict m') ;; mret (JDict m')
  | JList _ => raise TypeError
  | _ => raise AttributeError
  end.

End State.

(** ** loaders.py: PostgreDb *)

(** One entry of [actors] or [writers] as a [dict[str, str]]: pydantic
    refuses a null value. *)
Definition person_init (p : option string * option string) : result (string * string) :=
  match p with
  | (Some i, Some n) => Ok (i, n)
  | _ => Raise ValidationError
  end.

Fixpoint persons_init (l : list (option string * option string))
    : result (list (string * string)) :=
  match l with
  | [] => Ok []
  | p :: rest =>
      match person_init p, persons_init rest with
      | Ok q, Ok qs => Ok (q :: qs)
      | _, _ => Raise ValidationError
      end
  end.

(** A field [list[dict[str, str]] | None]. *)
Definition people_init (o : option (list (option string * option string)))
    : result (option (list (string * string))) :=
  match o with
  | None => Ok None
  | Some l =>
      match persons_init l with
      | Ok qs => Ok (Some qs)
      | Raise e => Raise e
      end
  end.

(** The model built from the row's columns: pydantic refuses [None] for
    the two required [str] fields and for a value inside [actors] or
    [writers], and reports whatever it refuses as one [ValidationError]. *)
Definition MoviesForEs_init (row : Row) : result MoviesForEs :=
  match r_id row, r_title row, people_init (r_actors row), people_init (r_writers row) with
  | Some i, Some t, Ok actors, Ok writers =>
      Ok (mkMovie i t (r_description row) (r_imdb_rating row) (r_genre row)
            (r_director row) (r_actors_names row) (r_writers_names row)
            actors writers)
  | _, _, _, _ => Raise ValidationError
  end.

(** The list comprehension of [read_data]: the first invalid row raises. *)
Fixpoint validate_rows (data : list Row) : result (list MoviesForEs) :=
  match data with
  | [] => Ok []
  | row :: rest =>
      match MoviesForEs_init row with
      | Raise e => Raise e
      | Ok d =>
          match validate_rows rest with
          | Raise e => Raise e
          | Ok ds => Ok (d :: ds)
          end
      end
  end.

(** The named server-side cursor: its result set, how many rows lie
    before its position, its [arraysize], and the connection's fate. *)
Record cursor : Type := mkCursor {
  cur_rows : list Row;
  cur_pos : nat;
  arraysize : nat;
  cur_fetches : nat;
  cur_drop_at : option nat }.

(** The rows not yet passed by the cursor. *)
Definition remaining (c : cursor) : list Row := drop (cur_pos c) (cur_rows c).

(** A Python value where an integer is required: an [int], or a [bool]
    as its subclass; anything else is refused with [TypeError].  Python's
    integers are unbounded: whether the integer fits what the callee can
    take is the callee's matter ([c_int], [scroll]). *)
Definition as_int (v : json) : result Z :=
  match v with
  | JInt z => Ok z
  | JBool b => Ok (if b then 1 else 0)
  | _ => Raise TypeError
  end.

Definition int_of (v : json) : Z :=
  match as_int v with Ok z => z | Raise _ => 0 end.

(** The range of a C [int]. *)
Definition INT_MIN : Z := -2147483648.
Definition INT_MAX : Z := 2147483647.

(** A Python integer handed to C code that parses an [int]:
    [OverflowError] outside the range. *)
Definition c_int (z : Z) : result Z :=
  if (INT_MIN <=? z) && (z <=? INT_MAX) then Ok z else Raise OverflowError.

(** [cursor.scroll(n)], relative.  The argument is parsed as a C [int]
    before anything is sent; then a server-side cursor moves without
    complaining, and stops at either end of the result set. *)
Definition scroll (c : cursor) (n : Z) : io cursor :=
  n ← lift (c_int n);
  emit (EvScroll n) ;;
  mret (mkCursor (cur_rows c) (Z.to_nat (Z.of_nat (cur_pos c) + n))
          (arraysize c) (cur_fetches c) (cur_drop_at c)).

(** [cursor.fetchmany()]: the next [arraysize] rows, fewer at the end. *)
Definition fetchmany (c : cursor) : io (cursor * list Row) :=
  if decide (cur_drop_at c = Some (cur_fetches c)) then
    raise (OperationalError "server closed the connection unexpectedly")
  else
    let data := take (arraysize c) (remaining c) in
    emit (EvFetch (length data)) ;;
    mret (mkCursor (cur_rows c) (cur_pos c + length data)%nat (arraysize c)
            (S (cur_fetches c)) (cur_drop_at c), data).

Module PostgreDb.

(** [__init__]: the object is its cursor. *)
Definition init (env : environment) (connection : option nat) (page_size : nat)
    (start_datetime : datetime) (offset : json) : io cursor :=
  let c := mkCursor (table env start_datetime) 0 page_size 0 connection in
  emit (EvExecute start_datetime) ;;
  n ← lift (as_int offset);
  scroll c n.

(** One step of the generator [read_data]: [None] when it finishes. *)
Definition read_data_next (c : cursor) : io (cursor * option (list MoviesForEs)) :=
  '(c', data) ← fetchmany c;
  match data with
  | [] => mret (c', None)
  | _ => docs ← lift (validate_rows data); mret (c', Some docs)
  end.

(** The generator run to its end: the pages it yields. *)
Fixpoint read_data (fuel : nat) (c : cursor) : io (list (list MoviesForEs)) :=
  match fuel with
  | O => raise OutOfFuel
  | S fuel' =>
      '(c', item) ← read_data_next c;
      match item with
      | None => mret []
      | Some page => pages ← read_data fuel' c'; mret (page :: pages)
      end
  end.

End PostgreDb.

(** ** loaders.py: EsDb, over [elasticsearch.helpers.bulk] *)

Definition is_nil {A : Type} (l : list A) : bool :=
  match l with [] => true | _ => false end.

Fixpoint chunks_fuel {A : Type} (fuel n : nat) (l : list A) : list (list A) :=
  match fuel, l with
  | S fuel', _ :: _ => take n l :: chunks_fuel fuel' n (drop n l)
  | _, _ => []
  end.

(** Consecutive chunks of [n] elements, the last one shorter. *)
Definition chunks {A : Type} (n : nat) (l : list A) : list (list A) :=
  chunks_fuel (length l) n l.

Definition rejected (env : environment) (a : action) : bool := es_rejects env (a_source a).

(** [helpers.streaming_bulk]: one request per chunk; the index stores
    the documents it accepts, and with [raise_on_error] the first chunk
    that has a refused document raises [BulkIndexError].  Chunks are cut
    by number of actions only: the helper's limit in bytes (100 MB) is
    far above a page of films. *)
Fixpoint streaming_bulk (env : environment) (raise_on_error : bool)
    (todo : list (list action)) (success : nat) (errors : list action)
    : io (nat * list action) :=
  match todo with
  | [] => mret (success, errors)
  | chunk :: rest =>
      emit (EvBulk chunk) ;;
      let bad := List.filter (rejected env) chunk in
      if raise_on_error && negb (is_nil bad) then
        raise (BulkIndexError (length bad))
      else
        streaming_bulk env raise_on_error rest
          (success + (length chunk - length bad))%nat (errors ++ bad)
  end.

(** [helpers.bulk(client, actions, raise_on_error=True, chunk_size=500)],
    with [stats_only=False]: the pair (successes, errors). *)
Definition bulk (env : environment) (actions : list action) (raise_on_error : bool)
    : io (nat * list action) :=
  streaming_bulk env raise_on_error (chunks 500 actions) 0 [].

Module EsDb.

Definition init : io unit := emit EvEsInit.

Definition build_index (data : list MoviesForEs) : list action :=
  map (mkAction "movies") data.

(** [_, errors = bulk(self.es, self.build_index(data))]: the helper's
    defaults, so [raise_on_error] is [True]. *)
Definition bulk_write (env : environment) (data : list MoviesForEs) : io unit :=
  '(_, errors) ← bulk env (build_index data) true;
  if is_nil errors then mret tt
  else emit (EvLogError (length errors)).

(** The same method, had it asked the helper to collect the failures. *)
Definition bulk_write_collecting (env : environment) (data : list MoviesForEs) : io unit :=
  '(_, errors) ← bulk env (build_index data) false;
  if is_nil errors then mret tt
  else emit (EvLogError (length errors)).

End EsDb.

(** ** main.py *)

Definition start_datetime_key : string := "saved_dt".
Definition offset_key : string := "saved_rows".

(** [dt.utcnow()] *)
Definition utcnow (env : environment) : io datetime := fun tr =>
  (tr, Ok (wall_clock env (length tr))).

(** [dt.fromisoformat(v)] on a Python value. *)
Definition py_fromisoformat (v : json) : result datetime :=
  match v with
  | JStr s => fromisoformat s
  | _ => Raise TypeError
  end.

Definition dt_fromisoformat (v : json) : io datetime := lift (py_fromisoformat v).

(** The [for data in pg_getter.read_data()] loop of [postgres_to_es]:
    the generator is stepped once per iteration.  [fuel] bounds the number
    of steps; one more than the rows of the result set always suffices
    ([transfer_fuel], [postgres_to_es_fuel]). *)
Fixpoint transfer (env : environment) (fuel : nat) (c : cursor) (state : json)
    (offset : Z) : io (json * Z) :=
  match fuel with
  | O => raise OutOfFuel
  | S fuel' =>
      '(c', item) ← PostgreDb.read_data_next c;
      match item with
      | None => mret (state, offset)
      | Some data =>
          EsDb.bulk_write env data ;;
          let offset := offset + Z.of_nat (length data) in
          state ← State.set_state state offset_key (JInt offset);
          transfer env fuel' c' state offset
      end
  end.

Definition postgres_to_es (env : environment) (connection : option nat) : io json :=
  let page_size := match PAGE_SIZE env with Some n => n | None => 1000%nat end in
  state ← State.init env;
  saved ← State.get_state state start_datetime_key (JStr (isoformat dt_min));
  start_datetime ← dt_fromisoformat saved;
  offset ← State.get_state state offset_key (JInt 0);
  query_time ← utcnow env;
  pg_getter ← PostgreDb.init env connection page_size start_datetime offset;
  EsDb.init ;;
  '(state, _) ← transfer env (S (length (cur_rows pg_getter))) pg_getter state (int_of offset);
  state ← State.set_state state start_datetime_key (JStr (isoformat query_time));
  State.clear_state state offset_key ;;
  mret JNull.

(** [psycopg2.connect(...)] *)
Definition connect (env : environment) : io (option nat) := fun tr =>
  match pg_plan env (connects tr) with
  | Refused msg => (tr ++ [EvConnect], Raise (OperationalError msg))
  | Up drop_at => (tr ++ [EvConnect], Ok drop_at)
  end.

(** [connection.__exit__] when the [with] block raised [e]: the
    transaction is rolled back and [e] goes on.  After an
    [OperationalError] the connection is closed: the rollback itself
    raises [InterfaceError], and this is the error that leaves the block.
    (When the block returns, the transaction is committed.) *)
Definition connection_exit (e : exn) : exn :=
  match e with
  | OperationalError _ => InterfaceError "connection already closed"
  | _ => e
  end.

(** The undecorated [establish_connection]: [connect] is evaluated
    before the [with] block is entered, so a refused connection raises as
    it is; what [postgres_to_es] raises passes through [__exit__]. *)
Definition establish_connection_body (env : environment) : io json :=
  pg_conn ← connect env;
  try_except (postgres_to_es env pg_conn) (fun _ => true)
    (fun e => raise (connection_exit e)) ;;
  mret JNull.

(** ** decorators.py *)

Definition max_retries : nat := 10.
Definition initial_backoff : Z := 2.
Definition max_backoff : Z := 600.

(** [min(max_backoff, initial_backoff * 2 ** (attempt - 1))] *)
Definition delay (attempt : nat) : Z :=
  Z.min max_backoff (initial_backoff * 2 ^ (Z.of_nat attempt - 1)).

(** The [for attempt in range(max_retries + 1)] loop of [wrapper]: the
    [else: break] leaves the loop, after which the wrapper returns
    nothing. *)
Fixpoint backoff_loop (func : io json) (attempts : list nat) : io json :=
  match attempts with
  | [] => mret JNull
  | attempt :: rest =>
      (if decide (attempt = 0%nat) then mret tt else emit (EvSleep (delay attempt))) ;;
      try_except_else func is_psycopg2_Error
        (fun e =>
           emit (EvLogException e) ;;
           if decide (attempt = max_retries) then raise e
           else backoff_loop func rest)
        (fun _ => mret JNull)
  end.

(** [backoff(func)] *)
Definition backoff (func : io json) : io json :=
  backoff_loop func (seq 0 (max_retries + 1)).

(** [establish_connection], as decorated. *)
Definition establish_connection (env : environment) : io json :=
  backoff (establish_connection_body env).

(** ** What a trace leaves behind *)

Definition bulk_actions (e : event) : list action :=
  match e with EvBulk chunk => chunk | _ => [] end.

(** The documents sent to the index, in order. *)
Definition sent (tr : trace) : list MoviesForEs :=
  map a_source (concat (map bulk_actions tr)).

(** The documents the index stored. *)
Definition indexed (env : environment) (tr : trace) : list MoviesForEs :=
  List.filter (fun d => negb (es_rejects env d)) (sent tr).

Definition sleep_of (e : event) : list Z :=
  match e with EvSleep s => [s] | _ => [] end.

(** The arguments of [time.sleep], in order. *)
Definition slept (tr : trace) : list Z := concat (map sleep_of tr).

Definition is_open (e : event) : bool :=
  match e with EvFileOpenW => true | _ => false end.

Definition is_dump (e : event) : bool :=
  match e with EvFileDump _ => true | _ => false end.

Definition is_log_error (e : event) : bool :=
  match e with EvLogError _ => true | _ => false end.

Definition is_bulk (e : event) : bool :=
  match e with EvBulk _ => true | _ => false end.

Definition count (p : event -> bool) (tr : trace) : nat :=
  length (List.filter p tr).

(** The documents written to the file, in order. *)
Definition dumped (tr : trace) : list json :=
  concat (map (fun e => match e with EvFileDump v => [v] | _ => [] end) tr).


(** The trace when attempt number [attempt] calls the function: the
    retries sleep first. *)
Definition before_call (attempt : nat) (tr : trace) : trace :=
  if decide (attempt = 0%nat) then tr else tr ++ [EvSleep (delay attempt)].

(** What [State(storage)] holds on file [f]. *)
Definition loaded (f : file_state) : json :=
  match open_and_load f with Ok v => v | Raise _ => JDict ∅ end.

(** The watermark [postgres_to_es] starts from on file [f]: the
    timestamp it filters by and the number of rows it skips. *)
Definition watermark (f : file_state) : result (datetime * Z) :=
  match loaded f with
  | JDict m =>
      match py_fromisoformat
              (default_to (JStr (isoformat dt_min)) (m !! start_datetime_key)) with
      | Ok t =>
          match as_int (default_to (JInt 0) (m !! offset_key)) with
          | Ok z => Ok (t, z)
          | Raise e => Raise e
          end
      | Raise e => Raise e
      end
  | _ => Raise AttributeError
  end.

Definition page_size_of (env : environment) : nat :=
  match PAGE_SIZE env with Some n => n | None => 1000%nat end.

(** [postgres_to_es] from [EsDb(path)] on, given what its first lines
    computed. *)
Definition run_body (env : environment) (pg_getter : cursor) (state : json)
    (offset : Z) (query_time : datetime) : io json :=
  EsDb.init ;;
  '(state, _) ← transfer env (S (length (cur_rows pg_getter))) pg_getter state offset;
  state ← State.set_state state start_datetime_key (JStr (isoformat query_time));
  State.clear_state state offset_key ;;
  mret JNull.

(** The events of one iteration of the loop on [page], when nothing
    fails: the fetch, the bulk requests, the checkpoint [m']. *)
Definition page_events (m' : gmap string json) (page : list MoviesForEs) : trace :=
  EvFetch (length page) :: map EvBulk (chunks 500 (EsDb.build_index page)) ++
  [EvFileOpenW; EvFileDump (JDict m')].

(** The events of the loop over [pages], from checkpoint [m] and offset
    [offset]. *)
Fixpoint loop_events (m : gmap string json) (offset : Z)
    (pages : list (list MoviesForEs)) : trace :=
  match pages with
  | [] => []
  | page :: rest =>
      let offset' := offset + Z.of_nat (length page) in
      let m' := <[offset_key := JInt offset']> m in
      page_events m' page ++ loop_events m' offset' rest
  end.

(** The checkpoint in memory after the loop over [pages]. *)
Fixpoint loop_map (m : gmap string json) (offset : Z)
    (pages : list (list MoviesForEs)) : gmap string json :=
  match pages with
  | [] => m
  | page :: rest =>
      let offset' := offset + Z.of_nat (length page) in
      loop_map (<[offset_key := JInt offset']> m) offset' rest
  end.

(** The two saves that end a run. *)
Definition completion_events (m : gmap string json) (query_time : datetime) : trace :=
  let m1 := <[start_datetime_key := JStr (isoformat query_time)]> m in
  [EvFileOpenW; EvFileDump (JDict m1);
   EvFileOpenW; EvFileDump (JDict (delete offset_key m1))].

(** All the events of [run_body] when nothing fails. *)
Definition run_events (m : gmap string json) (offset : Z)
    (pages : list (list MoviesForEs)) (query_time : datetime) : trace :=
  EvEsInit :: loop_events m offset pages ++
  EvFetch 0 :: completion_events (loop_map m offset pages) query_time.

Definition is_file_event (e : event) : bool := is_open e || is_dump e.

(** What an iteration on the next page does before it touches the file;
    with no page left, the empty fetch. *)
Definition head_events (pages : list (list MoviesForEs)) : trace :=
  match pages with
  | [] => [EvFetch 0]
  | page :: _ => EvFetch (length page) :: map EvBulk (chunks 500 (EsDb.build_index page))
  end.

(** An action of the program only ever adds events to the trace. *)
Definition appends {A : Type} (c : io A) : Prop :=
  forall tr, exists evs, fst (c tr) = tr ++ evs.

(** An action that never runs out of the fuel of the model. *)
Definition raised {A : Type} (r : result A) : option exn :=
  match r with Ok _ => None | Raise e => Some e end.

Definition fueled {A : Type} (c : io A) : Prop :=
  forall tr, raised (snd (c tr)) <> Some OutOfFuel.

(** ** A small installation, for concrete runs *)

Module Scenario.

Definition film (n : nat) : Row :=
  mkRow (Some (pretty n)) (Some ("film " +:+ pretty n))
    None None None None None None None None.

Definition films (n : nat) : list Row := map film (seq 0 n).

(** A clock that advances one second per event. *)
Definition ticking (n : nat) : datetime :=
  mkdt 2024 6 1 12 (Z.of_nat n / 60 mod 60) (Z.of_nat n mod 60) 0.

(** [main.py] run as a script ([PAGE_SIZE = 100]) over 250 modified
    films, no checkpoint yet, nothing going wrong. *)
Definition quiet : environment :=
  mkEnv NoFile (fun _ => films 250) ticking (fun _ => false) (fun _ => Up None) (Some 100%nat).

(** The same, but the first connection is lost at its second fetch. *)
Definition flaky : environment :=
  mkEnv NoFile (fun _ => films 250) ticking (fun _ => false)
    (fun n => match n with O => Up (Some 1%nat) | _ => Up None end) (Some 100%nat).

(** The same as [quiet], but the index refuses film 150. *)
Definition picky : environment :=
  mkEnv NoFile (fun _ => films 250) ticking (fun d => String.eqb (m_id d) "150")
    (fun _ => Up None) (Some 100%nat).

(** A checkpoint of a later day than the clock shows. *)
Definition ahead : environment :=
  mkEnv (Json (JDict {[ start_datetime_key := JStr "2025-01-01T00:00:00" ]}))
    (fun _ => []) ticking (fun _ => false) (fun _ => Up None) (Some 100%nat).

(** The documents of the 250 films. *)
Definition quiet_docs : list MoviesForEs :=
  match validate_rows (films 250) with Ok ds => ds | Raise _ => [] end.

(** The database never answers. *)
Definition down : environment :=
  mkEnv NoFile (fun _ => films 250) ticking (fun _ => false)
    (fun n => Refused ("refused, call " +:+ pretty n)) (Some 100%nat).


(** A checkpoint file whose text was cut short. *)
Definition garbled : environment :=
  mkEnv (NotJson "{") (fun _ => films 250) ticking (fun _ => false)
    (fun _ => Up None) (Some 100%nat).

End Scenario.

(** An action that adds to the trace only events of kind [P]. *)
Definition emits {A : Type} (P : event -> Prop) (c : io A) : Prop :=
  forall tr, exists evs, fst (c tr) = tr ++ evs /\ Forall P evs.

(** What a run of [postgres_to_es] with page size [ps] may do. *)
Definition run_event (ps : nat) (e : event) : Prop :=
  match e with
  | EvFetch n => (n <= ps)%nat
  | EvBulk chunk =>
      (0 < length chunk <= 500)%nat /\ Forall (fun a => a_index a = "movies"%string) chunk
  | EvSleep _ | EvConnect | EvLogException _ | EvLogError _ => False
  | _ => True
  end.

(** What fetching a page and sending it may do. *)
Definition page_event (ps : nat) (e : event) : Prop :=
  match e with
  | EvFetch n => (n <= ps)%nat
  | EvBulk chunk =>
      (0 < length chunk <= 500)%nat /\ Forall (fun a => a_index a = "movies"%string) chunk
  | _ => False
  end.

(** The checkpoints of [evs] follow the documents sent: a dump that
    carries [saved_rows] carries [o] plus the number of documents sent
    before it. *)
Definition checkpoints_follow (o : Z) (evs : list event) : Prop :=
  forall k v, evs !! k = Some (EvFileDump v) ->
    exists m, v = JDict m /\
      forall x, m !! offset_key = Some x ->
        as_int x = Ok (o + Z.of_nat (length (sent (take k evs)))).

(** A row that pydantic refuses. *)
Definition lacks_required (row : Row) : Prop := r_id row = None \/ r_title row = None.

(** An entry of [actors] or [writers] with a null value, and a column
    that holds one. *)
Definition null_value (p : option string * option string) : Prop :=
  fst p = None \/ snd p = None.

Definition has_null (o : option (list (option string * option string))) : Prop :=
  exists l, o = Some l /\ Exists null_value l.

(** The rows pydantic refuses. *)
Definition invalid_row (row : Row) : Prop :=
  lacks_required row \/ has_null (r_actors row) \/ has_null (r_writers row).

(** Validated people, as they were fetched. *)
Definition as_fetched (o : option (list (string * string)))
    : option (list (option string * option string)) :=
  option_map (map (fun p => (Some (fst p), Some (snd p)))) o.

(** ** More installations, for concrete runs *)

Module Cases.

(** A checkpoint file that holds the JSON value [null]. *)
Definition nulled : environment :=
  mkEnv (Json JNull) (fun _ => Scenario.films 250) Scenario.ticking
    (fun _ => false) (fun _ => Up None) (Some 100%nat).

(** A checkpoint file that holds a JSON list. *)
Definition listed : environment :=
  mkEnv (Json (JList [JInt 1])) (fun _ => Scenario.films 250) Scenario.ticking
    (fun _ => false) (fun _ => Up None) (Some 100%nat).

(** A checkpoint whose timestamp is a number. *)
Definition numbered : environment :=
  mkEnv (Json (JDict {[ start_datetime_key := JInt 5 ]})) (fun _ => Scenario.films 250)
    Scenario.ticking (fun _ => false) (fun _ => Up None) (Some 100%nat).

(** A checkpoint whose offset is a text. *)
Definition worded : environment :=
  mkEnv (Json (JDict {[ offset_key := JStr "many" ]})) (fun _ => Scenario.films 250)
    Scenario.ticking (fun _ => false) (fun _ => Up None) (Some 100%nat).

(** A checkpoint whose offset is one more than the largest C [int]. *)
Definition far : environment :=
  mkEnv (Json (JDict {[ offset_key := JInt 2147483648 ]})) (fun _ => Scenario.films 250)
    Scenario.ticking (fun _ => false) (fun _ => Up None) (Some 100%nat).

(** A film without a title. *)
Definition untitled : Row :=
  mkRow (Some "7") None None None None None None None None None.

(** A film one of whose actors has no name. *)
Definition nameless : Row :=
  mkRow (Some "8") (Some "film 8") None None None None None None
    (Some [(Some "p1", Some "Ann"); (Some "p2", None)]) None.

End Cases.

Module Breaks.

(** 100 films, then a row without a title among 20 more. *)
Definition spoiled : environment :=
  mkEnv NoFile (fun _ => Scenario.films 100 ++ Cases.untitled :: Scenario.films 20)
    Scenario.ticking (fun _ => false) (fun _ => Up None) (Some 100%nat).

(** The database refuses the first three connections. *)
Definition waking : environment :=
  mkEnv NoFile (fun _ => Scenario.films 250) Scenario.ticking (fun _ => false)
    (fun n => if (n <? 3)%nat then Refused "the database system is starting up" else Up None)
    (Some 100%nat).

End Breaks.

(** * Properties *)

(** ** Examples of the definitions *)

Example isoformat_min : isoformat dt_min = "0001-01-01T00:00:00"%string.
Proof. reflexivity. Qed.

Example fromisoformat_ex :
  fromisoformat "2024-01-01T00:00:00.000250" = Ok (mkdt 2024 1 1 0 0 0 250).
Proof. reflexivity. Qed.

Example fromisoformat_bad : fromisoformat "2024-02-30T00:00:00" = Raise ValueError.
Proof. reflexivity. Qed.

(** A date alone, another separator, a shorter time, milliseconds. *)
Example fromisoformat_layouts :
  fromisoformat "2024-01-01" = Ok (mkdt 2024 1 1 0 0 0 0) /\
  fromisoformat "2024-01-01 12:30" = Ok (mkdt 2024 1 1 12 30 0 0) /\
  fromisoformat "2024-01-01T00:00:00.250" = Ok (mkdt 2024 1 1 0 0 0 250000) /\
  fromisoformat "yesterday" = Raise ValueError /\
  fromisoformat "2024-01-01T00:00:00+00:00" = Raise Unmodelled.
Proof. repeat split; reflexivity. Qed.

(** A checkpoint whose timestamp is a date alone is a watermark. *)
Example date_alone_is_a_watermark :
  watermark (Json (JDict {[ start_datetime_key := JStr "2024-01-01" ]})) =
    Ok (mkdt 2024 1 1 0 0 0 0, 0).
Proof. reflexivity. Qed.

Example delay_values :
  map delay (seq 1 10) = [2; 4; 8; 16; 32; 64; 128; 256; 512; 600].
Proof. reflexivity. Qed.

(** ** Running monadic code *)

Lemma bind_ok {A B : Type} (c : io A) (k : A -> io B) tr tr' a :
  c tr = (tr', Ok a) -> (c ≫= k) tr = k a tr'.
Proof. intros H. unfold mbind, io_bind. now rewrite H. Qed.

Lemma bind_raise {A B : Type} (c : io A) (k : A -> io B) tr tr' e :
  c tr = (tr', Raise e) -> (c ≫= k) tr = (tr', Raise e).
Proof. intros H. unfold mbind, io_bind. now rewrite H. Qed.

Lemma bind_inv_ok {A B : Type} (c : io A) (k : A -> io B) tr tr' b :
  (c ≫= k) tr = (tr', Ok b) ->
  exists tr1 a, c tr = (tr1, Ok a) /\ k a tr1 = (tr', Ok b).
Proof.
  unfold mbind, io_bind. destruct (c tr) as [tr1 [a|e]]; intros H.
  - now exists tr1, a.
  - discriminate.
Qed.

Lemma slept_app tr1 tr2 : slept (tr1 ++ tr2) = slept tr1 ++ slept tr2.
Proof. unfold slept. now rewrite map_app, concat_app. Qed.

Lemma sent_app tr1 tr2 : sent (tr1 ++ tr2) = sent tr1 ++ sent tr2.
Proof. unfold sent. now rewrite map_app, concat_app, map_app. Qed.

Lemma file_after_app f tr1 tr2 :
  file_after f (tr1 ++ tr2) = file_after (file_after f tr1) tr2.
Proof. unfold file_after. apply fold_left_app. Qed.

(** ** The retry loop *)

Section Backoff.

Variable func : io json.

Lemma backoff_loop_unfold attempt rest tr :
  backoff_loop func (attempt :: rest) tr =
  match func (before_call attempt tr) with
  | (tr', Ok _) => (tr', Ok JNull)
  | (tr', Raise e) =>
      if is_psycopg2_Error e then
        if decide (attempt = max_retries) then (tr' ++ [EvLogException e], Raise e)
        else backoff_loop func rest (tr' ++ [EvLogException e])
      else (tr', Raise e)
  end.
Proof.
  unfold before_call. simpl.
  unfold mbind, io_bind, mret, io_ret, try_except_else, emit, raise.
  destruct (decide (attempt = 0%nat)) as [H0|H0]; simpl;
    (destruct (func _) as [tr' [v|e]]; [reflexivity|]);
    destruct (is_psycopg2_Error e); try reflexivity;
    destruct (decide (attempt = max_retries)) as [Hm|Hm]; reflexivity.
Qed.


(** A call that returns ends the loop. *)
Lemma backoff_loop_ok attempt rest tr tr' v :
  func (before_call attempt tr) = (tr', Ok v) ->
  backoff_loop func (attempt :: rest) tr = (tr', Ok JNull).
Proof. intros H. rewrite backoff_loop_unfold. now rewrite H. Qed.

(** An error that is no [psycopg2.Error] leaves the loop untouched. *)
Lemma backoff_loop_other attempt rest tr tr' e :
  func (before_call attempt tr) = (tr', Raise e) ->
  is_psycopg2_Error e = false ->
  backoff_loop func (attempt :: rest) tr = (tr', Raise e).
Proof. intros H He. rewrite backoff_loop_unfold. now rewrite H, He. Qed.

(** A [psycopg2.Error] before the last attempt: logged, and the
    function is called again. *)
Lemma backoff_loop_retry attempt rest tr tr' e :
  func (before_call attempt tr) = (tr', Raise e) ->
  is_psycopg2_Error e = true ->
  attempt <> max_retries ->
  backoff_loop func (attempt :: rest) tr =
  backoff_loop func rest (tr' ++ [EvLogException e]).
Proof.
  intros H He Hne. rewrite backoff_loop_unfold. rewrite H, He.
  now destruct (decide (attempt = max_retries)).
Qed.



End Backoff.



(** When the errors differ from call to call, the caller gets the one of
    the last call: the first call and ten retries make eleven. *)
Example backoff_raises_last_error :
  snd (establish_connection Scenario.down []) =
    Raise (OperationalError "refused, call 10") /\
  connects (fst (establish_connection Scenario.down [])) = 11%nat /\
  slept (fst (establish_connection Scenario.down [])) =
    [2; 4; 8; 16; 32; 64; 128; 256; 512; 600].
Proof. repeat split; vm_compute; reflexivity. Qed.

Example backoff_refused_sleeps :
  slept (fst (backoff (raise (OperationalError "connection refused")) [])) =
    [2; 4; 8; 16; 32; 64; 128; 256; 512; 600].
Proof. reflexivity. Qed.



(** The value is lost also when the function succeeds at a retry. *)
Lemma backoff_retry_discards_result (func : io json) tr tr1 tr2 e v :
  func tr = (tr1, Raise e) ->
  is_psycopg2_Error e = true ->
  func (tr1 ++ [EvLogException e; EvSleep 2]) = (tr2, Ok v) ->
  backoff func tr = (tr2, Ok JNull).
Proof.
  intros H1 He H2. unfold backoff. simpl seq.
  erewrite backoff_loop_retry; [|exact H1|exact He|discriminate].
  apply backoff_loop_ok with (v := v).
  unfold before_call. simpl. now rewrite <- app_assoc.
Qed.

(** ** Actions only add events *)

Create HintDb appends.

Lemma appends_ret {A : Type} (a : A) : appends (mret a).
Proof. intros tr. exists []. simpl. now rewrite app_nil_r. Qed.

Lemma appends_raise {A : Type} (e : exn) : appends (@raise A e).
Proof. intros tr. exists []. simpl. now rewrite app_nil_r. Qed.

Lemma appends_lift {A : Type} (r : result A) : appends (lift r).
Proof. intros tr. exists []. simpl. now rewrite app_nil_r. Qed.

Lemma appends_emit (e : event) : appends (emit e).
Proof. intros tr. now exists [e]. Qed.

Lemma appends_bind {A B : Type} (c : io A) (k : A -> io B) :
  appends c -> (forall a, appends (k a)) -> appends (c ≫= k).
Proof.
  intros Hc Hk tr. destruct (Hc tr) as [evs H].
  unfold mbind, io_bind. destruct (c tr) as [tr1 [a|e]]; simpl in H; subst tr1.
  - destruct (Hk a (tr ++ evs)) as [evs2 H2]. exists (evs ++ evs2).
    now rewrite H2, app_assoc.
  - now exists evs.
Qed.

Lemma appends_try_except_else {A B : Type} (c : io A) catches
    (handler : exn -> io B) (orelse : A -> io B) :
  appends c -> (forall e, appends (handler e)) -> (forall a, appends (orelse a)) ->
  appends (try_except_else c catches handler orelse).
Proof.
  intros Hc Hh Ho tr. destruct (Hc tr) as [evs H].
  unfold try_except_else. destruct (c tr) as [tr1 [a|e]]; simpl in H; subst tr1.
  - destruct (Ho a (tr ++ evs)) as [evs2 H2]. exists (evs ++ evs2).
    now rewrite H2, app_assoc.
  - destruct (catches e).
    + destruct (Hh e (tr ++ evs)) as [evs2 H2]. exists (evs ++ evs2).
      now rewrite H2, app_assoc.
    + now exists evs.
Qed.

Lemma appends_try_except {A : Type} (c : io A) catches (handler : exn -> io A) :
  appends c -> (forall e, appends (handler e)) ->
  appends (try_except c catches handler).
Proof.
  intros Hc Hh tr. destruct (Hc tr) as [evs H].
  unfold try_except. destruct (c tr) as [tr1 [a|e]]; simpl in H; subst tr1.
  - now exists evs.
  - destruct (catches e).
    + destruct (Hh e (tr ++ evs)) as [evs2 H2]. exists (evs ++ evs2).
      now rewrite H2, app_assoc.
    + now exists evs.
Qed.

#[local] Hint Resolve appends_ret appends_raise appends_lift appends_emit : appends.

Ltac appends_steps :=
  repeat first
    [ apply appends_bind; [|intros ?]
    | apply appends_try_except; [|intros ?]
    | apply appends_try_except_else; [|intros ?|intros ?]
    | match goal with
      | |- appends (match ?x with _ => _ end) => destruct x
      | |- appends (if ?x then _ else _) => destruct x
      end
    | solve [eauto with appends] ].

Lemma appends_utcnow env : appends (utcnow env).
Proof. intros tr. exists []. simpl. now rewrite app_nil_r. Qed.

Lemma appends_read_file env : appends (FileStorage.read_file env).
Proof. intros tr. exists []. simpl. now rewrite app_nil_r. Qed.

#[local] Hint Resolve appends_utcnow appends_read_file : appends.

Lemma appends_save_state v : appends (FileStorage.save_state v).
Proof. unfold FileStorage.save_state. appends_steps. Qed.

Lemma appends_retrieve_state env : appends (FileStorage.retrieve_state env).
Proof. unfold FileStorage.retrieve_state. appends_steps. Qed.

#[local] Hint Resolve appends_save_state appends_retrieve_state : appends.

Lemma appends_set_state self key value : appends (State.set_state self key value).
Proof. unfold State.set_state. appends_steps. Qed.

Lemma appends_get_state self key default : appends (State.get_state self key default).
Proof. unfold State.get_state. appends_steps. Qed.

Lemma appends_clear_state self key : appends (State.clear_state self key).
Proof. unfold State.clear_state. appends_steps. Qed.

Lemma appends_scroll c n : appends (scroll c n).
Proof. unfold scroll. appends_steps. Qed.

Lemma appends_fetchmany c : appends (fetchmany c).
Proof. unfold fetchmany. appends_steps. Qed.

#[local] Hint Resolve appends_set_state appends_get_state appends_clear_state
  appends_scroll appends_fetchmany : appends.

Lemma appends_PostgreDb_init env connection page_size start_datetime offset :
  appends (PostgreDb.init env connection page_size start_datetime offset).
Proof. unfold PostgreDb.init. appends_steps. Qed.

Lemma appends_read_data_next c : appends (PostgreDb.read_data_next c).
Proof. unfold PostgreDb.read_data_next. appends_steps. Qed.

#[local] Hint Resolve appends_PostgreDb_init appends_read_data_next : appends.

Lemma appends_streaming_bulk env raise_on_error todo success errors :
  appends (streaming_bulk env raise_on_error todo success errors).
Proof.
  revert success errors. induction todo as [|chunk rest IH]; intros success errors; simpl.
  - appends_steps.
  - appends_steps.
Qed.

#[local] Hint Resolve appends_streaming_bulk : appends.

Lemma appends_bulk_write env data : appends (EsDb.bulk_write env data).
Proof. unfold EsDb.bulk_write, bulk. appends_steps. Qed.

#[local] Hint Resolve appends_bulk_write : appends.

Lemma appends_transfer env fuel : forall c state offset,
  appends (transfer env fuel c state offset).
Proof.
  induction fuel as [|fuel IH]; intros c state offset; simpl.
  - appends_steps.
  - appends_steps.
Qed.

#[local] Hint Resolve appends_transfer : appends.

Lemma appends_dt_fromisoformat v : appends (dt_fromisoformat v).
Proof. unfold dt_fromisoformat. appends_steps. Qed.

#[local] Hint Resolve appends_dt_fromisoformat : appends.

Lemma appends_postgres_to_es env connection : appends (postgres_to_es env connection).
Proof. unfold postgres_to_es, State.init, EsDb.init. appends_steps. Qed.

(** ** states.py *)

Lemma save_state_run v tr :
  FileStorage.save_state v tr = (tr ++ [EvFileOpenW; EvFileDump v], Ok tt).
Proof.
  unfold FileStorage.save_state, mbind, io_bind, emit. simpl.
  now rewrite <- app_assoc.
Qed.

Lemma open_and_load_Exception f e : open_and_load f = Raise e -> is_Exception e = true.
Proof. destruct f; simpl; intros H; inversion H; reflexivity. Qed.

Lemma retrieve_state_run env tr :
  FileStorage.retrieve_state env tr =
  (tr, Ok (match open_and_load (file_after (initial_file env) tr) with
           | Ok v => v
           | Raise _ => JDict ∅
           end)).
Proof.
  unfold FileStorage.retrieve_state, try_except, FileStorage.read_file.
  destruct (open_and_load _) as [v|e] eqn:H; [reflexivity|].
  now rewrite (open_and_load_Exception _ _ H).
Qed.

Lemma set_state_run m key value tr :
  State.set_state (JDict m) key value tr =
  (tr ++ [EvFileOpenW; EvFileDump (JDict (<[key := value]> m))],
   Ok (JDict (<[key := value]> m))).
Proof.
  unfold State.set_state. erewrite bind_ok by apply save_state_run. reflexivity.
Qed.

Lemma clear_state_run m key tr :
  State.clear_state (JDict m) key tr =
  (tr ++ [EvFileOpenW; EvFileDump (JDict (delete key m))], Ok (JDict (delete key m))).
Proof.
  unfold State.clear_state. erewrite bind_ok by apply save_state_run. reflexivity.
Qed.

Lemma set_state_inv self key value tr tr' st :
  State.set_state self key value tr = (tr', Ok st) ->
  exists m, self = JDict m /\ st = JDict (<[key := value]> m) /\
            tr' = tr ++ [EvFileOpenW; EvFileDump st].
Proof.
  destruct self; try discriminate. rewrite set_state_run. intros H.
  inversion H; subst. eauto.
Qed.

Lemma clear_state_inv self key tr tr' st :
  State.clear_state self key tr = (tr', Ok st) ->
  exists m, self = JDict m /\ st = JDict (delete key m) /\
            tr' = tr ++ [EvFileOpenW; EvFileDump st].
Proof.
  destruct self; try discriminate. rewrite clear_state_run. intros H.
  inversion H; subst. eauto.
Qed.

(** The sibling [retrieve_state] of [etl_fill.py] lets a corrupt file
    through as an error. *)
Example retrieve_state_fill_raises :
  FileStorage.retrieve_state_fill Scenario.garbled [] = ([], Raise JSONDecodeError).
Proof. reflexivity. Qed.

Lemma get_state_run m key default tr :
  State.get_state (JDict m) key default tr = (tr, Ok (default_to default (m !! key))).
Proof. reflexivity. Qed.

Lemma c_int_ok z : INT_MIN <= z <= INT_MAX -> c_int z = Ok z.
Proof.
  intros Hr. unfold c_int.
  destruct (Z.leb_spec INT_MIN z); [|lia]. destruct (Z.leb_spec z INT_MAX); [|lia].
  reflexivity.
Qed.

Lemma c_int_overflow z : ~ INT_MIN <= z <= INT_MAX -> c_int z = Raise OverflowError.
Proof.
  intros Hr. unfold c_int.
  destruct (Z.leb_spec INT_MIN z); [|reflexivity].
  destruct (Z.leb_spec z INT_MAX); [lia|reflexivity].
Qed.

Lemma c_int_inv z z' : c_int z = Ok z' -> z' = z /\ INT_MIN <= z <= INT_MAX.
Proof.
  unfold c_int.
  destruct (Z.leb_spec INT_MIN z); [|discriminate].
  destruct (Z.leb_spec z INT_MAX); [|discriminate].
  intros Heq. inversion Heq. split; [reflexivity|lia].
Qed.

Lemma PostgreDb_init_run env connection page_size t offset z tr :
  as_int offset = Ok z ->
  INT_MIN <= z <= INT_MAX ->
  PostgreDb.init env connection page_size t offset tr =
  (tr ++ [EvExecute t; EvScroll z],
   Ok (mkCursor (table env t) (Z.to_nat z) page_size 0 connection)).
Proof.
  intros Hz Hr. unfold PostgreDb.init, scroll, emit, lift, mbind, io_bind, mret, io_ret.
  rewrite Hz, (c_int_ok z Hr). simpl. now rewrite <- app_assoc.
Qed.

(** An offset that is an integer but no C [int]: the query is executed
    and [scroll] raises before it moves the cursor. *)
Lemma PostgreDb_init_overflow env connection page_size t offset z tr :
  as_int offset = Ok z ->
  ~ INT_MIN <= z <= INT_MAX ->
  PostgreDb.init env connection page_size t offset tr =
  (tr ++ [EvExecute t], Raise OverflowError).
Proof.
  intros Hz Hr. unfold PostgreDb.init, scroll, emit, lift, mbind, io_bind, mret, io_ret.
  rewrite Hz, (c_int_overflow z Hr). reflexivity.
Qed.

Lemma appends_run_body env c state offset query_time :
  appends (run_body env c state offset query_time).
Proof. unfold run_body, EsDb.init. appends_steps. Qed.

(** The first lines of [postgres_to_es], when they raise nothing. *)
Lemma postgres_to_es_start env connection tr m t z :
  loaded (file_after (initial_file env) tr) = JDict m ->
  watermark (file_after (initial_file env) tr) = Ok (t, z) ->
  INT_MIN <= z <= INT_MAX ->
  postgres_to_es env connection tr =
  run_body env (mkCursor (table env t) (Z.to_nat z) (page_size_of env) 0 connection)
    (JDict m) z (wall_clock env (length tr)) (tr ++ [EvExecute t; EvScroll z]).
Proof.
  intros Hm Hw Hr. unfold watermark in Hw. rewrite Hm in Hw.
  destruct (py_fromisoformat _) as [t'|] eqn:Ht; [|discriminate].
  destruct (as_int _) as [z'|] eqn:Hz; [|discriminate].
  inversion Hw; subst t' z'. clear Hw.
  unfold postgres_to_es, State.init.
  rewrite (bind_ok _ _ tr tr (JDict m)) by (rewrite retrieve_state_run; fold (loaded (file_after (initial_file env) tr)); now rewrite Hm).
  rewrite (bind_ok _ _ _ _ _ (get_state_run m start_datetime_key _ tr)).
  rewrite (bind_ok _ _ tr tr t) by (unfold dt_fromisoformat, lift; now rewrite Ht).
  rewrite (bind_ok _ _ _ _ _ (get_state_run m offset_key _ tr)).
  rewrite (bind_ok _ _ tr tr (wall_clock env (length tr))) by reflexivity.
  rewrite (bind_ok _ _ _ _ _ (PostgreDb_init_run env connection _ t _ z tr Hz Hr)).
  unfold int_of. rewrite Hz. reflexivity.
Qed.

(** The first lines of [postgres_to_es] on an offset that is no C
    [int]: the run ends in [scroll], after the query was executed. *)
Lemma postgres_to_es_overflow env connection tr t z :
  watermark (file_after (initial_file env) tr) = Ok (t, z) ->
  ~ INT_MIN <= z <= INT_MAX ->
  postgres_to_es env connection tr = (tr ++ [EvExecute t], Raise OverflowError).
Proof.
  intros Hw Hr. unfold watermark in Hw.
  destruct (loaded (file_after (initial_file env) tr)) as [| | | | | |m] eqn:Hm;
    try discriminate.
  destruct (py_fromisoformat _) as [t'|] eqn:Ht; [|discriminate].
  destruct (as_int _) as [z'|] eqn:Hz; [|discriminate].
  inversion Hw; subst t' z'. clear Hw.
  unfold postgres_to_es, State.init.
  rewrite (bind_ok _ _ tr tr (JDict m)) by (rewrite retrieve_state_run; fold (loaded (file_after (initial_file env) tr)); now rewrite Hm).
  rewrite (bind_ok _ _ _ _ _ (get_state_run m start_datetime_key _ tr)).
  rewrite (bind_ok _ _ tr tr t) by (unfold dt_fromisoformat, lift; now rewrite Ht).
  rewrite (bind_ok _ _ _ _ _ (get_state_run m offset_key _ tr)).
  rewrite (bind_ok _ _ tr tr (wall_clock env (length tr))) by reflexivity.
  now rewrite (bind_raise _ _ _ _ _ (PostgreDb_init_overflow env connection _ t _ z tr Hz Hr)).
Qed.

Lemma fromisoformat_min : fromisoformat (isoformat dt_min) = Ok dt_min.
Proof. reflexivity. Qed.

(** A run on a file that cannot be loaded asks for everything since
    [datetime.min] and skips nothing. *)
Lemma unloadable_file_zero_watermark env connection tr e :
  open_and_load (file_after (initial_file env) tr) = Raise e ->
  exists rest r,
    postgres_to_es env connection tr = (tr ++ EvExecute dt_min :: EvScroll 0 :: rest, r).
Proof.
  intros Hload.
  rewrite (postgres_to_es_start env connection tr ∅ dt_min 0).
  - match goal with |- context [run_body ?e ?c ?s ?o ?q ?t] =>
      destruct (appends_run_body e c s o q t) as [rest Hrest];
      exists rest, (snd (run_body e c s o q t));
      rewrite (surjective_pairing (run_body e c s o q t)), Hrest
    end.
    now rewrite <- app_assoc.
  - unfold loaded. now rewrite Hload.
  - unfold watermark, loaded. rewrite Hload. rewrite !lookup_empty. simpl default_to.
    unfold py_fromisoformat. now rewrite fromisoformat_min.
  - unfold INT_MIN, INT_MAX. lia.
Qed.

(** A checkpoint that decoded to something else than an object: the
    first [get_state] of the run raises. *)
Lemma non_object_state_fails env connection tr v :
  file_after (initial_file env) tr = Json v ->
  (forall m, v <> JDict m) ->
  postgres_to_es env connection tr = (tr, Raise AttributeError).
Proof.
  intros Hf Hv. unfold postgres_to_es, State.init.
  erewrite bind_ok by (rewrite retrieve_state_run, Hf; reflexivity).
  simpl open_and_load. cbv beta iota.
  destruct v; try reflexivity. exfalso. eapply Hv. reflexivity.
Qed.

(** C7, as the code has it: loading the checkpoint never raises,
    whatever the file is.  An absent, unreadable or undecodable file
    gives the empty mapping, and the run then starts from the zero
    watermark ([datetime.min], offset 0) instead of failing.  A decodable
    file gives its content as it is: this is a mapping only when the file
    holds a JSON object; when it holds any other JSON value, what the
    load returns is no mapping, and the run fails with [AttributeError]
    at its first [get_state], before it has queried or written anything. *)
Theorem retrieve_state_total (env : environment) (tr : trace) :
  exists v,
    FileStorage.retrieve_state env tr = (tr, Ok v) /\
    (forall w, file_after (initial_file env) tr = Json w -> v = w) /\
    (file_after (initial_file env) tr = NoFile \/
     file_after (initial_file env) tr = Unreadable \/
     (exists text, file_after (initial_file env) tr = NotJson text) ->
     v = JDict ∅ /\
     forall connection, exists rest r,
       postgres_to_es env connection tr =
         (tr ++ EvExecute dt_min :: EvScroll 0 :: rest, r)) /\
    ((forall m, v <> JDict m) <->
     exists w, file_after (initial_file env) tr = Json w /\ forall m, w <> JDict m) /\
    ((forall m, v <> JDict m) ->
     forall connection, postgres_to_es env connection tr = (tr, Raise AttributeError)).
Proof.
  eexists. split; [apply retrieve_state_run|]. split; [|split].
  - intros w Hw. now rewrite Hw.
  - intros Hbad.
    assert (exists e, open_and_load (file_after (initial_file env) tr) = Raise e) as [e He].
    { destruct Hbad as [H|[H|[text H]]]; rewrite H; simpl; eauto. }
    rewrite He. split; [reflexivity|].
    intros connection. eapply unloadable_file_zero_watermark, He.
  - assert ((forall m, match open_and_load (file_after (initial_file env) tr) with
                       | Ok v => v | Raise _ => JDict ∅ end <> JDict m) ->
            exists w, file_after (initial_file env) tr = Json w /\ forall m, w <> JDict m)
      as Hnon.
    { destruct (file_after (initial_file env) tr) as [| |text|w]; simpl; intros Hv;
        try (exfalso; eapply Hv; reflexivity).
      exists w. auto. }
    split; [split|].
    + exact Hnon.
    + intros (w & Hw & Hv). rewrite Hw. exact Hv.
    + intros Hv connection. destruct (Hnon Hv) as (w & Hw & Hv').
      eapply non_object_state_fails; eauto.
Qed.

Lemma retrieve_state_total_witness :
  FileStorage.retrieve_state Scenario.garbled [] = ([], Ok (JDict ∅)) /\
  exists rest r,
    postgres_to_es Scenario.garbled None [] =
      ([] ++ EvExecute dt_min :: EvScroll 0 :: rest, r).
Proof.
  destruct (retrieve_state_total Scenario.garbled []) as (v & Hv & _ & Hbad & _).
  destruct Hbad as [Hempty Hrun].
  - right. right. eexists. reflexivity.
  - subst v. split; [exact Hv|]. apply Hrun.
Defined.

(** C7 fails as stated: a file that holds the JSON value [null] is
    decoded without error and [retrieve_state] returns [None], which is
    no mapping; the run raises [AttributeError] at once, and the decorated
    function passes the error to the caller after its one connection. *)
Lemma decoded_non_object_is_no_mapping :
  FileStorage.retrieve_state Cases.nulled [] = ([], Ok JNull) /\
  (forall m, JNull <> JDict m) /\
  postgres_to_es Cases.nulled None [] = ([], Raise AttributeError) /\
  establish_connection Cases.nulled [] = ([EvConnect], Raise AttributeError).
Proof. repeat split; try discriminate; vm_compute; reflexivity. Qed.

(** C3, as the code has it: [save_state] empties the file when it opens
    it and writes the whole document afterwards.  A save that completes
    replaces the file's content by the new document, whatever the file
    held; a save cut between the two steps leaves an empty file, so the
    previous checkpoint is gone and the next load gives the empty
    mapping. *)
Theorem save_state_truncates_then_writes (f0 : file_state) (tr : trace) (state : json) :
  FileStorage.save_state state tr = (tr ++ [EvFileOpenW; EvFileDump state], Ok tt) /\
  file_after f0 (tr ++ [EvFileOpenW; EvFileDump state]) = Json state /\
  file_after f0 (tr ++ [EvFileOpenW]) = NotJson "" /\
  loaded (file_after f0 (tr ++ [EvFileOpenW])) = JDict ∅.
Proof.
  split; [apply save_state_run|].
  rewrite !file_after_app. simpl. auto.
Qed.

(** C3 fails as stated: a save of offset 200 over a checkpoint of offset
    100, cut after its first step, leaves a file that is neither the old
    document nor the new one, and that loads as the empty mapping. *)
Lemma interrupted_save_loses_checkpoint :
  let old := Json (JDict {[ offset_key := JInt 100 ]}) in
  let new := JDict {[ offset_key := JInt 200 ]} in
  let killed := take 1 (fst (FileStorage.save_state new [])) in
  killed = [EvFileOpenW] /\
  file_after old killed <> old /\
  file_after old killed <> Json new /\
  loaded (file_after old killed) = JDict ∅.
Proof.
  simpl. split; [reflexivity|]. split; [discriminate|]. split; [discriminate|reflexivity].
Qed.

(** ** The decorated [establish_connection] *)

(** C4, as the code has it: the decorator wraps the whole of connect and
    run.  An error of the run that is no [psycopg2.Error] reaches the
    caller at once, with no retry; a [psycopg2.Error], raised while
    connecting or at any later point of the run, is logged, and after the
    delay connect and run are started again in the same process; when that
    second run succeeds the caller sees no error at all. *)
Theorem backoff_wraps_connect_and_run (env : environment) (tr tr' : trace) (e : exn) :
  establish_connection_body env tr = (tr', Raise e) ->
  (is_psycopg2_Error e = false -> establish_connection env tr = (tr', Raise e)) /\
  (is_psycopg2_Error e = true ->
   forall tr2 v,
     establish_connection_body env (tr' ++ [EvLogException e; EvSleep 2]) = (tr2, Ok v) ->
     establish_connection env tr = (tr2, Ok JNull)).
Proof.
  intros H. split.
  - intros He. unfold establish_connection, backoff. simpl seq.
    now apply backoff_loop_other.
  - intros He tr2 v H2. unfold establish_connection.
    eapply backoff_retry_discards_result; eauto.
Qed.

Lemma backoff_wraps_connect_and_run_witness :
  let tr1 := fst (establish_connection_body Scenario.flaky []) in
  let e := InterfaceError "connection already closed" in
  let tr2 := fst (establish_connection_body Scenario.flaky
                    (tr1 ++ [EvLogException e; EvSleep 2])) in
  establish_connection Scenario.flaky [] = (tr2, Ok JNull).
Proof.
  intros tr1 e tr2.
  apply (proj2 (backoff_wraps_connect_and_run Scenario.flaky [] tr1 e
                  ltac:(vm_compute; reflexivity)) eq_refl tr2 JNull).
  vm_compute. reflexivity.
Defined.

(** C4 fails as stated: the first connection is lost at the second fetch,
    after a page was fetched, delivered and checkpointed; the undecorated
    run raises a [psycopg2.Error] (the [InterfaceError] of the rollback on
    the closed connection, which takes the place of the fetch's
    [OperationalError]), and the decorated one sleeps 2 seconds, connects
    a second time, resumes from offset 100 and returns normally. *)
Lemma mid_run_error_restarts_run :
  (exists tr1,
     establish_connection_body Scenario.flaky [] =
       (tr1, Raise (InterfaceError "connection already closed")) /\
     tr1 !! 4%nat = Some (EvFetch 100) /\
     file_after NoFile tr1 = Json (JDict {[ offset_key := JInt 100 ]})) /\
  (exists tr2,
     establish_connection Scenario.flaky [] = (tr2, Ok JNull) /\
     connects tr2 = 2%nat /\
     slept tr2 = [2] /\
     List.filter (fun ev => match ev with EvScroll _ => true | _ => false end) tr2 =
       [EvScroll 0; EvScroll 100]).
Proof.
  split; eexists; (split; [vm_compute; reflexivity|]).
  - split; vm_compute; reflexivity.
  - split; [|split]; vm_compute; reflexivity.
Qed.

(** ** Chunks *)

Lemma chunks_fuel_concat {A : Type} (n : nat) :
  (0 < n)%nat ->
  forall fuel (l : list A), (length l <= fuel)%nat -> concat (chunks_fuel fuel n l) = l.
Proof.
  intros Hn. induction fuel as [|fuel IH]; intros l Hl.
  - destruct l; [reflexivity|simpl in Hl; lia].
  - destruct l as [|a l]; [reflexivity|].
    change (chunks_fuel (S fuel) n (a :: l))
      with (take n (a :: l) :: chunks_fuel fuel n (drop n (a :: l))).
    simpl concat. rewrite IH.
    + apply take_drop.
    + rewrite length_drop. simpl in *. lia.
Qed.

Lemma concat_chunks {A : Type} (n : nat) (l : list A) :
  (0 < n)%nat -> concat (chunks n l) = l.
Proof. intros Hn. now apply chunks_fuel_concat. Qed.

Lemma chunks_fuel_any {A : Type} (n : nat) :
  (0 < n)%nat ->
  forall fuel1 fuel2 (l : list A),
    (length l <= fuel1)%nat -> (length l <= fuel2)%nat ->
    chunks_fuel fuel1 n l = chunks_fuel fuel2 n l.
Proof.
  intros Hn. induction fuel1 as [|fuel1 IH]; intros fuel2 l H1 H2.
  - destruct l; [now destruct fuel2|simpl in H1; lia].
  - destruct l as [|a l]; [now destruct fuel2|].
    destruct fuel2 as [|fuel2]; [simpl in H2; lia|].
    change (take n (a :: l) :: chunks_fuel fuel1 n (drop n (a :: l)) =
            take n (a :: l) :: chunks_fuel fuel2 n (drop n (a :: l))).
    f_equal. apply IH; rewrite length_drop; simpl in *; lia.
Qed.

Lemma chunks_fuel_enough {A : Type} (n : nat) :
  (0 < n)%nat ->
  forall fuel (l : list A), (length l <= fuel)%nat -> chunks_fuel fuel n l = chunks n l.
Proof. intros Hn fuel l Hl. unfold chunks. now apply chunks_fuel_any. Qed.

(** The first chunk is the first [n] elements; the others are the chunks
    of the rest. *)
Lemma chunks_cons {A : Type} (n : nat) (l : list A) :
  (0 < n)%nat -> l <> [] -> chunks n l = take n l :: chunks n (drop n l).
Proof.
  intros Hn Hl. destruct l as [|a l]; [congruence|].
  unfold chunks at 1.
  change (chunks_fuel (length (a :: l)) n (a :: l))
    with (take n (a :: l) :: chunks_fuel (length l) n (drop n (a :: l))).
  f_equal. apply chunks_fuel_enough; [exact Hn|].
  rewrite length_drop. simpl. lia.
Qed.

(** ** The bulk helper *)

Lemma filter_nil_none {A : Type} (p : A -> bool) (l : list A) :
  List.filter p l = [] -> Forall (fun a => p a = false) l.
Proof.
  induction l as [|a l IH]; simpl; intros H; [constructor|].
  destruct (p a) eqn:Hp; [discriminate|]. constructor; auto.
Qed.

Lemma filter_none_nil {A : Type} (p : A -> bool) (l : list A) :
  Forall (fun a => p a = false) l -> List.filter p l = [].
Proof.
  induction 1 as [|a l Ha _ IH]; simpl; [reflexivity|]. now rewrite Ha.
Qed.

Lemma streaming_bulk_unfold env raise_on_error chunk rest success errors tr :
  streaming_bulk env raise_on_error (chunk :: rest) success errors tr =
  if raise_on_error && negb (is_nil (List.filter (rejected env) chunk)) then
    (tr ++ [EvBulk chunk], Raise (BulkIndexError (length (List.filter (rejected env) chunk))))
  else
    streaming_bulk env raise_on_error rest
      (success + (length chunk - length (List.filter (rejected env) chunk)))%nat
      (errors ++ List.filter (rejected env) chunk) (tr ++ [EvBulk chunk]).
Proof.
  simpl. unfold mbind, io_bind, emit. simpl.
  destruct (raise_on_error && _); reflexivity.
Qed.

(** With [raise_on_error], a refused document anywhere makes the helper
    raise; up to there it has only sent bulk requests. *)
Lemma streaming_bulk_raises env todo : forall success errors tr,
  Exists (Exists (fun a => rejected env a = true)) todo ->
  exists evs n,
    streaming_bulk env true todo success errors tr = (tr ++ evs, Raise (BulkIndexError n)) /\
    (0 < n)%nat /\ Forall (fun ev => is_bulk ev = true) evs.
Proof.
  induction todo as [|chunk rest IH]; intros success errors tr Hex.
  - inversion Hex.
  - rewrite streaming_bulk_unfold.
    destruct (List.filter (rejected env) chunk) as [|b bad] eqn:Hbad.
    + simpl.
      assert (Exists (Exists (fun a => rejected env a = true)) rest) as Hrest.
      { inversion Hex as [? ? Hc|? ? Hr]; subst; [|exact Hr].
        apply filter_nil_none in Hbad. exfalso.
        apply Exists_exists in Hc as (a & Ha & Hrej).
        rewrite Forall_forall in Hbad. specialize (Hbad a Ha). congruence. }
      destruct (IH (success + (length chunk - 0))%nat (errors ++ []) (tr ++ [EvBulk chunk]) Hrest)
        as (evs & n & H & Hn & Hall).
      exists (EvBulk chunk :: evs), n. rewrite H. rewrite <- app_assoc.
      split; [reflexivity|]. split; [exact Hn|]. constructor; [reflexivity|exact Hall].
    + simpl. exists [EvBulk chunk], (S (length bad)).
      split; [reflexivity|]. split; [lia|]. constructor; [reflexivity|constructor].
Qed.

Lemma Exists_concat_chunks {A : Type} (P : A -> Prop) (n : nat) (l : list A) :
  (0 < n)%nat -> Exists P l -> Exists (Exists P) (chunks n l).
Proof.
  intros Hn Hex. rewrite <- (concat_chunks n l Hn) in Hex.
  induction (chunks n l) as [|c cs IH]; simpl in Hex.
  - inversion Hex.
  - apply Exists_app in Hex as [H|H]; [now left|right; auto].
Qed.

(** [bulk_write] on a page with a document the index refuses: the
    helper's [BulkIndexError] passes through, nothing is logged. *)
Lemma bulk_write_rejection_raises env data tr :
  Exists (fun d => es_rejects env d = true) data ->
  exists evs n,
    EsDb.bulk_write env data tr = (tr ++ evs, Raise (BulkIndexError n)) /\
    (0 < n)%nat /\ Forall (fun ev => is_bulk ev = true) evs.
Proof.
  intros Hex.
  destruct (streaming_bulk_raises env (chunks 500 (EsDb.build_index data)) 0%nat [] tr)
    as (evs & n & H & Hn & Hall).
  - apply Exists_concat_chunks; [lia|].
    unfold EsDb.build_index. apply Exists_exists in Hex as (d & Hd & Hrej).
    apply Exists_exists. exists (mkAction "movies" d). split; [|exact Hrej].
    apply list_elem_of_fmap. eauto.
  - exists evs, n. split; [|auto].
    unfold EsDb.bulk_write, bulk. now erewrite bind_raise by exact H.
Qed.

(** Without [raise_on_error] the helper returns the failures. *)
Lemma streaming_bulk_collects env todo : forall success errors tr,
  streaming_bulk env false todo success errors tr =
  (tr ++ map EvBulk todo,
   Ok ((success + (length (concat todo) - length (List.filter (rejected env) (concat todo))))%nat,
       errors ++ List.filter (rejected env) (concat todo))).
Proof.
  induction todo as [|chunk rest IH]; intros success errors tr.
  - simpl. unfold mret, io_ret. rewrite !app_nil_r. do 3 f_equal. lia.
  - rewrite streaming_bulk_unfold. simpl andb. cbv iota. rewrite IH.
    simpl concat. rewrite List.filter_app, !length_app, <- !app_assoc. simpl.
    do 3 f_equal.
    pose proof (List.filter_length_le (rejected env) chunk).
    pose proof (List.filter_length_le (rejected env) (concat rest)).
    lia.
Qed.

(** Had [bulk_write] asked the helper to collect the failures, a refused
    document would be logged and the method would return. *)
Lemma bulk_write_collecting_logs env data tr :
  Exists (fun d => es_rejects env d = true) data ->
  exists n,
    EsDb.bulk_write_collecting env data tr =
      (tr ++ map EvBulk (chunks 500 (EsDb.build_index data)) ++ [EvLogError n], Ok tt) /\
    (0 < n)%nat.
Proof.
  intros Hex. unfold EsDb.bulk_write_collecting, bulk.
  erewrite bind_ok by apply streaming_bulk_collects.
  rewrite concat_chunks by lia. simpl.
  destruct (List.filter (rejected env) (EsDb.build_index data)) as [|b bad] eqn:Hbad.
  - exfalso. apply filter_nil_none in Hbad.
    apply Exists_exists in Hex as (d & Hd & Hrej).
    rewrite Forall_forall in Hbad.
    specialize (Hbad (mkAction "movies" d)).
    unfold rejected in Hbad. simpl in Hbad. rewrite Hrej in Hbad.
    enough (true = false) by discriminate. apply Hbad.
    unfold EsDb.build_index. apply list_elem_of_fmap. eauto.
  - simpl. exists (S (length bad)). unfold emit. rewrite <- app_assoc.
    split; [reflexivity|lia].
Qed.

(** C9, on the code: film 150, in the second page, is refused by the
    index.  The helper raises [BulkIndexError] inside [bulk_write], the
    error is no [psycopg2.Error] and so leaves the decorator at once: the
    process stops with the error, nothing was logged by [bulk_write], the
    checkpoint stays at the first page's offset 100, and the third page is
    never fetched. *)
Theorem rejected_document_aborts_run :
  exists tr,
    establish_connection Scenario.picky [] = (tr, Raise (BulkIndexError 1)) /\
    count is_log_error tr = 0%nat /\
    file_after NoFile tr = Json (JDict {[ offset_key := JInt 100 ]}) /\
    List.filter (fun ev => match ev with EvFetch _ => true | _ => false end) tr =
      [EvFetch 100; EvFetch 100] /\
    connects tr = 1%nat /\
    length (indexed Scenario.picky tr) = 199%nat.
Proof.
  eexists. split; [vm_compute; reflexivity|].
  repeat split; vm_compute; reflexivity.
Qed.

(** ** The extractor, when nothing fails *)

Lemma MoviesForEs_init_raises row e : MoviesForEs_init row = Raise e -> e = ValidationError.
Proof.
  unfold MoviesForEs_init.
  destruct (r_id row), (r_title row), (people_init (r_actors row)),
    (people_init (r_writers row)); intros H; inversion H; reflexivity.
Qed.

Lemma validate_rows_raises data e : validate_rows data = Raise e -> e = ValidationError.
Proof.
  induction data as [|row rest IH]; simpl; [discriminate|].
  destruct (MoviesForEs_init row) as [d|e'] eqn:Hrow.
  - destruct (validate_rows rest); [discriminate|].
    intros H. inversion H; subst. now apply IH.
  - intros H. inversion H; subst. eapply MoviesForEs_init_raises, Hrow.
Qed.

Lemma validate_rows_length data : forall docs,
  validate_rows data = Ok docs -> length docs = length data.
Proof.
  induction data as [|row rest IH]; simpl; intros docs H.
  - now inversion H.
  - destruct (MoviesForEs_init row); [|discriminate].
    destruct (validate_rows rest) as [ds|]; [|discriminate].
    inversion H; subst. simpl. f_equal. now apply IH.
Qed.

Lemma validate_rows_take data : forall n docs,
  validate_rows data = Ok docs -> validate_rows (take n data) = Ok (take n docs).
Proof.
  induction data as [|row rest IH]; simpl; intros n docs H.
  - inversion H; subst. now destruct n.
  - destruct (MoviesForEs_init row) eqn:Hrow; [|discriminate].
    destruct (validate_rows rest) as [ds|] eqn:Hrest; [|discriminate].
    inversion H; subst. destruct n; [reflexivity|].
    simpl. rewrite Hrow. now rewrite (IH n ds eq_refl).
Qed.

Lemma validate_rows_drop data : forall n docs,
  validate_rows data = Ok docs -> validate_rows (drop n data) = Ok (drop n docs).
Proof.
  induction data as [|row rest IH]; simpl; intros n docs H.
  - inversion H; subst. now destruct n.
  - destruct (MoviesForEs_init row) eqn:Hrow; [|discriminate].
    destruct (validate_rows rest) as [ds|] eqn:Hrest; [|discriminate].
    inversion H; subst. destruct n; simpl.
    + now rewrite Hrow, Hrest.
    + now apply IH.
Qed.

(** One step of the generator on a healthy connection. *)
Lemma read_data_next_run c docs tr :
  cur_drop_at c = None ->
  validate_rows (remaining c) = Ok docs ->
  exists c',
    PostgreDb.read_data_next c tr =
      (tr ++ [EvFetch (length (take (arraysize c) docs))],
       Ok (c', match take (arraysize c) docs with [] => None | page => Some page end)) /\
    cur_drop_at c' = None /\
    arraysize c' = arraysize c /\
    cur_rows c' = cur_rows c /\
    remaining c' = drop (arraysize c) (remaining c).
Proof.
  intros Hdrop Hdocs.
  pose proof (validate_rows_take _ (arraysize c) _ Hdocs) as Hpage.
  pose proof (validate_rows_length _ _ Hpage) as Hlen.
  exists (mkCursor (cur_rows c) (cur_pos c + length (take (arraysize c) (remaining c)))
            (arraysize c) (S (cur_fetches c)) (cur_drop_at c)).
  split; [|split; [|split; [|split]]].
  - unfold PostgreDb.read_data_next, fetchmany. rewrite Hdrop.
    destruct (decide (None = Some (cur_fetches c))) as [Habs|_]; [discriminate|].
    unfold mbind, io_bind, emit, mret, io_ret, lift. simpl.
    rewrite <- Hlen.
    destruct (take (arraysize c) (remaining c)) as [|row data] eqn:Hdata.
    + simpl in Hpage. inversion Hpage as [Hnil]. reflexivity.
    + rewrite Hpage. destruct (take (arraysize c) docs) eqn:Hd.
      * simpl in Hlen. discriminate.
      * reflexivity.
  - exact Hdrop.
  - reflexivity.
  - reflexivity.
  - unfold remaining. simpl. rewrite <- drop_drop.
    fold (remaining c).
    rewrite length_take.
    destruct (Nat.le_gt_cases (arraysize c) (length (remaining c))) as [Hle|Hgt].
    + now rewrite Nat.min_l.
    + rewrite Nat.min_r by lia. rewrite !drop_ge by lia. reflexivity.
Qed.

Lemma streaming_bulk_accepts env raise_on_error todo : forall success errors tr,
  List.filter (rejected env) (concat todo) = [] ->
  streaming_bulk env raise_on_error todo success errors tr =
  (tr ++ map EvBulk todo, Ok ((success + length (concat todo))%nat, errors)).
Proof.
  induction todo as [|chunk rest IH]; intros success errors tr Hnone.
  - simpl. unfold mret, io_ret. rewrite app_nil_r. do 3 f_equal. lia.
  - simpl concat in Hnone. rewrite List.filter_app in Hnone.
    apply app_eq_nil in Hnone as [Hc Hr].
    rewrite streaming_bulk_unfold, Hc. simpl is_nil. simpl negb.
    rewrite andb_false_r. rewrite IH by exact Hr.
    simpl. rewrite <- app_assoc, app_nil_r, length_app. simpl.
    do 3 f_equal. lia.
Qed.

Lemma build_index_source data : map a_source (EsDb.build_index data) = data.
Proof.
  unfold EsDb.build_index. rewrite map_map. simpl. apply map_id.
Qed.

(** [bulk_write] on a page the index accepts in full. *)
Lemma bulk_write_accepts env data tr :
  Forall (fun d => es_rejects env d = false) data ->
  EsDb.bulk_write env data tr =
    (tr ++ map EvBulk (chunks 500 (EsDb.build_index data)), Ok tt).
Proof.
  intros Hall. unfold EsDb.bulk_write, bulk.
  erewrite bind_ok.
  2:{ apply streaming_bulk_accepts. rewrite concat_chunks by lia.
      apply filter_none_nil. unfold EsDb.build_index, rejected.
      apply Forall_fmap. exact Hall. }
  reflexivity.
Qed.

Lemma sent_bulks (todo : list (list action)) :
  sent (map EvBulk todo) = map a_source (concat todo).
Proof.
  unfold sent. f_equal. f_equal. rewrite map_map. simpl. apply map_id.
Qed.

Lemma sent_cons e tr : sent (e :: tr) = map a_source (bulk_actions e) ++ sent tr.
Proof. unfold sent. simpl. now rewrite map_app. Qed.

Lemma sent_page_events m' page : sent (page_events m' page) = page.
Proof.
  unfold page_events.
  rewrite sent_cons, sent_app, sent_bulks, concat_chunks by lia.
  rewrite build_index_source. unfold sent. simpl. now rewrite app_nil_r.
Qed.

Lemma loop_events_cons m offset page rest :
  loop_events m offset (page :: rest) =
  page_events (<[offset_key := JInt (offset + Z.of_nat (length page))]> m) page ++
  loop_events (<[offset_key := JInt (offset + Z.of_nat (length page))]> m)
    (offset + Z.of_nat (length page)) rest.
Proof. reflexivity. Qed.

Lemma sent_loop_events pages : forall m offset,
  sent (loop_events m offset pages) = concat pages.
Proof.
  induction pages as [|page rest IH]; intros m offset; [reflexivity|].
  rewrite loop_events_cons, sent_app, sent_page_events, IH. reflexivity.
Qed.

Lemma sent_run_events m offset pages query_time :
  sent (run_events m offset pages query_time) = concat pages.
Proof.
  unfold run_events.
  rewrite sent_cons, sent_app, sent_loop_events. unfold sent. simpl. now rewrite app_nil_r.
Qed.

Lemma take_nonempty {A : Type} (n : nat) (l : list A) :
  (0 < n)%nat -> l <> [] -> take n l <> [].
Proof. intros Hn Hl. destruct n; [lia|]. destruct l; [congruence|discriminate]. Qed.

(** The loop of [postgres_to_es] when nothing fails: one iteration per
    page, then the empty fetch. *)
Lemma transfer_run env fuel : forall c m offset tr docs,
  (0 < arraysize c)%nat ->
  cur_drop_at c = None ->
  validate_rows (remaining c) = Ok docs ->
  Forall (fun d => es_rejects env d = false) docs ->
  (length docs < fuel)%nat ->
  transfer env fuel c (JDict m) offset tr =
  (tr ++ loop_events m offset (chunks (arraysize c) docs) ++ [EvFetch 0],
   Ok (JDict (loop_map m offset (chunks (arraysize c) docs)),
       offset + Z.of_nat (length docs))).
Proof.
  induction fuel as [|fuel IH]; intros c m offset tr docs Hps Hdrop Hdocs Hacc Hfuel; [lia|].
  simpl transfer.
  destruct (read_data_next_run c docs tr Hdrop Hdocs) as (c' & Hstep & Hdrop' & Hps' & _ & Hrem).
  rewrite (bind_ok _ _ _ _ _ Hstep).
  destruct docs as [|d docs'].
  - rewrite take_nil. unfold mret, io_ret. simpl. rewrite Z.add_0_r. reflexivity.
  - set (docs := d :: docs') in *.
    assert (docs <> []) as Hne by discriminate.
    pose proof (take_nonempty _ _ Hps Hne) as Hpage.
    destruct (take (arraysize c) docs) as [|p page] eqn:Htake; [congruence|].
    rewrite <- Htake in *. clear Hpage.
    erewrite bind_ok.
    2:{ apply bulk_write_accepts. apply Forall_take. exact Hacc. }
    erewrite bind_ok by apply set_state_run.
    rewrite (IH c' _ _ _ (drop (arraysize c) docs)).
    + rewrite Hps'. rewrite (chunks_cons (arraysize c) docs Hps Hne).
      simpl loop_events. simpl loop_map. unfold page_events.
      f_equal.
      * rewrite <- !app_assoc. simpl. rewrite <- !app_assoc. reflexivity.
      * do 2 f_equal.
        rewrite <- (take_drop (arraysize c) docs) at 3. rewrite length_app. lia.
    + lia.
    + exact Hdrop'.
    + rewrite Hrem. now apply validate_rows_drop.
    + apply Forall_drop. exact Hacc.
    + rewrite length_drop. subst docs. simpl in *. lia.
Qed.

(** The generator drained on a healthy connection: the pages are the
    chunks of the validated rows, then comes the empty fetch. *)
Lemma read_data_run fuel : forall c tr docs,
  (0 < arraysize c)%nat ->
  cur_drop_at c = None ->
  validate_rows (remaining c) = Ok docs ->
  (length docs < fuel)%nat ->
  PostgreDb.read_data fuel c tr =
  (tr ++ map (fun page => EvFetch (length page)) (chunks (arraysize c) docs) ++ [EvFetch 0],
   Ok (chunks (arraysize c) docs)).
Proof.
  induction fuel as [|fuel IH]; intros c tr docs Hps Hdrop Hdocs Hfuel; [lia|].
  simpl PostgreDb.read_data.
  destruct (read_data_next_run c docs tr Hdrop Hdocs) as (c' & Hstep & Hdrop' & Hps' & _ & Hrem).
  rewrite (bind_ok _ _ _ _ _ Hstep).
  destruct docs as [|d docs'].
  - rewrite take_nil. reflexivity.
  - set (docs := d :: docs') in *.
    assert (docs <> []) as Hne by discriminate.
    pose proof (take_nonempty _ _ Hps Hne) as Hpage.
    destruct (take (arraysize c) docs) as [|p page] eqn:Htake; [congruence|].
    rewrite <- Htake in *. clear Hpage.
    erewrite bind_ok.
    2:{ apply (IH c' _ (drop (arraysize c) docs)).
        - lia.
        - exact Hdrop'.
        - rewrite Hrem. now apply validate_rows_drop.
        - rewrite length_drop. subst docs. simpl in *. lia. }
    rewrite Hps'. rewrite (chunks_cons (arraysize c) docs Hps Hne).
    unfold mret, io_ret. simpl. rewrite <- !app_assoc. reflexivity.
Qed.

(** [postgres_to_es] from [EsDb(path)] on, when nothing fails. *)
Lemma run_body_run env c m offset query_time tr docs :
  (0 < arraysize c)%nat ->
  cur_drop_at c = None ->
  validate_rows (remaining c) = Ok docs ->
  Forall (fun d => es_rejects env d = false) docs ->
  run_body env c (JDict m) offset query_time tr =
  (tr ++ run_events m offset (chunks (arraysize c) docs) query_time, Ok JNull).
Proof.
  intros Hps Hdrop Hdocs Hacc. unfold run_body, EsDb.init.
  rewrite (bind_ok _ _ tr (tr ++ [EvEsInit]) tt) by reflexivity.
  erewrite bind_ok.
  2:{ apply transfer_run; eauto.
      apply validate_rows_length in Hdocs. rewrite Hdocs.
      unfold remaining. rewrite length_drop. lia. }
  cbv beta iota.
  erewrite bind_ok by apply set_state_run.
  erewrite bind_ok by apply clear_state_run.
  unfold mret, io_ret, run_events, completion_events.
  f_equal. repeat (rewrite <- app_assoc; simpl). reflexivity.
Qed.

Lemma chunks_lengths {A : Type} (n : nat) (l : list A) :
  (0 < n)%nat -> Forall (fun p => (0 < length p <= n)%nat) (chunks n l).
Proof.
  intros Hn. remember (length l) as k eqn:Hk.
  revert l Hk. induction k as [k IH] using lt_wf_ind. intros l Hk.
  destruct l as [|a l]; [constructor|].
  rewrite chunks_cons by (auto; discriminate). constructor.
  - rewrite length_take. simpl. lia.
  - apply (IH (length (drop n (a :: l)))); [|reflexivity].
    rewrite length_drop. simpl in *. lia.
Qed.

Lemma chunks_full {A : Type} (n : nat) (l : list A) :
  (0 < n)%nat ->
  forall i p, chunks n l !! i = Some p -> (S i < length (chunks n l))%nat -> length p = n.
Proof.
  intros Hn. remember (length l) as k eqn:Hk.
  revert l Hk. induction k as [k IH] using lt_wf_ind. intros l Hk i p Hp Hi.
  destruct l as [|a l]; [discriminate|].
  rewrite chunks_cons in Hp, Hi by (auto; discriminate).
  destruct i as [|i].
  - simpl in Hp. inversion Hp; subst p. rewrite length_take.
    destruct (drop n (a :: l)) as [|b rest] eqn:Hd.
    + simpl in Hi. lia.
    + assert (length (drop n (a :: l)) > 0)%nat by (rewrite Hd; simpl; lia).
      rewrite length_drop in *. lia.
  - simpl in Hp, Hi.
    apply (IH (length (drop n (a :: l)))) with (l := drop n (a :: l)) (i := i); auto.
    + rewrite length_drop. simpl in *. lia.
    + lia.
Qed.

(** C8, as the code has it: for every timestamp, every positive page
    size and every offset that is a non-negative C [int] (at most
    [2^31 - 1]: [cursor.scroll] takes nothing larger), on a connection
    that stays up and rows that validate, the extractor moves its cursor
    past exactly [offset] rows when it is built, before anything is
    fetched; drained, it yields the remaining documents in order as pages
    of at most [page_size] documents, every page but the last of exactly
    [page_size]; and it stops at the first fetch that returns no row,
    which comes right after the last page. *)
Theorem extractor_paging (env : environment) (t : datetime) (page_size : nat)
    (offset : Z) (docs : list MoviesForEs) (tr tr1 : trace) :
  (0 < page_size)%nat ->
  0 <= offset <= INT_MAX ->
  validate_rows (drop (Z.to_nat offset) (table env t)) = Ok docs ->
  exists c pages,
    PostgreDb.init env None page_size t (JInt offset) tr =
      (tr ++ [EvExecute t; EvScroll offset], Ok c) /\
    remaining c = drop (Z.to_nat offset) (table env t) /\
    PostgreDb.read_data (S (length (table env t))) c tr1 =
      (tr1 ++ map (fun page => EvFetch (length page)) pages ++ [EvFetch 0], Ok pages) /\
    concat pages = docs /\
    Forall (fun page => (0 < length page <= page_size)%nat) pages /\
    (forall i page, pages !! i = Some page -> (S i < length pages)%nat ->
                    length page = page_size).
Proof.
  intros Hps Hoff Hdocs.
  exists (mkCursor (table env t) (Z.to_nat offset) page_size 0 None), (chunks page_size docs).
  split; [apply PostgreDb_init_run; [reflexivity|unfold INT_MIN; lia]|].
  split; [reflexivity|].
  split.
  - apply (read_data_run _ (mkCursor (table env t) (Z.to_nat offset) page_size 0 None));
      auto.
    apply validate_rows_length in Hdocs. rewrite Hdocs, length_drop. lia.
  - split; [now apply concat_chunks|].
    split; [now apply chunks_lengths|].
    now apply chunks_full.
Qed.

Lemma extractor_paging_witness :
  exists c pages,
    PostgreDb.init Scenario.quiet None 100 dt_min (JInt 100) [] =
      ([] ++ [EvExecute dt_min; EvScroll 100], Ok c) /\
    remaining c = drop (Z.to_nat 100) (table Scenario.quiet dt_min) /\
    PostgreDb.read_data (S (length (table Scenario.quiet dt_min))) c [] =
      ([] ++ map (fun page => EvFetch (length page)) pages ++ [EvFetch 0], Ok pages) /\
    concat pages =
      match validate_rows (drop 100 (Scenario.films 250)) with Ok d => d | Raise _ => [] end /\
    Forall (fun page => (0 < length page <= 100)%nat) pages /\
    (forall i page, pages !! i = Some page -> (S i < length pages)%nat ->
                    length page = 100%nat).
Proof.
  apply (extractor_paging Scenario.quiet dt_min 100 100
           (match validate_rows (drop 100 (Scenario.films 250)) with
            | Ok d => d | Raise _ => [] end) [] []).
  - lia.
  - unfold INT_MAX. lia.
  - vm_compute. reflexivity.
Defined.

(** C8 fails as stated: a checkpoint may hold any integer, and from
    [2^31] on [cursor.scroll] raises [OverflowError] once the query has
    been executed: the cursor is not moved, no page is fetched, and the
    run ends with that error. *)
Lemma offset_beyond_c_int_stops_extractor :
  PostgreDb.init Scenario.quiet None 100 dt_min (JInt 2147483648) [] =
    ([EvExecute dt_min], Raise OverflowError) /\
  watermark (initial_file Cases.far) = Ok (dt_min, 2147483648) /\
  postgres_to_es Cases.far None [] = ([EvExecute dt_min], Raise OverflowError).
Proof. repeat split; vm_compute; reflexivity. Qed.

(** The scenario of the specification: 250 rows read by pages of 100. *)
Example pages_of_250 :
  match PostgreDb.read_data 251 (mkCursor (Scenario.films 250) 0 100 0 None) [] with
  | (tr, Ok pages) =>
      map (@length _) pages = [100; 100; 50]%nat /\
      tr = [EvFetch 100; EvFetch 100; EvFetch 50; EvFetch 0]
  | _ => False
  end.
Proof. vm_compute. split; reflexivity. Qed.

(** ** [isoformat] and [fromisoformat] are inverse on datetimes *)

Lemma digit_value_char d : 0 <= d <= 9 -> digit_value (digit_char d) = Some d.
Proof.
  intros H.
  assert (d = 0 \/ d = 1 \/ d = 2 \/ d = 3 \/ d = 4 \/ d = 5 \/ d = 6 \/ d = 7 \/
          d = 8 \/ d = 9) as Hd by lia.
  repeat (destruct Hd as [->|Hd]; [reflexivity|]). now subst.
Qed.

Lemma read_digits_pad w : forall n acc rest,
  0 <= n < 10 ^ Z.of_nat w ->
  read_digits w acc (pad w n +:+ rest) = Some (acc * 10 ^ Z.of_nat w + n, rest).
Proof.
  induction w as [|w IH]; intros n acc rest Hn.
  - simpl in *. do 2 f_equal. lia.
  - rewrite Nat2Z.inj_succ, Z.pow_succ_r in Hn by lia.
    assert (0 < 10 ^ Z.of_nat w) as Hpos by (apply Z.pow_pos_nonneg; lia).
    pose proof (Z.div_mod n (10 ^ Z.of_nat w) ltac:(lia)) as Hdm.
    pose proof (Z.mod_pos_bound n (10 ^ Z.of_nat w) Hpos) as Hmod.
    assert (0 <= n / 10 ^ Z.of_nat w <= 9) as Hq.
    { split; [apply Z.div_pos; lia|].
      enough (n / 10 ^ Z.of_nat w < 10) by lia.
      apply Z.div_lt_upper_bound; lia. }
    change (pad (S w) n) with
      (String (digit_char (n / 10 ^ Z.of_nat w)) (pad w (n mod 10 ^ Z.of_nat w))).
    change (read_digits (S w) acc (String ?c ?s +:+ rest)) with
      (match digit_value c with
       | Some d => read_digits w (acc * 10 + d) (s +:+ rest)
       | None => None
       end).
    rewrite digit_value_char by exact Hq.
    rewrite IH by exact Hmod.
    rewrite Nat2Z.inj_succ, Z.pow_succ_r by lia.
    do 2 f_equal. nia.
Qed.

Lemma days_in_month_le y m : days_in_month y m <= 31.
Proof.
  unfold days_in_month.
  destruct (m =? 2); [destruct (is_leap y); lia|].
  destruct ((m =? 4) || (m =? 6) || (m =? 9) || (m =? 11)); lia.
Qed.

Lemma expect_lit c rest : expect c (String c "" +:+ rest) = Some rest.
Proof. simpl. now rewrite Ascii.eqb_refl. Qed.

Lemma append_empty_r s : s +:+ "" = s.
Proof.
  induction s as [|c s' IH]; [reflexivity|].
  change (String c (s' +:+ "") = String c s'). now rewrite IH.
Qed.

Lemma read_digits_split w1 w2 : forall acc s,
  read_digits (w1 + w2) acc s =
  match read_digits w1 acc s with
  | Some (a, s') => read_digits w2 a s'
  | None => None
  end.
Proof.
  induction w1 as [|w1 IH]; intros acc s; [reflexivity|].
  simpl. destruct s as [|c s']; [reflexivity|].
  destruct (digit_value c); [apply IH|reflexivity].
Qed.

Lemma read_digits_first w acc s : read_digits (S w) acc s <> None -> s <> EmptyString.
Proof. intros H ->. now apply H. Qed.

Lemma pad_first w n rest : exists c s', pad (S w) n +:+ rest = String c s'.
Proof. simpl. eauto. Qed.

(** The time [isoformat] writes is read back. *)
Lemma parse_clock_isoformat h mi se us :
  0 <= h < 100 -> 0 <= mi < 100 -> 0 <= se < 100 -> 0 <= us < 1000000 ->
  parse_clock (pad 2 h +:+ ":" +:+ pad 2 mi +:+ ":" +:+ pad 2 se +:+
               (if us =? 0 then "" else "." +:+ pad 6 us)) = Some (h, mi, se, us).
Proof.
  intros Hh Hmi Hse Hus. unfold parse_clock.
  rewrite read_digits_pad by (simpl; lia). cbn [mbind option_bind].
  change (":" +:+ ?x) with (String ":" "" +:+ x).
  destruct (String ":" "" +:+ pad 2 mi +:+ String ":" "" +:+ pad 2 se +:+
            (if us =? 0 then "" else "." +:+ pad 6 us)) eqn:Hs1; [discriminate|].
  rewrite <- Hs1. clear Hs1.
  rewrite expect_lit. cbn [mbind option_bind].
  rewrite read_digits_pad by (simpl; lia). cbn [mbind option_bind].
  destruct (String ":" "" +:+ pad 2 se +:+
            (if us =? 0 then "" else "." +:+ pad 6 us)) eqn:Hs2; [discriminate|].
  rewrite <- Hs2. clear Hs2.
  rewrite expect_lit. cbn [mbind option_bind].
  rewrite read_digits_pad by (simpl; lia). cbn [mbind option_bind].
  rewrite !Z.mul_0_l, !Z.add_0_l.
  destruct (us =? 0) eqn:Hz.
  - apply Z.eqb_eq in Hz. now subst us.
  - change ("." +:+ pad 6 us) with (String "." "" +:+ pad 6 us).
    destruct (String "." "" +:+ pad 6 us) eqn:Hs3; [discriminate|].
    rewrite <- Hs3. clear Hs3.
    rewrite expect_lit. cbn [mbind option_bind].
    pose proof (read_digits_pad 6 us 0 "" ltac:(simpl; lia)) as H6.
    rewrite append_empty_r, Z.mul_0_l, Z.add_0_l in H6.
    change 6%nat with (3 + 3)%nat in H6 at 1. rewrite read_digits_split in H6.
    destruct (read_digits 3 0 (pad 6 us)) as [[ms s3]|]; [|discriminate].
    cbn [mbind option_bind].
    destruct s3 as [|c3 s3']; [discriminate|].
    rewrite H6. reflexivity.
Qed.

Lemma fromisoformat_isoformat t :
  valid_datetime t = true -> fromisoformat (isoformat t) = Ok t.
Proof.
  intros Hv. pose proof Hv as Hb.
  unfold valid_datetime in Hb.
  repeat (apply andb_true_iff in Hb as [Hb ?]).
  repeat match goal with H : (_ <=? _) = true |- _ => apply Z.leb_le in H end.
  pose proof (days_in_month_le (year t) (month t)).
  destruct t as [y mo d h mi se us]. simpl in *.
  unfold fromisoformat, isoformat. simpl year. simpl month. simpl day. simpl hour.
  simpl minute. simpl second. simpl microsecond.
  assert (parse_iso
            (pad 4 y +:+ "-" +:+ pad 2 mo +:+ "-" +:+ pad 2 d +:+ "T" +:+
             pad 2 h +:+ ":" +:+ pad 2 mi +:+ ":" +:+ pad 2 se +:+
             (if us =? 0 then "" else "." +:+ pad 6 us)) =
          Some (mkdt y mo d h mi se us)) as Hparse.
  { unfold parse_iso, parse_date.
    do 2 (rewrite read_digits_pad by (simpl; lia); cbn [mbind option_bind];
          rewrite expect_lit; cbn [mbind option_bind]).
    rewrite read_digits_pad by (simpl; lia). cbn [mbind option_bind].
    rewrite !Z.mul_0_l, !Z.add_0_l.
    change ("T" +:+ ?x) with (String "T" x). cbv beta iota.
    rewrite parse_clock_isoformat by lia. reflexivity. }
  rewrite Hparse. rewrite read_digits_pad by (simpl; lia).
  simpl valid_datetime in Hv. simpl valid_datetime. now rewrite Hv.
Qed.

(** ** A run that returns *)

Lemma read_data_next_ok_inv c tr tr' c' item :
  PostgreDb.read_data_next c tr = (tr', Ok (c', item)) ->
  exists n, tr' = tr ++ [EvFetch n].
Proof.
  unfold PostgreDb.read_data_next, fetchmany. intros H.
  destruct (decide (cur_drop_at c = Some (cur_fetches c))) as [Hd|Hd]; [discriminate|].
  apply bind_inv_ok in H as (tr1 & [c1 data] & H1 & H).
  apply bind_inv_ok in H1 as (tr2 & [] & H1 & H2).
  unfold emit in H1. unfold mret, io_ret in H2. inversion H1; inversion H2; subst.
  destruct (take (arraysize c) (remaining c)) as [|row rows].
  - unfold mret, io_ret in H. inversion H; subst. eauto.
  - apply bind_inv_ok in H as (tr3 & docs & H3 & H).
    unfold lift in H3. unfold mret, io_ret in H. inversion H3; inversion H; subst. eauto.
Qed.

(** The loop, when it returns, has either done nothing but one empty
    fetch, or left the offset it returns under [offset_key]. *)
Lemma transfer_ok_inv env fuel : forall c m offset tr tr' st offset',
  transfer env fuel c (JDict m) offset tr = (tr', Ok (st, offset')) ->
  exists evs m',
    tr' = tr ++ evs /\ st = JDict m' /\
    ((m' = m /\ sent evs = [] /\ offset' = offset) \/
     m' !! offset_key = Some (JInt offset')).
Proof.
  induction fuel as [|fuel IH]; intros c m offset tr tr' st offset' H; [discriminate|].
  simpl transfer in H.
  apply bind_inv_ok in H as (tr1 & [c1 item] & H1 & H).
  apply read_data_next_ok_inv in H1 as [n ->].
  destruct item as [data|].
  - apply bind_inv_ok in H as (tr2 & [] & H2 & H).
    destruct (appends_bulk_write env data (tr ++ [EvFetch n])) as [evs2 Hevs2].
    rewrite H2 in Hevs2. simpl in Hevs2. subst tr2.
    apply bind_inv_ok in H as (tr3 & st3 & H3 & H).
    apply (set_state_inv (JDict m) offset_key
             (JInt (offset + Z.of_nat (length data)))) in H3 as (m3 & Hm3 & -> & ->).
    inversion Hm3; subst m3.
    apply IH in H as (evs & m' & -> & -> & Hcase).
    exists ([EvFetch n] ++ evs2 ++
            [EvFileOpenW;
             EvFileDump (JDict (<[offset_key := JInt (offset + Z.of_nat (length data))]> m))]
            ++ evs), m'.
    split; [now rewrite <- !app_assoc|]. split; [reflexivity|].
    right. destruct Hcase as [(-> & _ & ->)|Hcase]; [|exact Hcase].
    apply lookup_insert_eq.
  - unfold mret, io_ret in H. inversion H; subst.
    exists [EvFetch n], m. split; [reflexivity|]. split; [reflexivity|].
    left. auto.
Qed.

(** A run of [postgres_to_es] that returns: it started from a loadable
    checkpoint, and it ended with the two saves of its completion, on the
    clock reading taken before the query. *)
Lemma postgres_to_es_ok_inv env connection tr tr' v :
  postgres_to_es env connection tr = (tr', Ok v) ->
  exists m0 t z mid m,
    loaded (file_after (initial_file env) tr) = JDict m0 /\
    watermark (file_after (initial_file env) tr) = Ok (t, z) /\
    v = JNull /\
    tr' = tr ++ [EvExecute t; EvScroll z] ++ mid ++
          completion_events m (wall_clock env (length tr)) /\
    ((m = m0 /\ sent mid = []) \/ exists n, m !! offset_key = Some (JInt n)).
Proof.
  intros H.
  assert (exists m0 t z, loaded (file_after (initial_file env) tr) = JDict m0 /\
                         watermark (file_after (initial_file env) tr) = Ok (t, z) /\
                         INT_MIN <= z <= INT_MAX)
    as (m0 & t & z & Hm & Hw & Hr).
  { pose proof H as H'. unfold postgres_to_es, State.init in H'.
    apply bind_inv_ok in H' as (tr1 & st & H1 & H').
    rewrite retrieve_state_run in H1.
    fold (loaded (file_after (initial_file env) tr)) in H1.
    inversion H1; subst tr1 st. clear H1.
    apply bind_inv_ok in H' as (tr2 & saved & H2 & H').
    destruct (loaded (file_after (initial_file env) tr)) as [| | | | | |m0] eqn:Hl;
      try discriminate H2.
    rewrite get_state_run in H2. inversion H2; subst tr2 saved. clear H2.
    apply bind_inv_ok in H' as (tr3 & t & H3 & H').
    unfold dt_fromisoformat, lift in H3. inversion H3 as [[Ht3 Ht]]. subst tr3.
    apply bind_inv_ok in H' as (tr4 & off & H4 & H').
    rewrite get_state_run in H4. inversion H4; subst tr4 off. clear H4.
    apply bind_inv_ok in H' as (tr5 & qt & H5 & H').
    apply bind_inv_ok in H' as (tr6 & c & H6 & H').
    unfold PostgreDb.init in H6.
    apply bind_inv_ok in H6 as (tr7 & [] & _ & H6).
    apply bind_inv_ok in H6 as (tr8 & z & Hz & H6).
    unfold lift in Hz. inversion Hz as [[Hz8 Hz']].
    unfold scroll in H6.
    apply bind_inv_ok in H6 as (tr9 & z' & Hc & _).
    unfold lift in Hc. inversion Hc as [[Hc9 Hc']].
    apply c_int_inv in Hc' as [_ Hr].
    exists m0, t, z. split; [reflexivity|]. split; [|exact Hr].
    unfold watermark. rewrite Hl, Ht, Hz'. reflexivity. }
  exists m0, t, z.
  rewrite (postgres_to_es_start _ _ _ _ _ _ Hm Hw Hr) in H.
  unfold run_body, EsDb.init in H.
  apply bind_inv_ok in H as (tr1 & [] & H1 & H).
  unfold emit in H1. inversion H1; subst tr1. clear H1.
  apply bind_inv_ok in H as (tr2 & [st off] & H2 & H).
  apply transfer_ok_inv in H2 as (evs & m' & -> & -> & Hcase).
  apply bind_inv_ok in H as (tr3 & st3 & H3 & H).
  apply set_state_inv in H3 as (m3 & Hm3 & -> & ->). inversion Hm3; subst m3.
  apply bind_inv_ok in H as (tr4 & st4 & H4 & H).
  apply clear_state_inv in H4 as (m4 & Hm4 & -> & ->). inversion Hm4; subst m4.
  unfold mret, io_ret in H. inversion H; subst.
  exists (EvEsInit :: evs), m'.
  split; [exact Hm|]. split; [exact Hw|]. split; [reflexivity|]. split.
  - unfold completion_events. repeat (rewrite <- app_assoc; simpl). reflexivity.
  - destruct Hcase as [(-> & Hs & _)|Hcase].
    + left. split; [reflexivity|]. now rewrite sent_cons, Hs.
    + right. eauto.
Qed.

Lemma drop_app_length' {A : Type} (l k : list A) : drop (length l) (l ++ k) = k.
Proof. rewrite drop_app_length. reflexivity. Qed.

Lemma file_after_completion f before m query_time :
  file_after f (before ++ completion_events m query_time) =
  Json (JDict (delete offset_key
                 (<[start_datetime_key := JStr (isoformat query_time)]> m))).
Proof. now rewrite file_after_app. Qed.

(** C2, as the code has it: a run that drains with no error ends with two
    persisted updates, in this order.  The first saves the checkpoint with
    [saved_dt] set to the captured run start time and [saved_rows] still
    as the loop left it (present as soon as one page went through); the
    second saves it again without [saved_rows].  Only after the second
    does the file hold the new timestamp and no offset. *)
Theorem run_completion_two_saves (env : environment) (connection : option nat)
    (tr tr' : trace) (v : json) :
  postgres_to_es env connection tr = (tr', Ok v) ->
  exists before m1 m2,
    tr' = before ++ [EvFileOpenW; EvFileDump (JDict m1); EvFileOpenW; EvFileDump (JDict m2)] /\
    m1 !! start_datetime_key = Some (JStr (isoformat (wall_clock env (length tr)))) /\
    (sent (drop (length tr) tr') <> [] -> exists n, m1 !! offset_key = Some (JInt n)) /\
    m2 = delete offset_key m1 /\
    m2 !! start_datetime_key = Some (JStr (isoformat (wall_clock env (length tr)))) /\
    m2 !! offset_key = None /\
    file_after (initial_file env) (before ++ [EvFileOpenW; EvFileDump (JDict m1)]) =
      Json (JDict m1) /\
    file_after (initial_file env) tr' = Json (JDict m2).
Proof.
  intros H.
  apply postgres_to_es_ok_inv in H as (m0 & t & z & mid & m & Hm0 & Hw & -> & -> & Hcase).
  set (qt := wall_clock env (length tr)).
  exists (tr ++ [EvExecute t; EvScroll z] ++ mid),
    (<[start_datetime_key := JStr (isoformat qt)]> m),
    (delete offset_key (<[start_datetime_key := JStr (isoformat qt)]> m)).
  split; [unfold completion_events; now rewrite <- !app_assoc|].
  split; [apply lookup_insert_eq|].
  split.
  { intros Hsent. rewrite drop_app_length' in Hsent.
    destruct Hcase as [[_ Hnone]|[n Hn]].
    - exfalso. apply Hsent. rewrite !sent_app, Hnone. reflexivity.
    - exists n. rewrite lookup_insert_ne by discriminate. exact Hn. }
  split; [reflexivity|].
  split; [rewrite lookup_delete_ne by discriminate; apply lookup_insert_eq|].
  split; [apply lookup_delete_eq|].
  split.
  - rewrite file_after_app. reflexivity.
  - rewrite !app_assoc. rewrite file_after_app. reflexivity.
Qed.

Lemma run_completion_two_saves_witness :
  exists before m1 m2,
    fst (postgres_to_es Scenario.quiet None []) =
      before ++ [EvFileOpenW; EvFileDump (JDict m1); EvFileOpenW; EvFileDump (JDict m2)] /\
    m1 !! start_datetime_key =
      Some (JStr (isoformat (wall_clock Scenario.quiet (length (@nil event))))) /\
    (sent (drop (length (@nil event)) (fst (postgres_to_es Scenario.quiet None []))) <> [] ->
     exists n, m1 !! offset_key = Some (JInt n)) /\
    m2 = delete offset_key m1 /\
    m2 !! start_datetime_key =
      Some (JStr (isoformat (wall_clock Scenario.quiet (length (@nil event))))) /\
    m2 !! offset_key = None /\
    file_after (initial_file Scenario.quiet)
      (before ++ [EvFileOpenW; EvFileDump (JDict m1)]) = Json (JDict m1) /\
    file_after (initial_file Scenario.quiet) (fst (postgres_to_es Scenario.quiet None [])) =
      Json (JDict m2).
Proof.
  apply (run_completion_two_saves Scenario.quiet None []
           (fst (postgres_to_es Scenario.quiet None [])) JNull).
  vm_compute. reflexivity.
Defined.

(** C2 fails as stated: in the quiet run over 250 films, the file before
    the last save holds the new timestamp together with the offset 250 of
    the run that has just drained. *)
Lemma completion_leaves_timestamp_with_offset :
  let tr := fst (postgres_to_es Scenario.quiet None []) in
  snd (postgres_to_es Scenario.quiet None []) = Ok JNull /\
  drop (length tr - 4) tr =
    [EvFileOpenW;
     EvFileDump (JDict {[ start_datetime_key := JStr "2024-06-01T12:00:00";
                          offset_key := JInt 250 ]});
     EvFileOpenW;
     EvFileDump (JDict {[ start_datetime_key := JStr "2024-06-01T12:00:00" ]})] /\
  file_after NoFile (take (length tr - 2) tr) =
    Json (JDict {[ start_datetime_key := JStr "2024-06-01T12:00:00";
                   offset_key := JInt 250 ]}).
Proof.
  split; [vm_compute; reflexivity|]. split; vm_compute; reflexivity.
Qed.

(** ** The watermark across a run *)

Lemma watermark_completed m t :
  valid_datetime t = true ->
  m !! start_datetime_key = Some (JStr (isoformat t)) ->
  m !! offset_key = None ->
  watermark (Json (JDict m)) = Ok (t, 0).
Proof.
  intros Hv Hs Ho. unfold watermark, loaded. simpl.
  rewrite Hs, Ho. simpl. now rewrite fromisoformat_isoformat.
Qed.

(** C6, as the code has it: after a completed run the persisted
    [saved_dt] is the ISO text of the clock reading taken at the start of
    the run, before the query is issued, whatever the clock shows later;
    the next run reads that very time back, with no offset.  It is not
    earlier than the watermark the run started from exactly when the
    clock reading was not earlier than that watermark. *)
Theorem watermark_after_run (env : environment) (connection : option nat)
    (tr tr' : trace) (v : json) :
  postgres_to_es env connection tr = (tr', Ok v) ->
  exists t z rest m,
    watermark (file_after (initial_file env) tr) = Ok (t, z) /\
    tr' = tr ++ EvExecute t :: rest /\
    file_after (initial_file env) tr' = Json (JDict m) /\
    m !! start_datetime_key = Some (JStr (isoformat (wall_clock env (length tr)))) /\
    m !! offset_key = None /\
    (valid_datetime (wall_clock env (length tr)) = true ->
     watermark (file_after (initial_file env) tr') = Ok (wall_clock env (length tr), 0) /\
     (dt_le t (wall_clock env (length tr)) <->
      exists t', watermark (file_after (initial_file env) tr') = Ok (t', 0) /\ dt_le t t')).
Proof.
  intros H.
  apply postgres_to_es_ok_inv in H as (m0 & t & z & mid & m & Hm0 & Hw & _ & -> & _).
  set (qt := wall_clock env (length tr)).
  set (m2 := delete offset_key (<[start_datetime_key := JStr (isoformat qt)]> m)).
  assert (m2 !! start_datetime_key = Some (JStr (isoformat qt))) as Hs.
  { unfold m2. rewrite lookup_delete_ne by discriminate. apply lookup_insert_eq. }
  assert (m2 !! offset_key = None) as Ho by apply lookup_delete_eq.
  assert (file_after (initial_file env)
            (tr ++ [EvExecute t; EvScroll z] ++ mid ++ completion_events m qt) =
          Json (JDict m2)) as Hfile.
  { rewrite !app_assoc. apply file_after_completion. }
  exists t, z, (EvScroll z :: mid ++ completion_events m qt), m2.
  split; [exact Hw|]. split; [reflexivity|]. split; [exact Hfile|].
  split; [exact Hs|]. split; [exact Ho|].
  intros Hv. rewrite Hfile.
  rewrite (watermark_completed m2 _ Hv Hs Ho).
  split; [reflexivity|]. split.
  - intros Hle. eauto.
  - intros (t' & Ht' & Hle). inversion Ht'; subst. exact Hle.
Qed.

Lemma watermark_after_run_witness :
  exists t z rest m,
    watermark (file_after (initial_file Scenario.quiet) []) = Ok (t, z) /\
    fst (postgres_to_es Scenario.quiet None []) = [] ++ EvExecute t :: rest /\
    file_after (initial_file Scenario.quiet) (fst (postgres_to_es Scenario.quiet None [])) =
      Json (JDict m) /\
    m !! start_datetime_key =
      Some (JStr (isoformat (wall_clock Scenario.quiet (length (@nil event))))) /\
    m !! offset_key = None /\
    (valid_datetime (wall_clock Scenario.quiet (length (@nil event))) = true ->
     watermark (file_after (initial_file Scenario.quiet)
                  (fst (postgres_to_es Scenario.quiet None []))) =
       Ok (wall_clock Scenario.quiet (length (@nil event)), 0) /\
     (dt_le t (wall_clock Scenario.quiet (length (@nil event))) <->
      exists t', watermark (file_after (initial_file Scenario.quiet)
                              (fst (postgres_to_es Scenario.quiet None []))) = Ok (t', 0) /\
                 dt_le t t')).
Proof.
  apply (watermark_after_run Scenario.quiet None []
           (fst (postgres_to_es Scenario.quiet None [])) JNull).
  vm_compute. reflexivity.
Defined.

(** The run started at 12:00:00 and ended 20 events later; what it
    saved is the start. *)
Example saved_time_is_start_time :
  let tr := fst (postgres_to_es Scenario.quiet None []) in
  watermark (file_after NoFile tr) = Ok (Scenario.ticking 0, 0) /\
  Scenario.ticking (length tr) = mkdt 2024 6 1 12 0 20 0.
Proof. split; vm_compute; reflexivity. Qed.

(** C6 fails as stated: the checkpoint says 2025-01-01 and the clock
    shows 2024-06-01 when the run starts; the run completes and the
    persisted watermark moves back to 2024-06-01. *)
Lemma clock_behind_checkpoint_moves_watermark_back :
  let r := postgres_to_es Scenario.ahead None [] in
  snd r = Ok JNull /\
  watermark (initial_file Scenario.ahead) = Ok (mkdt 2025 1 1 0 0 0 0, 0) /\
  watermark (file_after (initial_file Scenario.ahead) (fst r)) =
    Ok (mkdt 2024 6 1 12 0 0 0, 0) /\
  dt_lt (mkdt 2024 6 1 12 0 0 0) (mkdt 2025 1 1 0 0 0 0).
Proof.
  split; [vm_compute; reflexivity|]. split; [vm_compute; reflexivity|].
  split; [vm_compute; reflexivity|]. reflexivity.
Qed.

(** ** Counting events, cutting traces *)








(** ** The shape of a run's events *)

Lemma bulks_quiet (todo : list (list action)) :
  Forall (fun e => is_file_event e = false) (map EvBulk todo).
Proof. apply Forall_fmap. apply Forall_forall. reflexivity. Qed.



Lemma page_events_head m' page :
  page_events m' page = head_events [page] ++ [EvFileOpenW; EvFileDump (JDict m')].
Proof. reflexivity. Qed.





(** After at least one page the loop's last event is the dump of its
    checkpoint. *)
Lemma loop_events_last pages : forall m offset,
  pages <> [] ->
  exists A', loop_events m offset pages =
             A' ++ [EvFileDump (JDict (loop_map m offset pages))].
Proof.
  induction pages as [|page rest IH]; intros m offset Hne; [congruence|].
  rewrite loop_events_cons. simpl loop_map.
  destruct rest as [|page' rest'].
  - simpl loop_events. rewrite app_nil_r, page_events_head.
    exists (head_events [page] ++ [EvFileOpenW]). now rewrite <- app_assoc.
  - destruct (IH (<[offset_key := JInt (offset + Z.of_nat (length page))]> m)
                (offset + Z.of_nat (length page)) ltac:(discriminate)) as [A' ->].
    eexists. rewrite app_assoc. reflexivity.
Qed.

Lemma file_after_ends_with_dump f A' d : file_after f (A' ++ [EvFileDump d]) = Json d.
Proof. now rewrite file_after_app. Qed.

Lemma loop_map_lookup pages : forall m offset,
  (forall key, key <> offset_key -> loop_map m offset pages !! key = m !! key) /\
  (pages <> [] ->
   loop_map m offset pages !! offset_key =
     Some (JInt (offset + Z.of_nat (length (concat pages))))).
Proof.
  induction pages as [|page rest IH]; intros m offset.
  - split; [reflexivity|congruence].
  - simpl loop_map.
    destruct (IH (<[offset_key := JInt (offset + Z.of_nat (length page))]> m)
                (offset + Z.of_nat (length page))) as [Hother Hoff].
    split.
    + intros key Hkey. rewrite Hother by exact Hkey. now rewrite lookup_insert_ne.
    + intros _. simpl concat. rewrite length_app, Nat2Z.inj_add, Z.add_assoc.
      destruct rest as [|page' rest'].
      * simpl. rewrite Z.add_0_r. apply lookup_insert_eq.
      * apply Hoff. discriminate.
Qed.



(** A whole run from a loadable checkpoint, when nothing fails. *)
Lemma run_from_checkpoint env tr m t z docs :
  loaded (file_after (initial_file env) tr) = JDict m ->
  watermark (file_after (initial_file env) tr) = Ok (t, z) ->
  INT_MIN <= z <= INT_MAX ->
  (0 < page_size_of env)%nat ->
  validate_rows (drop (Z.to_nat z) (table env t)) = Ok docs ->
  Forall (fun d => es_rejects env d = false) docs ->
  postgres_to_es env None tr =
  (tr ++ [EvExecute t; EvScroll z] ++
     run_events m z (chunks (page_size_of env) docs) (wall_clock env (length tr)),
   Ok JNull).
Proof.
  intros Hm Hw Hr Hps Hdocs Hacc.
  rewrite (postgres_to_es_start _ _ _ _ _ _ Hm Hw Hr).
  rewrite (run_body_run env _ m z _ _ docs); auto.
  now rewrite <- app_assoc.
Qed.

Lemma watermark_loaded f t z : watermark f = Ok (t, z) -> exists m, loaded f = JDict m.
Proof. unfold watermark. destruct (loaded f); try discriminate. eauto. Qed.

Lemma watermark_loop_map f m t z pages :
  loaded f = JDict m ->
  watermark f = Ok (t, z) ->
  pages <> [] ->
  watermark (Json (JDict (loop_map m z pages))) =
    Ok (t, z + Z.of_nat (length (concat pages))).
Proof.
  intros Hm Hw Hne. unfold watermark in *. rewrite Hm in Hw.
  change (loaded (Json (JDict (loop_map m z pages)))) with (JDict (loop_map m z pages)).
  destruct (loop_map_lookup pages m z) as [Hother Hoff].
  rewrite Hother by discriminate. rewrite (Hoff Hne).
  destruct (py_fromisoformat _) as [t'|]; [|discriminate].
  destruct (as_int _); [|discriminate]. inversion Hw; subst. reflexivity.
Qed.

(** ** Resuming an interrupted run *)

Lemma prefix_take {A : Type} (x y l : list A) : l = x ++ y -> x = take (length x) l.
Proof. intros ->. now rewrite take_app_length. Qed.




(** The run killed after 9 events had sent two pages and checkpointed
    one; invoked again, the process skips 100 rows and sends the other 150
    documents, the second page for the second time. *)
Example resume_after_first_page :
  let killed := take 9 (fst (postgres_to_es Scenario.quiet None [])) in
  let resumed := fst (postgres_to_es Scenario.quiet None killed) in
  length (sent killed) = 200%nat /\
  watermark (file_after NoFile killed) = Ok (dt_min, 100) /\
  sent (drop 9 resumed) = drop 100 Scenario.quiet_docs /\
  List.filter (fun ev => match ev with EvScroll _ | EvFetch _ => true | _ => false end)
    (drop 9 resumed) = [EvScroll 100; EvFetch 100; EvFetch 50; EvFetch 0].
Proof. repeat split; vm_compute; reflexivity. Qed.

(** A kill between the two saves of the completion is another matter:
    the file holds the new timestamp with the old offset, and the process
    invoked again would skip 250 rows of whatever the new query returns. *)
Example kill_inside_completion :
  let tr := fst (postgres_to_es Scenario.quiet None []) in
  let killed := take (length tr - 2) tr in
  watermark (file_after NoFile killed) = Ok (Scenario.ticking 0, 250).
Proof. vm_compute. reflexivity. Qed.

(** The pages and checkpoints of the specification's scenario: 250
    modified records by pages of 100. *)
Example scenario_checkpoints :
  let tr := fst (postgres_to_es Scenario.quiet None []) in
  dumped tr =
    [JDict {[ offset_key := JInt 100 ]};
     JDict {[ offset_key := JInt 200 ]};
     JDict {[ offset_key := JInt 250 ]};
     JDict {[ start_datetime_key := JStr "2024-06-01T12:00:00"; offset_key := JInt 250 ]};
     JDict {[ start_datetime_key := JStr "2024-06-01T12:00:00" ]}] /\
  sent tr = Scenario.quiet_docs.
Proof. split; vm_compute; reflexivity. Qed.

(** ** The fuel of the loops always suffices *)

Lemma fueled_ret {A : Type} (a : A) : fueled (mret a).
Proof. intros tr. discriminate. Qed.

Lemma fueled_raise {A : Type} (e : exn) : e <> OutOfFuel -> fueled (@raise A e).
Proof. intros He tr. simpl. congruence. Qed.

Lemma fueled_lift {A : Type} (r : result A) : raised r <> Some OutOfFuel -> fueled (lift r).
Proof. intros Hr tr. exact Hr. Qed.

Lemma fueled_emit (e : event) : fueled (emit e).
Proof. intros tr. discriminate. Qed.

Lemma fueled_bind {A B : Type} (c : io A) (k : A -> io B) :
  fueled c -> (forall a, fueled (k a)) -> fueled (c ≫= k).
Proof.
  intros Hc Hk tr. unfold mbind, io_bind. specialize (Hc tr).
  destruct (c tr) as [tr1 [a|e]]; [apply Hk|exact Hc].
Qed.

Lemma fueled_try_except {A : Type} (c : io A) catches (handler : exn -> io A) :
  fueled c -> (forall e, e <> OutOfFuel -> fueled (handler e)) ->
  fueled (try_except c catches handler).
Proof.
  intros Hc Hh tr. unfold try_except. specialize (Hc tr).
  destruct (c tr) as [tr1 [a|e]]; [discriminate|].
  destruct (catches e); [|exact Hc].
  apply Hh. simpl in Hc. congruence.
Qed.

Lemma fueled_try_except_else {A B : Type} (c : io A) catches
    (handler : exn -> io B) (orelse : A -> io B) :
  fueled c -> (forall e, e <> OutOfFuel -> fueled (handler e)) ->
  (forall a, fueled (orelse a)) ->
  fueled (try_except_else c catches handler orelse).
Proof.
  intros Hc Hh Ho tr. unfold try_except_else. specialize (Hc tr).
  destruct (c tr) as [tr1 [a|e]]; [apply Ho|].
  destruct (catches e); [|exact Hc].
  apply Hh. simpl in Hc. congruence.
Qed.

Create HintDb fueled.

#[local] Hint Resolve fueled_ret fueled_emit : fueled.

Ltac fueled_steps :=
  repeat first
    [ solve [eauto with fueled]
    | apply fueled_bind; [|intros ?]
    | apply fueled_try_except; [|intros ? ?]
    | apply fueled_try_except_else; [|intros ? ?|intros ?]
    | apply fueled_raise; discriminate
    | apply fueled_lift; discriminate
    | match goal with
      | |- fueled (match ?x with _ => _ end) => destruct x
      | |- fueled (if ?x then _ else _) => destruct x
      end
    | solve [eauto with fueled] ].

Lemma validate_rows_fueled data : raised (validate_rows data) <> Some OutOfFuel.
Proof.
  induction data as [|row rest IH]; simpl; [discriminate|].
  destruct (MoviesForEs_init row) as [d|e] eqn:Hrow.
  - destruct (validate_rows rest); [discriminate|exact IH].
  - rewrite (MoviesForEs_init_raises _ _ Hrow). discriminate.
Qed.

Lemma fromisoformat_fueled s : raised (fromisoformat s) <> Some OutOfFuel.
Proof.
  unfold fromisoformat.
  destruct (read_digits 4 0 s); [|discriminate].
  destruct (parse_iso s) as [t|]; [|discriminate].
  destruct (valid_datetime t); [discriminate|].
  destruct (hour t =? 24); discriminate.
Qed.

Lemma fueled_read_file env : fueled (FileStorage.read_file env).
Proof.
  intros tr. unfold FileStorage.read_file. simpl.
  destruct (file_after _ _); discriminate.
Qed.

Lemma fueled_utcnow env : fueled (utcnow env).
Proof. intros tr. discriminate. Qed.

#[local] Hint Resolve fueled_read_file fueled_utcnow : fueled.

Lemma fueled_save_state v : fueled (FileStorage.save_state v).
Proof. unfold FileStorage.save_state. fueled_steps. Qed.

Lemma fueled_retrieve_state env : fueled (FileStorage.retrieve_state env).
Proof. unfold FileStorage.retrieve_state. fueled_steps. Qed.

#[local] Hint Resolve fueled_save_state fueled_retrieve_state : fueled.

Lemma fueled_set_state self key value : fueled (State.set_state self key value).
Proof. unfold State.set_state. fueled_steps. Qed.

Lemma fueled_get_state self key default : fueled (State.get_state self key default).
Proof. unfold State.get_state. fueled_steps. Qed.

Lemma fueled_clear_state self key : fueled (State.clear_state self key).
Proof. unfold State.clear_state. fueled_steps. Qed.

Lemma fueled_dt_fromisoformat v : fueled (dt_fromisoformat v).
Proof.
  unfold dt_fromisoformat. apply fueled_lift.
  destruct v; try discriminate. apply fromisoformat_fueled.
Qed.

Lemma fueled_PostgreDb_init env connection page_size t offset :
  fueled (PostgreDb.init env connection page_size t offset).
Proof.
  unfold PostgreDb.init, scroll. fueled_steps.
  - apply fueled_lift. destruct offset; discriminate.
  - apply fueled_lift. unfold c_int. destruct (_ && _); discriminate.
Qed.

Lemma fueled_read_data_next c : fueled (PostgreDb.read_data_next c).
Proof.
  unfold PostgreDb.read_data_next, fetchmany. fueled_steps.
  apply fueled_lift. apply validate_rows_fueled.
Qed.

Lemma fueled_streaming_bulk env raise_on_error todo : forall success errors,
  fueled (streaming_bulk env raise_on_error todo success errors).
Proof.
  induction todo as [|chunk rest IH]; intros success errors; simpl; fueled_steps.
Qed.

#[local] Hint Resolve fueled_set_state fueled_get_state fueled_clear_state
  fueled_dt_fromisoformat fueled_PostgreDb_init fueled_read_data_next
  fueled_streaming_bulk : fueled.

Lemma fueled_bulk_write env data : fueled (EsDb.bulk_write env data).
Proof. unfold EsDb.bulk_write, bulk. fueled_steps. Qed.

#[local] Hint Resolve fueled_bulk_write : fueled.

(** A step of the generator that yields a page moves the cursor on. *)
Lemma read_data_next_progress c tr tr' c' page :
  PostgreDb.read_data_next c tr = (tr', Ok (c', Some page)) ->
  (length (remaining c') < length (remaining c))%nat /\ cur_rows c' = cur_rows c.
Proof.
  unfold PostgreDb.read_data_next, fetchmany. intros H.
  destruct (decide (cur_drop_at c = Some (cur_fetches c))) as [Hd|Hd]; [discriminate|].
  apply bind_inv_ok in H as (tr1 & [c1 data] & H1 & H).
  apply bind_inv_ok in H1 as (tr2 & [] & H1 & H2).
  unfold mret, io_ret in H2. inversion H2; subst. clear H2.
  destruct (take (arraysize c) (remaining c)) as [|row rows] eqn:Hdata.
  - unfold mret, io_ret in H. inversion H.
  - apply bind_inv_ok in H as (tr3 & docs & H3 & H).
    unfold mret, io_ret in H. inversion H; subst. clear H.
    split; [|reflexivity].
    unfold remaining at 1. simpl. rewrite <- drop_drop. fold (remaining c).
    rewrite length_drop.
    assert (length (remaining c) > 0)%nat.
    { destruct (remaining c); [now rewrite take_nil in Hdata|simpl; lia]. }
    simpl. lia.
Qed.

(** The loop never runs out of fuel when it is given more fuel than
    there are rows left. *)
Lemma transfer_fuel env fuel : forall c state offset,
  (length (remaining c) < fuel)%nat ->
  fueled (transfer env fuel c state offset).
Proof.
  induction fuel as [|fuel IH]; intros c state offset Hfuel tr; [lia|].
  simpl transfer. unfold mbind at 1, io_bind at 1.
  pose proof (fueled_read_data_next c tr) as Hnext.
  destruct (PostgreDb.read_data_next c tr) as [tr1 [[c' item]|e]] eqn:H1; [|exact Hnext].
  destruct item as [data|]; [|discriminate].
  apply read_data_next_progress in H1 as [Hlt _].
  clear Hnext. revert tr1. apply fueled_bind; [apply fueled_bulk_write|]. intros [].
  apply fueled_bind; [apply fueled_set_state|]. intros st.
  apply IH. lia.
Qed.

Lemma read_data_fuel fuel : forall c,
  (length (remaining c) < fuel)%nat -> fueled (PostgreDb.read_data fuel c).
Proof.
  induction fuel as [|fuel IH]; intros c Hfuel tr; [lia|].
  simpl PostgreDb.read_data. unfold mbind at 1, io_bind at 1.
  pose proof (fueled_read_data_next c tr) as Hnext.
  destruct (PostgreDb.read_data_next c tr) as [tr1 [[c' item]|e]] eqn:H1; [|exact Hnext].
  destruct item as [data|]; [|discriminate].
  apply read_data_next_progress in H1 as [Hlt _].
  clear Hnext. revert tr1. apply fueled_bind; [apply IH; lia|]. intros pages. apply fueled_ret.
Qed.

(** [postgres_to_es] gives its loop enough fuel, whatever happens. *)
Lemma postgres_to_es_fuel env connection : fueled (postgres_to_es env connection).
Proof.
  unfold postgres_to_es, State.init, EsDb.init.
  do 7 (apply fueled_bind; [solve [eauto with fueled]|intros ?]).
  apply fueled_bind.
  - apply transfer_fuel. unfold remaining. rewrite length_drop. lia.
  - intros [state offset]. fueled_steps.
Qed.

(** Neither does the decorated function. *)
Lemma establish_connection_fuel env : fueled (establish_connection env).
Proof.
  assert (fueled (establish_connection_body env)) as Hbody.
  { unfold establish_connection_body. apply fueled_bind.
    - intros tr. unfold connect. destruct (pg_plan env _); discriminate.
    - intros conn. apply fueled_bind; [|intros ?; apply fueled_ret].
      apply fueled_try_except; [apply postgres_to_es_fuel|].
      intros e He. apply fueled_raise. destruct e; simpl; congruence. }
  unfold establish_connection, backoff.
  generalize (seq 0 (max_retries + 1)). intros attempts.
  induction attempts as [|attempt rest IH]; simpl; [apply fueled_ret|].
  apply fueled_bind; [destruct (decide _); [apply fueled_ret|apply fueled_emit]|].
  intros []. apply fueled_try_except_else; [exact Hbody| |intros; apply fueled_ret].
  intros e He. apply fueled_bind; [apply fueled_emit|]. intros [].
  destruct (decide _); [now apply fueled_raise|exact IH].
Qed.

(** ** Connect and run *)

(** The undecorated function on a database that answers: what the run
    raises leaves through the exit of the [with] block. *)
Lemma establish_connection_body_run env tr c tr' r :
  pg_plan env (connects tr) = Up c ->
  postgres_to_es env c (tr ++ [EvConnect]) = (tr', r) ->
  establish_connection_body env tr =
    (tr', match r with Ok _ => Ok JNull | Raise e => Raise (connection_exit e) end).
Proof.
  intros Hp H. unfold establish_connection_body, connect, try_except, mbind, io_bind.
  rewrite Hp, H. now destruct r.
Qed.

(** * Further properties of the code *)

(** ** states.py: what [State] keeps *)

(** X1: [set_state] on a loaded mapping stores the value under the key
    at once: the object then answers the value for that key and what it
    answered before for any other key, and a new [State] built on the
    same file loads the very mapping the object holds. *)
Theorem set_state_persists (env : environment) (m : gmap string json)
    (key : string) (value default : json) (tr : trace) :
  exists tr' st,
    State.set_state (JDict m) key value tr = (tr', Ok st) /\
    State.get_state st key default tr' = (tr', Ok value) /\
    (forall other d, other <> key ->
       State.get_state st other d tr' = (tr', snd (State.get_state (JDict m) other d tr))) /\
    State.init env tr' = (tr', Ok st).
Proof.
  eexists. eexists. split; [apply set_state_run|].
  split; [rewrite get_state_run, lookup_insert_eq; reflexivity|].
  split.
  - intros other d Hne. rewrite !get_state_run. simpl.
    now rewrite lookup_insert_ne by congruence.
  - unfold State.init. rewrite retrieve_state_run.
    now rewrite file_after_app.
Qed.

(** X2: [clear_state] never fails on a loaded mapping, whether the key
    is there or not: afterwards the object answers the default for that
    key and what it answered before for the others, the file has been
    rewritten, and a new [State] loads the mapping without the key; a key
    that was absent leaves the mapping as it was. *)
Theorem clear_state_forgets (env : environment) (m : gmap string json)
    (key : string) (default : json) (tr : trace) :
  exists st,
    State.clear_state (JDict m) key tr =
      (tr ++ [EvFileOpenW; EvFileDump st], Ok st) /\
    State.get_state st key default (tr ++ [EvFileOpenW; EvFileDump st]) =
      (tr ++ [EvFileOpenW; EvFileDump st], Ok default) /\
    (forall other d, other <> key ->
       snd (State.get_state st other d tr) = snd (State.get_state (JDict m) other d tr)) /\
    State.init env (tr ++ [EvFileOpenW; EvFileDump st]) =
      (tr ++ [EvFileOpenW; EvFileDump st], Ok st) /\
    (m !! key = None -> st = JDict m).
Proof.
  eexists. split; [apply clear_state_run|].
  split; [rewrite get_state_run, lookup_delete_eq; reflexivity|].
  split.
  - intros other d Hne. rewrite !get_state_run. simpl.
    now rewrite lookup_delete_ne by congruence.
  - split.
    + unfold State.init. rewrite retrieve_state_run. now rewrite file_after_app.
    + intros Hnone. now rewrite delete_id.
Qed.

Lemma clear_state_forgets_witness :
  exists st,
    State.clear_state (JDict ∅) offset_key [] = ([] ++ [EvFileOpenW; EvFileDump st], Ok st) /\
    st = JDict ∅.
Proof.
  destruct (clear_state_forgets Scenario.quiet ∅ offset_key JNull [])
    as (st & Hrun & _ & _ & _ & Hsame).
  exists st. split; [exact Hrun|]. apply Hsame. reflexivity.
Defined.

(** ** main.py: checkpoints that decode but are not what the run expects *)

(** X3: a checkpoint file that decodes to something else than a JSON
    object is handed to the run as it is, and the first [get_state] fails:
    [postgres_to_es] raises [AttributeError] before it has queried, sent or
    written anything, and the decorated function passes the error on
    after its single connection, without retry or sleep. *)
Theorem non_object_checkpoint_fails (env : environment) (connection : option nat)
    (tr : trace) (v : json) :
  file_after (initial_file env) tr = Json v ->
  (forall m, v <> JDict m) ->
  postgres_to_es env connection tr = (tr, Raise AttributeError) /\
  (forall drop_at, pg_plan env (connects tr) = Up drop_at ->
     establish_connection env tr = (tr ++ [EvConnect], Raise AttributeError)).
Proof.
  intros Hfile Hv.
  assert (forall connection tr', file_after (initial_file env) tr' = Json v ->
            postgres_to_es env connection tr' = (tr', Raise AttributeError)) as Hrun.
  { intros conn tr' Hf. eapply non_object_state_fails; eauto. }
  split; [now apply Hrun|].
  intros drop_at Hplan.
  unfold establish_connection, backoff. simpl seq.
  apply backoff_loop_other; [|reflexivity].
  unfold before_call. simpl.
  rewrite (establish_connection_body_run env tr drop_at (tr ++ [EvConnect])
             (Raise AttributeError) Hplan); [reflexivity|].
  apply Hrun. rewrite file_after_app, Hfile. reflexivity.
Qed.

Lemma non_object_checkpoint_fails_witness :
  postgres_to_es Cases.listed None [] = ([], Raise AttributeError) /\
  (forall drop_at, pg_plan Cases.listed (connects []) = Up drop_at ->
     establish_connection Cases.listed [] = ([] ++ [EvConnect], Raise AttributeError)).
Proof.
  apply (non_object_checkpoint_fails Cases.listed None [] (JList [JInt 1])).
  - reflexivity.
  - discriminate.
Defined.

(** X4: the two keys of a checkpoint object are used as they come.  A
    [saved_dt] that is no text makes [dt.fromisoformat] raise [TypeError],
    and the run ends before the query is issued.  With a timestamp that
    is read, a [saved_rows] that is no integer ends the run with
    [TypeError], and an integer outside the range of a C [int] ends it
    with [OverflowError]: both come from [cursor.scroll], after the query
    was executed and before the cursor has moved or any row is fetched.
    In all three cases nothing is sent and the file is not touched. *)
Theorem mistyped_checkpoint_fails (env : environment) (connection : option nat)
    (tr : trace) (m : gmap string json) :
  file_after (initial_file env) tr = Json (JDict m) ->
  (forall v, m !! start_datetime_key = Some v -> (forall s, v <> JStr s) ->
     postgres_to_es env connection tr = (tr, Raise TypeError)) /\
  (forall t e,
     py_fromisoformat (default_to (JStr (isoformat dt_min)) (m !! start_datetime_key)) =
       Ok t ->
     as_int (default_to (JInt 0) (m !! offset_key)) = Raise e ->
     postgres_to_es env connection tr = (tr ++ [EvExecute t], Raise e) /\
     e = TypeError) /\
  (forall t z,
     py_fromisoformat (default_to (JStr (isoformat dt_min)) (m !! start_datetime_key)) =
       Ok t ->
     as_int (default_to (JInt 0) (m !! offset_key)) = Ok z ->
     ~ INT_MIN <= z <= INT_MAX ->
     postgres_to_es env connection tr = (tr ++ [EvExecute t], Raise OverflowError)).
Proof.
  intros Hfile.
  assert (State.init env tr = (tr, Ok (JDict m))) as Hinit.
  { unfold State.init. rewrite retrieve_state_run, Hfile. reflexivity. }
  split; [|split].
  - intros v Hv Hstr. unfold postgres_to_es.
    rewrite (bind_ok _ _ _ _ _ Hinit).
    rewrite (bind_ok _ _ _ _ _ (get_state_run m start_datetime_key _ tr)).
    erewrite bind_raise; [reflexivity|].
    unfold dt_fromisoformat, lift. rewrite Hv. simpl default_to.
    destruct v; try reflexivity. exfalso. eapply Hstr. reflexivity.
  - intros t e Ht He. split.
    + unfold postgres_to_es.
      rewrite (bind_ok _ _ _ _ _ Hinit).
      rewrite (bind_ok _ _ _ _ _ (get_state_run m start_datetime_key _ tr)).
      rewrite (bind_ok _ _ tr tr t) by (unfold dt_fromisoformat, lift; now rewrite Ht).
      rewrite (bind_ok _ _ _ _ _ (get_state_run m offset_key _ tr)).
      rewrite (bind_ok _ _ tr tr (wall_clock env (length tr))) by reflexivity.
      erewrite bind_raise; [reflexivity|].
      unfold PostgreDb.init.
      rewrite (bind_ok _ _ tr (tr ++ [EvExecute t]) tt) by reflexivity.
      erewrite bind_raise; [reflexivity|].
      unfold lift. now rewrite He.
    + destruct (default_to (JInt 0) (m !! offset_key)); simpl in He; congruence.
  - intros t z Ht Hz Hr. apply postgres_to_es_overflow with (z := z); [|exact Hr].
    unfold watermark, loaded. rewrite Hfile. simpl open_and_load. cbv beta iota.
    now rewrite Ht, Hz.
Qed.

Lemma mistyped_checkpoint_fails_witness :
  postgres_to_es Cases.numbered None [] = ([], Raise TypeError) /\
  postgres_to_es Cases.worded None [] = ([] ++ [EvExecute dt_min], Raise TypeError) /\
  postgres_to_es Cases.far None [] = ([] ++ [EvExecute dt_min], Raise OverflowError).
Proof.
  split; [|split].
  - apply (proj1 (mistyped_checkpoint_fails Cases.numbered None []
                    {[ start_datetime_key := JInt 5 ]} eq_refl) (JInt 5)).
    + reflexivity.
    + discriminate.
  - apply (proj1 (proj2 (mistyped_checkpoint_fails Cases.worded None []
                    {[ offset_key := JStr "many" ]} eq_refl)) dt_min TypeError).
    + reflexivity.
    + reflexivity.
  - apply (proj2 (proj2 (mistyped_checkpoint_fails Cases.far None []
                    {[ offset_key := JInt 2147483648 ]} eq_refl)) dt_min 2147483648).
    + reflexivity.
    + reflexivity.
    + unfold INT_MAX. lia.
Defined.

(** ** loaders.py and models.py: validation of a page *)

Lemma persons_init_cases l :
  (exists qs, persons_init l = Ok qs /\
     map (fun p => (Some (fst p), Some (snd p))) qs = l /\ ~ Exists null_value l) \/
  (persons_init l = Raise ValidationError /\ Exists null_value l).
Proof.
  induction l as [|[[i|] [n|]] rest IH]; simpl.
  - left. exists []. split; [reflexivity|]. split; [reflexivity|]. intros H. inversion H.
  - destruct IH as [(qs & -> & Hback & Hnone)|[-> Hex]].
    + left. exists ((i, n) :: qs). split; [reflexivity|]. split; [simpl; now rewrite Hback|].
      intros H. apply Exists_cons in H as [[H|H]|H]; [discriminate|discriminate|auto].
    + right. split; [reflexivity|]. now right.
  - right. split; [reflexivity|]. left. now right.
  - right. split; [reflexivity|]. left. now left.
  - right. split; [reflexivity|]. left. now left.
Qed.

Lemma people_init_cases o :
  (exists a, people_init o = Ok a /\ as_fetched a = o /\ ~ has_null o) \/
  (people_init o = Raise ValidationError /\ has_null o).
Proof.
  destruct o as [l|]; simpl.
  - destruct (persons_init_cases l) as [(qs & -> & Hback & Hnone)|[-> Hex]].
    + left. exists (Some qs). split; [reflexivity|]. split; [simpl; now rewrite Hback|].
      intros (l' & Hl & Hex). inversion Hl; subst. auto.
    + right. split; [reflexivity|]. exists l. auto.
  - left. exists None. split; [reflexivity|]. split; [reflexivity|].
    intros (l & Hl & _). discriminate.
Qed.

(** One row: refused exactly when it is invalid, and otherwise a
    document with the columns of the row. *)
Lemma MoviesForEs_init_cases row :
  (exists d, MoviesForEs_init row = Ok d /\ ~ invalid_row row /\
     Some (m_id d) = r_id row /\ Some (m_title d) = r_title row /\
     (m_description d, m_imdb_rating d, m_genre d, m_director d,
      m_actors_names d, m_writers_names d) =
     (r_description row, r_imdb_rating row, r_genre row, r_director row,
      r_actors_names row, r_writers_names row) /\
     as_fetched (m_actors d) = r_actors row /\ as_fetched (m_writers d) = r_writers row) \/
  (MoviesForEs_init row = Raise ValidationError /\ invalid_row row).
Proof.
  unfold MoviesForEs_init, invalid_row, lacks_required.
  destruct (r_id row) as [i|] eqn:Hi; [|right; split; [reflexivity|left; now left]].
  destruct (r_title row) as [t|] eqn:Ht; [|right; split; [reflexivity|left; now right]].
  destruct (people_init_cases (r_actors row)) as [(a & -> & Ha & Hna)|[-> Hex]];
    [|right; split; [reflexivity|right; now left]].
  destruct (people_init_cases (r_writers row)) as [(w & -> & Hw & Hnw)|[-> Hex]];
    [|right; split; [reflexivity|right; now right]].
  left. eexists. split; [reflexivity|]. split.
  - intros [[H|H]|[H|H]]; [discriminate|discriminate|auto|auto].
  - simpl. auto.
Qed.

(** X5: a page validates exactly when no row of it is invalid: every
    row has an [id] and a [title], and no entry of [actors] or [writers]
    holds a null.  One invalid row anywhere makes the whole page fail with
    [ValidationError]; otherwise the documents come out one per row, in
    the order of the rows, each with the columns of its row. *)
Theorem validate_rows_spec (data : list Row) :
  (validate_rows data = Raise ValidationError <-> Exists invalid_row data) /\
  (forall e, validate_rows data = Raise e -> e = ValidationError) /\
  (forall docs, validate_rows data = Ok docs ->
     Forall (fun row => ~ invalid_row row) data /\
     map (fun d => Some (m_id d)) docs = map r_id data /\
     map (fun d => Some (m_title d)) docs = map r_title data /\
     map (fun d => (m_description d, m_imdb_rating d, m_genre d, m_director d,
                    m_actors_names d, m_writers_names d)) docs =
     map (fun r => (r_description r, r_imdb_rating r, r_genre r, r_director r,
                    r_actors_names r, r_writers_names r)) data /\
     map (fun d => as_fetched (m_actors d)) docs = map r_actors data /\
     map (fun d => as_fetched (m_writers d)) docs = map r_writers data).
Proof.
  split; [|split; [intros e; apply validate_rows_raises|]].
  - induction data as [|row rest IH].
    + split; [discriminate|intros H; inversion H].
    + simpl validate_rows.
      destruct (MoviesForEs_init_cases row) as [(d & -> & Hvalid & _)|[-> Hinv]].
      * destruct (validate_rows rest) as [ds|e] eqn:Hrest.
        -- split; [discriminate|].
           intros Hex. apply Exists_cons in Hex as [H|H]; [contradiction|].
           apply IH in H. discriminate.
        -- split.
           ++ intros He. right. apply IH. exact He.
           ++ intros _. now rewrite (validate_rows_raises _ _ Hrest).
      * split; [intros _; now left|reflexivity].
  - induction data as [|row rest IH]; intros docs H.
    + inversion H; subst. repeat split; constructor.
    + simpl validate_rows in H.
      destruct (MoviesForEs_init_cases row)
        as [(d & Hd & Hvalid & Hid & Htitle & Hcols & Ha & Hw)|[Hd Hinv]];
        rewrite Hd in H; [|discriminate].
      destruct (validate_rows rest) as [ds|e] eqn:Hrest; [|discriminate].
      inversion H; subst. clear H.
      destruct (IH ds eq_refl) as (Hall & Hids & Htitles & Hcs & Has & Hws).
      split; [constructor; assumption|].
      simpl. rewrite Hid, Htitle, Hcols, Ha, Hw, Hids, Htitles, Hcs, Has, Hws. auto.
Qed.

(** A row with [id] and [title] is refused all the same when an actor's
    name is null, and the page with it. *)
Example null_actor_name_is_refused :
  MoviesForEs_init Cases.nameless = Raise ValidationError /\
  validate_rows (Scenario.films 3 ++ [Cases.nameless]) = Raise ValidationError.
Proof. split; reflexivity. Qed.

(** ** decorators.py: the delays and the outcome of [backoff] *)

(** X6: the delay before retry [attempt] doubles from 2 seconds on
    ([2 ^ attempt] for the retries 1 to 9) and is capped at 600 seconds
    from the tenth on; it never decreases. *)
Theorem delay_bounds (attempt : nat) :
  (1 <= attempt)%nat ->
  2 <= delay attempt <= 600 /\
  delay attempt <= delay (S attempt) /\
  ((attempt <= 9)%nat -> delay attempt = 2 ^ Z.of_nat attempt) /\
  ((10 <= attempt)%nat -> delay attempt = 600).
Proof.
  intros H1. unfold delay, max_backoff, initial_backoff.
  assert (forall k : nat, (1 <= k)%nat -> 2 * 2 ^ (Z.of_nat k - 1) = 2 ^ Z.of_nat k) as Hpow.
  { intros k Hk. rewrite <- Z.pow_succ_r by lia. f_equal. lia. }
  rewrite !Hpow by lia.
  assert (2 ^ Z.of_nat attempt <= 2 ^ Z.of_nat (S attempt)) as Hmono
    by (apply Z.pow_le_mono_r; lia).
  assert (2 ^ 1 <= 2 ^ Z.of_nat attempt) as Hlow by (apply Z.pow_le_mono_r; lia).
  change (2 ^ 1) with 2 in Hlow.
  split; [lia|]. split; [lia|]. split.
  - intros H9.
    assert (2 ^ Z.of_nat attempt <= 2 ^ 9) as Hhigh by (apply Z.pow_le_mono_r; lia).
    change (2 ^ 9) with 512 in Hhigh. lia.
  - intros H10.
    assert (2 ^ 10 <= 2 ^ Z.of_nat attempt) as Hhigh by (apply Z.pow_le_mono_r; lia).
    change (2 ^ 10) with 1024 in Hhigh. lia.
Qed.

Lemma delay_bounds_witness :
  2 <= delay 10 <= 600 /\
  delay 10 <= delay 11 /\
  ((10 <= 9)%nat -> delay 10 = 2 ^ Z.of_nat 10) /\
  ((10 <= 10)%nat -> delay 10 = 600).
Proof. apply (delay_bounds 10). lia. Defined.

Lemma backoff_loop_sleeps (func : io json) :
  (forall tr0, slept (fst (func tr0)) = slept tr0) ->
  forall attempts tr,
    exists k, (k <= length attempts)%nat /\
      slept (fst (backoff_loop func attempts tr)) =
      slept tr ++ map delay (List.filter (fun a => negb (a =? 0)%nat) (take k attempts)).
Proof.
  intros Hquiet. induction attempts as [|a rest IH]; intros tr.
  - exists 0%nat. split; [simpl; lia|]. simpl. now rewrite app_nil_r.
  - rewrite backoff_loop_unfold.
    pose proof (Hquiet (before_call a tr)) as Hs.
    assert (slept (before_call a tr) =
            slept tr ++ map delay (List.filter (fun a => negb (a =? 0)%nat) [a])) as Hbefore.
    { unfold before_call. destruct a as [|a]; simpl.
      - now rewrite app_nil_r.
      - now rewrite slept_app. }
    destruct (func (before_call a tr)) as [tr1 [v|e]]; simpl in Hs.
    + exists 1%nat. split; [simpl; lia|]. simpl fst. rewrite Hs, Hbefore.
      reflexivity.
    + destruct (is_psycopg2_Error e).
      * destruct (decide (a = max_retries)) as [Ha|Ha].
        -- exists 1%nat. split; [simpl; lia|]. simpl fst.
           rewrite slept_app, Hs, Hbefore. simpl. now rewrite app_nil_r.
        -- destruct (IH (tr1 ++ [EvLogException e])) as (k & Hk & Hsl).
           exists (S k). split; [simpl; lia|]. rewrite Hsl.
           rewrite slept_app, Hs, Hbefore. simpl slept at 2. rewrite app_nil_r.
           rewrite <- app_assoc, <- map_app. do 2 f_equal.
           simpl take. destruct a; reflexivity.
      * exists 1%nat. split; [simpl; lia|]. simpl fst. rewrite Hs, Hbefore.
        reflexivity.
Qed.

(** X7: around any function that does not sleep itself, the wrapper
    sleeps the delays of the retries 1, 2, ... in this order and stops at
    the tenth at the latest, however the calls turn out: never more than
    ten sleeps, never more than 1622 seconds in all. *)
Theorem backoff_sleeps_prefix (func : io json) (tr : trace) :
  (forall tr0, slept (fst (func tr0)) = slept tr0) ->
  exists n, (n <= 10)%nat /\
    slept (fst (backoff func tr)) = slept tr ++ map delay (seq 1 n) /\
    foldr Z.add 0 (map delay (seq 1 n)) <= 1622.
Proof.
  intros Hquiet.
  destruct (backoff_loop_sleeps func Hquiet (seq 0 (max_retries + 1)) tr) as (k & Hk & Hs).
  change (backoff_loop func (seq 0 (max_retries + 1)) tr) with (backoff func tr) in Hs.
  simpl length in Hk.
  exists (k - 1)%nat. split; [lia|]. rewrite Hs.
  assert (k = 0 \/ k = 1 \/ k = 2 \/ k = 3 \/ k = 4 \/ k = 5 \/ k = 6 \/ k = 7 \/ k = 8 \/
          k = 9 \/ k = 10 \/ k = 11)%nat as Hcases by lia.
  repeat (destruct Hcases as [->|Hcases]; [split; [reflexivity|vm_compute; discriminate]|]).
  subst k. split; [reflexivity|vm_compute; discriminate].
Qed.

Lemma backoff_sleeps_prefix_witness :
  exists n, (n <= 10)%nat /\
    slept (fst (backoff (raise (OperationalError "connection refused")) [])) =
      slept [] ++ map delay (seq 1 n) /\
    foldr Z.add 0 (map delay (seq 1 n)) <= 1622.
Proof.
  apply (backoff_sleeps_prefix (raise (OperationalError "connection refused")) []).
  intros tr0. reflexivity.
Defined.

(** ** What a run does and never does *)

Lemma emits_ret {A : Type} P (a : A) : emits P (mret a).
Proof. intros tr. exists []. simpl. rewrite app_nil_r. auto. Qed.

Lemma emits_raise {A : Type} P (e : exn) : emits P (@raise A e).
Proof. intros tr. exists []. simpl. rewrite app_nil_r. auto. Qed.

Lemma emits_lift {A : Type} P (r : result A) : emits P (lift r).
Proof. intros tr. exists []. simpl. rewrite app_nil_r. auto. Qed.

Lemma emits_emit (P : event -> Prop) (e : event) : P e -> emits P (emit e).
Proof. intros He tr. exists [e]. auto. Qed.

(** Sequencing, with what is known of the first action's result. *)
Lemma emits_bind_post {A B : Type} P (Q : A -> Prop) (c : io A) (k : A -> io B) :
  emits P c ->
  (forall tr tr1 a, c tr = (tr1, Ok a) -> Q a) ->
  (forall a, Q a -> emits P (k a)) ->
  emits P (c ≫= k).
Proof.
  intros Hc Hpost Hk tr. destruct (Hc tr) as (evs & H & Hall).
  unfold mbind, io_bind. destruct (c tr) as [tr1 [a|e]] eqn:Hrun; simpl in H; subst tr1.
  - destruct (Hk a (Hpost _ _ _ Hrun) (tr ++ evs)) as (evs2 & H2 & Hall2).
    exists (evs ++ evs2). rewrite H2, app_assoc. split; [reflexivity|].
    apply Forall_app. auto.
  - exists evs. auto.
Qed.

Lemma emits_bind {A B : Type} P (c : io A) (k : A -> io B) :
  emits P c -> (forall a, emits P (k a)) -> emits P (c ≫= k).
Proof.
  intros Hc Hk. apply emits_bind_post with (Q := fun _ => True); auto.
Qed.

Lemma emits_try_except {A : Type} P (c : io A) catches (handler : exn -> io A) :
  emits P c -> (forall e, emits P (handler e)) -> emits P (try_except c catches handler).
Proof.
  intros Hc Hh tr. destruct (Hc tr) as (evs & H & Hall).
  unfold try_except. destruct (c tr) as [tr1 [a|e]]; simpl in H; subst tr1.
  - exists evs. auto.
  - destruct (catches e); [|exists evs; auto].
    destruct (Hh e (tr ++ evs)) as (evs2 & H2 & Hall2).
    exists (evs ++ evs2). rewrite H2, app_assoc. split; [reflexivity|].
    apply Forall_app. auto.
Qed.

Lemma emits_weaken {A : Type} (P Q : event -> Prop) (c : io A) :
  (forall e, P e -> Q e) -> emits P c -> emits Q c.
Proof.
  intros HPQ Hc tr. destruct (Hc tr) as (evs & H & Hall). exists evs.
  split; [exact H|]. eapply Forall_impl; eauto.
Qed.

Lemma page_event_run_event ps e : page_event ps e -> run_event ps e.
Proof. destruct e; simpl; tauto. Qed.

Lemma page_event_quiet ps e : page_event ps e -> is_file_event e = false.
Proof. destruct e; simpl; tauto. Qed.

Lemma emits_save_state ps v : emits (run_event ps) (FileStorage.save_state v).
Proof.
  unfold FileStorage.save_state.
  apply emits_bind; [|intros _]; apply emits_emit; exact I.
Qed.

Lemma emits_retrieve_state ps env : emits (run_event ps) (FileStorage.retrieve_state env).
Proof.
  unfold FileStorage.retrieve_state. apply emits_try_except.
  - intros tr. exists []. simpl. rewrite app_nil_r. auto.
  - intros e. apply emits_ret.
Qed.

Lemma emits_set_state ps self key value : emits (run_event ps) (State.set_state self key value).
Proof.
  unfold State.set_state. destruct self; try apply emits_raise.
  apply emits_bind; [apply emits_save_state|intros; apply emits_ret].
Qed.

Lemma emits_get_state ps self key default :
  emits (run_event ps) (State.get_state self key default).
Proof. unfold State.get_state. destruct self; try apply emits_raise. apply emits_ret. Qed.

Lemma emits_clear_state ps self key : emits (run_event ps) (State.clear_state self key).
Proof.
  unfold State.clear_state. destruct self; try apply emits_raise.
  apply emits_bind; [apply emits_save_state|intros; apply emits_ret].
Qed.

Lemma emits_PostgreDb_init env connection ps t offset :
  emits (run_event ps) (PostgreDb.init env connection ps t offset).
Proof.
  unfold PostgreDb.init, scroll.
  apply emits_bind; [apply emits_emit; exact I|intros _].
  apply emits_bind; [apply emits_lift|intros n].
  apply emits_bind; [apply emits_lift|intros n'].
  apply emits_bind; [apply emits_emit; exact I|intros _]. apply emits_ret.
Qed.

Lemma PostgreDb_init_arraysize env connection ps t offset tr tr' c :
  PostgreDb.init env connection ps t offset tr = (tr', Ok c) -> arraysize c = ps.
Proof.
  unfold PostgreDb.init, scroll. intros H.
  apply bind_inv_ok in H as (tr1 & [] & _ & H).
  apply bind_inv_ok in H as (tr2 & n & _ & H).
  apply bind_inv_ok in H as (tr3 & n' & _ & H).
  apply bind_inv_ok in H as (tr4 & [] & _ & H).
  unfold mret, io_ret in H. inversion H. reflexivity.
Qed.

Lemma emits_read_data_next c : emits (page_event (arraysize c)) (PostgreDb.read_data_next c).
Proof.
  unfold PostgreDb.read_data_next, fetchmany.
  destruct (decide (cur_drop_at c = Some (cur_fetches c))) as [Hd|Hd].
  - apply emits_bind; [apply emits_raise|intros [c' data]].
    destruct data; [apply emits_ret|].
    apply emits_bind; [apply emits_lift|intros; apply emits_ret].
  - apply emits_bind.
    + apply emits_bind; [|intros; apply emits_ret].
      apply emits_emit. simpl. rewrite length_take. lia.
    + intros [c' data]. destruct data; [apply emits_ret|].
      apply emits_bind; [apply emits_lift|intros; apply emits_ret].
Qed.

Lemma read_data_next_arraysize c tr tr' c' item :
  PostgreDb.read_data_next c tr = (tr', Ok (c', item)) ->
  arraysize c' = arraysize c /\ (forall page, item = Some page -> page <> []).
Proof.
  unfold PostgreDb.read_data_next, fetchmany. intros H.
  destruct (decide (cur_drop_at c = Some (cur_fetches c))) as [Hd|Hd]; [discriminate|].
  apply bind_inv_ok in H as (tr1 & [c1 data] & H1 & H).
  apply bind_inv_ok in H1 as (tr2 & [] & H1 & H2).
  unfold mret, io_ret in H2. inversion H2; subst. clear H2.
  destruct (take (arraysize c) (remaining c)) as [|row rows] eqn:Hdata.
  - unfold mret, io_ret in H. inversion H; subst. split; [reflexivity|discriminate].
  - apply bind_inv_ok in H as (tr3 & docs & H3 & H).
    unfold mret, io_ret in H. inversion H; subst. clear H. split; [reflexivity|].
    intros page Hp. inversion Hp; subst.
    unfold lift in H3. inversion H3 as [[Htr Hv]].
    apply (validate_rows_length (row :: rows)) in Hv. intros ->. discriminate.
Qed.

(** With [raise_on_error] the helper hands back no failure: it raises. *)
Lemma streaming_bulk_returns_no_error env todo : forall success errors tr tr' n errs,
  streaming_bulk env true todo success errors tr = (tr', Ok (n, errs)) -> errs = errors.
Proof.
  induction todo as [|chunk rest IH]; intros success errors tr tr' n errs H.
  - simpl in H. unfold mret, io_ret in H. now inversion H.
  - rewrite streaming_bulk_unfold in H.
    destruct (List.filter (rejected env) chunk) as [|b bad] eqn:Hbad; simpl in H.
    + apply IH in H. now rewrite app_nil_r in H.
    + discriminate.
Qed.

Lemma emits_streaming_bulk ps env raise_on_error todo : forall success errors,
  Forall (fun chunk => page_event ps (EvBulk chunk)) todo ->
  emits (page_event ps) (streaming_bulk env raise_on_error todo success errors).
Proof.
  induction todo as [|chunk rest IH]; intros success errors Hall; simpl.
  - apply emits_ret.
  - inversion Hall as [|? ? Hc Hrest]; subst.
    apply emits_bind; [apply emits_emit; exact Hc|intros _].
    destruct (raise_on_error && _); [apply emits_raise|now apply IH].
Qed.

Lemma build_index_chunks ps data :
  Forall (fun chunk => page_event ps (EvBulk chunk)) (chunks 500 (EsDb.build_index data)).
Proof.
  pose proof (chunks_lengths 500 (EsDb.build_index data) ltac:(lia)) as Hlen.
  rewrite Forall_forall in *. intros chunk Hin. split; [now apply Hlen|].
  apply Forall_forall. intros a Ha.
  assert (a ∈ concat (chunks 500 (EsDb.build_index data))) as Hmem.
  { apply list_elem_of_In, in_concat. exists chunk.
    split; now apply list_elem_of_In. }
  rewrite concat_chunks in Hmem by lia. unfold EsDb.build_index in Hmem.
  apply list_elem_of_fmap in Hmem as (d & -> & _). reflexivity.
Qed.

Lemma emits_bulk_write ps env data : emits (page_event ps) (EsDb.bulk_write env data).
Proof.
  unfold EsDb.bulk_write, bulk.
  apply emits_bind_post with (Q := fun r : nat * list action => snd r = []).
  - apply emits_streaming_bulk, build_index_chunks.
  - intros tr tr1 [n errs] H. now apply streaming_bulk_returns_no_error in H.
  - intros [n errs] Hnil. simpl in Hnil. subst errs. apply emits_ret.
Qed.

Lemma emits_transfer env fuel : forall c state offset,
  emits (run_event (arraysize c)) (transfer env fuel c state offset).
Proof.
  induction fuel as [|fuel IH]; intros c state offset; simpl; [apply emits_raise|].
  apply emits_bind_post with
    (Q := fun r : cursor * option (list MoviesForEs) => arraysize (fst r) = arraysize c).
  - eapply emits_weaken; [apply page_event_run_event|apply emits_read_data_next].
  - intros tr tr1 [c' item] H. now apply read_data_next_arraysize in H.
  - intros [c' item] Hps. simpl in Hps. destruct item as [data|]; [|apply emits_ret].
    apply emits_bind;
      [eapply emits_weaken; [apply page_event_run_event|apply emits_bulk_write]|intros _].
    apply emits_bind; [apply emits_set_state|intros st].
    rewrite <- Hps. apply IH.
Qed.

Lemma emits_postgres_to_es env connection :
  emits (run_event (page_size_of env)) (postgres_to_es env connection).
Proof.
  unfold postgres_to_es, State.init, EsDb.init.
  apply emits_bind; [apply emits_retrieve_state|intros state].
  apply emits_bind; [apply emits_get_state|intros saved].
  apply emits_bind; [apply emits_lift|intros t].
  apply emits_bind; [apply emits_get_state|intros offset].
  apply emits_bind; [intros tr0; exists []; simpl; rewrite app_nil_r; auto|intros qt].
  apply emits_bind_post with (Q := fun c => arraysize c = page_size_of env).
  - apply emits_PostgreDb_init.
  - intros tr0 tr1 c H. now apply PostgreDb_init_arraysize in H.
  - intros c Hps.
    apply emits_bind; [apply emits_emit; exact I|intros _].
    apply emits_bind; [rewrite <- Hps; apply emits_transfer|intros [st off]].
    apply emits_bind; [apply emits_set_state|intros st'].
    apply emits_bind; [apply emits_clear_state|intros; apply emits_ret].
Qed.

Lemma run_events_quiet ps evs :
  Forall (run_event ps) evs ->
  slept evs = [] /\ connects evs = 0%nat /\ count is_log_error evs = 0%nat.
Proof.
  induction 1 as [|e evs He _ IH]; [repeat split|].
  destruct IH as (Hs & Hc & Hl).
  destruct e; simpl in He; try contradiction;
    (split; [exact Hs|split; [exact Hc|exact Hl]]).
Qed.

(** X8: whatever the files, the database and the index do, and however
    it ends, a run of [postgres_to_es] only fetches, sends and saves: no
    fetch returns more than the page size, every bulk request carries 1 to
    500 actions, all for the index [movies]; the run never sleeps, never
    connects, and never reaches the [logging.error] of [bulk_write]. *)
Theorem run_events_bounded (env : environment) (connection : option nat) (tr : trace) :
  exists evs,
    fst (postgres_to_es env connection tr) = tr ++ evs /\
    Forall (run_event (page_size_of env)) evs /\
    slept evs = [] /\
    connects evs = 0%nat /\
    count is_log_error evs = 0%nat.
Proof.
  destruct (emits_postgres_to_es env connection tr) as (evs & Hevs & Hall).
  exists evs. split; [exact Hevs|]. split; [exact Hall|].
  eapply run_events_quiet, Hall.
Qed.

(** ** The persisted offset follows the documents sent *)

Lemma streaming_bulk_ok_events env todo : forall success errors tr tr' r,
  streaming_bulk env true todo success errors tr = (tr', Ok r) ->
  tr' = tr ++ map EvBulk todo.
Proof.
  induction todo as [|chunk rest IH]; intros success errors tr tr' r H.
  - simpl in H. unfold mret, io_ret in H. inversion H. simpl. now rewrite app_nil_r.
  - rewrite streaming_bulk_unfold in H.
    destruct (List.filter (rejected env) chunk) as [|b bad]; simpl in H; [|discriminate].
    apply IH in H. rewrite H. now rewrite <- app_assoc.
Qed.

(** A [bulk_write] that returns has sent the whole page. *)
Lemma bulk_write_ok_inv env data tr tr' :
  EsDb.bulk_write env data tr = (tr', Ok tt) ->
  tr' = tr ++ map EvBulk (chunks 500 (EsDb.build_index data)).
Proof.
  unfold EsDb.bulk_write, bulk. intros H.
  apply bind_inv_ok in H as (tr1 & [n errs] & H1 & H).
  pose proof (streaming_bulk_returns_no_error _ _ _ _ _ _ _ _ H1) as ->.
  apply streaming_bulk_ok_events in H1. simpl in H. unfold mret, io_ret in H.
  inversion H; subst. reflexivity.
Qed.

Lemma checkpoints_follow_quiet o evs :
  Forall (fun e => is_file_event e = false) evs -> checkpoints_follow o evs.
Proof.
  intros Hq k v Hk. exfalso.
  rewrite Forall_forall in Hq.
  specialize (Hq (EvFileDump v) ltac:(eapply list_elem_of_lookup_2; eauto)).
  discriminate.
Qed.

Lemma checkpoints_follow_app o A B :
  checkpoints_follow o A ->
  checkpoints_follow (o + Z.of_nat (length (sent A))) B ->
  checkpoints_follow o (A ++ B).
Proof.
  intros HA HB k v Hk.
  destruct (Nat.lt_ge_cases k (length A)) as [Hlt|Hge].
  - rewrite lookup_app_l in Hk by exact Hlt.
    rewrite take_app_le by lia. now apply HA.
  - rewrite lookup_app_r in Hk by exact Hge.
    rewrite take_app_ge by exact Hge.
    destruct (HB _ _ Hk) as (m & -> & Hm). exists m. split; [reflexivity|].
    intros x Hx. rewrite (Hm x Hx). rewrite sent_app, length_app. f_equal. lia.
Qed.

Lemma checkpoints_follow_save o m1 :
  (forall x, m1 !! offset_key = Some x -> as_int x = Ok o) ->
  checkpoints_follow o [EvFileOpenW; EvFileDump (JDict m1)].
Proof.
  intros Hm k v Hk. destruct k as [|[|k]]; simpl in Hk; try discriminate.
  inversion Hk; subst. exists m1. split; [reflexivity|].
  intros x Hx. rewrite (Hm x Hx). simpl. now rewrite Z.add_0_r.
Qed.

Lemma emits_quiet_follow {A : Type} ps o (c : io A) tr :
  emits (page_event ps) c ->
  exists evs, fst (c tr) = tr ++ evs /\
    Forall (fun e => is_file_event e = false) evs /\ checkpoints_follow o evs.
Proof.
  intros Hc. destruct (Hc tr) as (evs & H & Hall). exists evs.
  assert (Forall (fun e => is_file_event e = false) evs) as Hq
    by (eapply Forall_impl; [exact Hall|apply page_event_quiet]).
  auto using checkpoints_follow_quiet.
Qed.

Lemma bind_inv {A B : Type} (c : io A) (k : A -> io B) tr tr' r :
  (c ≫= k) tr = (tr', r) ->
  (exists tr1 a, c tr = (tr1, Ok a) /\ k a tr1 = (tr', r)) \/
  (exists e, c tr = (tr', Raise e) /\ r = Raise e).
Proof.
  unfold mbind, io_bind. destruct (c tr) as [tr1 [a|e]]; intros H.
  - left. eauto.
  - right. inversion H; subst. eauto.
Qed.

Lemma emits_run {A : Type} P (c : io A) tr tr' r :
  emits P c -> c tr = (tr', r) -> exists evs, tr' = tr ++ evs /\ Forall P evs.
Proof. intros Hc H. destruct (Hc tr) as (evs & He & Hall). rewrite H in He. eauto. Qed.

Lemma page_events_quiet ps evs :
  Forall (page_event ps) evs -> Forall (fun e => is_file_event e = false) evs.
Proof. intros H. eapply Forall_impl; [exact H|apply page_event_quiet]. Qed.

Lemma transfer_unfold env fuel c state offset :
  transfer env (S fuel) c state offset =
  (PostgreDb.read_data_next c ≫= fun '(c', item) =>
     match item with
     | None => mret (state, offset)
     | Some data =>
         EsDb.bulk_write env data ≫= fun _ =>
         State.set_state state offset_key (JInt (offset + Z.of_nat (length data))) ≫=
         fun state' => transfer env fuel c' state' (offset + Z.of_nat (length data))
     end).
Proof. reflexivity. Qed.

(** The loop, however it ends: each checkpoint it writes carries the
    offset it started from plus the documents sent so far. *)
Lemma transfer_checkpoints env fuel : forall c m offset tr tr' r,
  transfer env fuel c (JDict m) offset tr = (tr', r) ->
  exists evs,
    tr' = tr ++ evs /\
    checkpoints_follow offset evs /\
    forall st offset',
      r = Ok (st, offset') ->
      offset' = offset + Z.of_nat (length (sent evs)) /\
      exists m', st = JDict m' /\
        ((m' = m /\ offset' = offset) \/ m' !! offset_key = Some (JInt offset')).
Proof.
  induction fuel as [|fuel IH]; intros c m offset tr tr' r H.
  - inversion H; subst. exists []. rewrite app_nil_r. split; [reflexivity|].
    split; [apply checkpoints_follow_quiet; constructor|discriminate].
  - rewrite transfer_unfold in H.
    apply bind_inv in H as [(tr1 & [c' item] & Hnext & H)|(e & Hnext & ->)].
    2:{ destruct (emits_run _ _ _ _ _ (emits_read_data_next c) Hnext) as (evs1 & -> & Hall).
        exists evs1. split; [reflexivity|]. split; [|discriminate].
        apply checkpoints_follow_quiet. eapply page_events_quiet, Hall. }
    apply read_data_next_ok_inv in Hnext as [n ->].
    destruct item as [data|].
    2:{ unfold mret, io_ret in H. inversion H; subst.
        exists [EvFetch n]. split; [reflexivity|].
        split; [apply checkpoints_follow_quiet; repeat constructor|].
        intros st offset' Hok. inversion Hok; subst.
        split; [simpl; lia|]. exists m. auto. }
    apply bind_inv in H as [(tr2 & [] & Hbulk & H)|(e & Hbulk & ->)].
    2:{ destruct (emits_run _ _ _ _ _ (emits_bulk_write (arraysize c) env data) Hbulk)
          as (evs2 & -> & Hall).
        exists ([EvFetch n] ++ evs2). split; [now rewrite <- app_assoc|].
        split; [|discriminate].
        apply checkpoints_follow_quiet. apply Forall_app.
        split; [repeat constructor|eapply page_events_quiet, Hall]. }
    apply bulk_write_ok_inv in Hbulk. subst tr2.
    apply bind_inv in H as [(tr3 & st3 & Hset & H)|(e & Hset & ->)].
    set (offset1 := offset + Z.of_nat (length data)) in *.
    set (m1 := <[offset_key := JInt offset1]> m) in *.
    2:{ exfalso. rewrite set_state_run in Hset. discriminate. }
    rewrite set_state_run in Hset. inversion Hset; subst tr3 st3.
    fold m1 in H. clear Hset.
    apply IH in H as (evs3 & -> & Hf3 & Hpost3).
    set (bulks := map EvBulk (chunks 500 (EsDb.build_index data))) in *.
    assert (sent ([EvFetch n] ++ bulks) = data) as Hsent.
    { unfold bulks. rewrite sent_app, sent_bulks, concat_chunks by lia.
      rewrite build_index_source. reflexivity. }
    exists ((([EvFetch n] ++ bulks) ++ [EvFileOpenW; EvFileDump (JDict m1)]) ++ evs3).
    split; [now repeat rewrite <- app_assoc|].
    assert (sent (([EvFetch n] ++ bulks) ++ [EvFileOpenW; EvFileDump (JDict m1)]) = data)
      as Hsent'.
    { rewrite sent_app, Hsent. unfold sent at 1. simpl. now rewrite app_nil_r. }
    split.
    + apply checkpoints_follow_app; [|now rewrite Hsent'].
      apply checkpoints_follow_app.
      * apply checkpoints_follow_quiet. apply Forall_app.
        split; [repeat constructor|apply bulks_quiet].
      * apply checkpoints_follow_save. intros x Hx.
        unfold m1 in Hx. rewrite lookup_insert_eq in Hx. inversion Hx; subst x.
        rewrite Hsent. reflexivity.
    + intros st offset' Hok. destruct (Hpost3 st offset' Hok) as (Hoff & m' & -> & Hcase).
      split.
      * rewrite Hoff, sent_app, length_app, Hsent'. unfold offset1. lia.
      * exists m'. split; [reflexivity|]. right.
        destruct Hcase as [[-> ->]|Hcase]; [|exact Hcase].
        unfold m1. apply lookup_insert_eq.
Qed.

Lemma run_body_checkpoints env c m z query_time tr tr' r :
  (forall x, m !! offset_key = Some x -> as_int x = Ok z) ->
  run_body env c (JDict m) z query_time tr = (tr', r) ->
  exists evs, tr' = tr ++ evs /\ checkpoints_follow z evs.
Proof.
  intros Hm H. unfold run_body, EsDb.init in H.
  apply bind_inv in H as [(tr1 & [] & Hinit & H)|(e & Hinit & ->)]; [|discriminate].
  unfold emit in Hinit. inversion Hinit; subst tr1. clear Hinit.
  apply bind_inv in H as [(tr2 & [st offset'] & Hloop & H)|(e & Hloop & ->)].
  2:{ apply transfer_checkpoints in Hloop as (evs & -> & Hf & _).
      exists ([EvEsInit] ++ evs). split; [now rewrite <- app_assoc|].
      apply checkpoints_follow_app; [apply checkpoints_follow_quiet; repeat constructor|].
      simpl. now rewrite Z.add_0_r. }
  apply transfer_checkpoints in Hloop as (evs & -> & Hf & Hpost).
  destruct (Hpost st offset' eq_refl) as (Hoff & m' & -> & Hcase).
  assert (forall x, m' !! offset_key = Some x -> as_int x = Ok offset') as Hm'.
  { destruct Hcase as [[-> ->]|Hcase]; [exact Hm|].
    intros x Hx. rewrite Hcase in Hx. inversion Hx. reflexivity. }
  assert (checkpoints_follow z ([EvEsInit] ++ evs)) as Hf1.
  { apply checkpoints_follow_app; [apply checkpoints_follow_quiet; repeat constructor|].
    simpl. now rewrite Z.add_0_r. }
  assert (length (sent ([EvEsInit] ++ evs)) = length (sent evs)) as Hsent
    by now rewrite sent_app.
  apply bind_inv in H as [(tr3 & st3 & Hset & H)|(e & Hset & ->)];
    rewrite set_state_run in Hset; [|discriminate].
  inversion Hset; subst tr3 st3. clear Hset.
  set (m1 := <[start_datetime_key := JStr (isoformat query_time)]> m') in *.
  assert (checkpoints_follow z
            (([EvEsInit] ++ evs) ++ [EvFileOpenW; EvFileDump (JDict m1)])) as Hf2.
  { apply checkpoints_follow_app; [exact Hf1|].
    apply checkpoints_follow_save. intros x Hx.
    unfold m1 in Hx. rewrite lookup_insert_ne in Hx by discriminate.
    rewrite (Hm' x Hx), Hsent. now rewrite Hoff. }
  apply bind_inv in H as [(tr4 & st4 & Hclear & H)|(e & Hclear & ->)];
    rewrite clear_state_run in Hclear; [|discriminate].
  inversion Hclear; subst tr4 st4. clear Hclear.
  unfold mret, io_ret in H. inversion H; subst.
  exists ((([EvEsInit] ++ evs) ++ [EvFileOpenW; EvFileDump (JDict m1)]) ++
          [EvFileOpenW; EvFileDump (JDict (delete offset_key m1))]).
  split; [now repeat rewrite <- app_assoc|].
  apply checkpoints_follow_app; [exact Hf2|].
  apply checkpoints_follow_save. intros x Hx.
  rewrite lookup_delete_eq in Hx. discriminate.
Qed.

(** X9: in every run that starts from a loadable checkpoint, however the
    run ends, each document saved to the file is a mapping, and when it
    carries [saved_rows] the value is the offset the run started from plus
    the number of documents handed to the index before that save: the
    persisted offset is never ahead of what was sent, nor behind a page
    that was saved. *)
Theorem checkpoint_follows_delivery (env : environment) (connection : option nat)
    (tr : trace) (t : datetime) (z : Z) :
  watermark (file_after (initial_file env) tr) = Ok (t, z) ->
  exists evs : list event,
    fst (postgres_to_es env connection tr) = tr ++ evs /\
    forall k v, evs !! k = Some (EvFileDump v) ->
      exists m, v = JDict m /\
        forall x, m !! offset_key = Some x ->
          as_int x = Ok (z + Z.of_nat (length (sent (take k evs)))).
Proof.
  intros Hw. destruct (watermark_loaded _ _ _ Hw) as [m Hm].
  destruct (decide (INT_MIN <= z <= INT_MAX)) as [Hr|Hr].
  2:{ rewrite (postgres_to_es_overflow _ _ _ _ _ Hw Hr). exists [EvExecute t].
      split; [reflexivity|]. intros [|k] v Hk; simpl in Hk; [|destruct k]; discriminate. }
  rewrite (postgres_to_es_start _ _ _ _ _ _ Hm Hw Hr).
  assert (forall x, m !! offset_key = Some x -> as_int x = Ok z) as Hz.
  { intros x Hx. unfold watermark in Hw. rewrite Hm in Hw.
    destruct (py_fromisoformat _); [|discriminate].
    rewrite Hx in Hw. simpl default_to in Hw.
    destruct (as_int x); inversion Hw. reflexivity. }
  match goal with |- context [run_body ?e ?c ?s ?o ?q ?t0] =>
    destruct (run_body_checkpoints e c m o q t0 _ _ Hz
                (surjective_pairing (run_body e c s o q t0))) as (evs & Hevs & Hf)
  end.
  exists ([EvExecute t; EvScroll z] ++ evs).
  split; [rewrite Hevs; now rewrite <- app_assoc|].
  change (checkpoints_follow z ([EvExecute t; EvScroll z] ++ evs)).
  apply checkpoints_follow_app; [apply checkpoints_follow_quiet; repeat constructor|].
  simpl. now rewrite Z.add_0_r.
Qed.

Lemma checkpoint_follows_delivery_witness :
  exists evs : list event,
    fst (postgres_to_es Scenario.picky None []) = [] ++ evs /\
    forall k v, evs !! k = Some (EvFileDump v) ->
      exists m, v = JDict m /\
        forall x, m !! offset_key = Some x ->
          as_int x = Ok (0 + Z.of_nat (length (sent (take k evs)))).
Proof.
  apply (checkpoint_follows_delivery Scenario.picky None [] dt_min 0).
  reflexivity.
Defined.


(** ** The loop page by page, up to the point where something fails *)

(** One step of the generator while the connection holds and the page
    validates. *)
Lemma read_data_next_step c page tr :
  cur_drop_at c <> Some (cur_fetches c) ->
  validate_rows (take (arraysize c) (remaining c)) = Ok page ->
  PostgreDb.read_data_next c tr =
    (tr ++ [EvFetch (length page)],
     Ok (mkCursor (cur_rows c) (cur_pos c + length page) (arraysize c)
           (S (cur_fetches c)) (cur_drop_at c),
         match page with [] => None | _ => Some page end)).
Proof.
  intros Hdrop Hpage.
  pose proof (validate_rows_length _ _ Hpage) as Hlen.
  unfold PostgreDb.read_data_next, fetchmany.
  destruct (decide (cur_drop_at c = Some (cur_fetches c))) as [Habs|_]; [contradiction|].
  unfold mbind, io_bind, emit, mret, io_ret, lift. simpl.
  rewrite <- Hlen.
  destruct (take (arraysize c) (remaining c)) as [|row data] eqn:Hdata.
  - simpl in Hpage. inversion Hpage. reflexivity.
  - rewrite Hpage. destruct page; [discriminate|reflexivity].
Qed.

(** [k] iterations of the loop over pages that validate and that the
    index accepts, on a connection that holds that long. *)
Lemma transfer_pages env : forall k fuel c m offset tr docs,
  (0 < arraysize c)%nat ->
  (k * arraysize c < length (remaining c) + arraysize c)%nat ->
  validate_rows (take (k * arraysize c) (remaining c)) = Ok docs ->
  (forall i, (i < k)%nat -> cur_drop_at c <> Some (cur_fetches c + i)%nat) ->
  Forall (fun d => es_rejects env d = false) docs ->
  transfer env (k + fuel) c (JDict m) offset tr =
  transfer env fuel
    (mkCursor (cur_rows c) (cur_pos c + length docs) (arraysize c)
       (cur_fetches c + k) (cur_drop_at c))
    (JDict (loop_map m offset (chunks (arraysize c) docs)))
    (offset + Z.of_nat (length docs))
    (tr ++ loop_events m offset (chunks (arraysize c) docs)).
Proof.
  induction k as [|k IH]; intros fuel c m offset tr docs Hps Hlen Hdocs Hdrop Hacc.
  - simpl in Hdocs. inversion Hdocs; subst docs. simpl.
    rewrite !Nat.add_0_r, Z.add_0_r, app_nil_r. now destruct c.
  - change (S k + fuel)%nat with (S (k + fuel)). rewrite transfer_unfold.
    set (ps := arraysize c) in *.
    assert (remaining c <> []) as Hrem.
    { intros Hnil. rewrite Hnil in Hlen. simpl in Hlen. lia. }
    assert (validate_rows (take ps (remaining c)) = Ok (take ps docs)) as Hpage.
    { rewrite <- (validate_rows_take _ ps _ Hdocs). rewrite take_take.
      f_equal. f_equal. simpl. lia. }
    pose proof (validate_rows_length _ _ Hpage) as Hplen.
    assert (docs <> []) as Hne.
    { intros ->. rewrite take_nil in Hplen. simpl in Hplen.
      symmetry in Hplen. apply length_zero_iff_nil in Hplen.
      revert Hplen. now apply take_nonempty. }
    assert (take ps docs <> []) as Hpne by now apply take_nonempty.
    rewrite (bind_ok _ _ _ _ _ (read_data_next_step c (take ps docs) tr
               ltac:(rewrite <- (Nat.add_0_r (cur_fetches c)); apply Hdrop; lia) Hpage)).
    destruct (take ps docs) as [|p page] eqn:Htake; [congruence|].
    rewrite <- Htake in *.
    erewrite bind_ok.
    2:{ apply bulk_write_accepts. apply Forall_take. exact Hacc. }
    erewrite bind_ok by apply set_state_run.
    rewrite (IH fuel _ _ _ _ (drop ps docs)); simpl arraysize; simpl cur_rows;
      simpl cur_pos; simpl cur_fetches; simpl cur_drop_at; fold ps.
    + rewrite (chunks_cons ps docs Hps Hne).
      simpl loop_events. simpl loop_map. unfold page_events.
      assert (length docs = length (take ps docs) + length (drop ps docs))%nat as Hsum
        by (rewrite <- length_app; now rewrite take_drop).
      f_equal.
      * f_equal; lia.
      * rewrite Hsum. lia.
      * repeat rewrite <- app_assoc. reflexivity.
    + exact Hps.
    + unfold remaining in *. simpl. rewrite length_drop in *.
      rewrite Hplen, length_take, length_drop. simpl in Hlen. lia.
    + unfold remaining in *. simpl.
      replace (drop (cur_pos c + length (take ps docs)) (cur_rows c))
        with (drop ps (drop (cur_pos c) (cur_rows c))).
      * rewrite take_drop_commute. apply validate_rows_drop.
        replace (ps + k * ps)%nat with (S k * ps)%nat by (simpl; lia). exact Hdocs.
      * rewrite drop_drop, Hplen, length_take.
        destruct (Nat.le_gt_cases ps (length (drop (cur_pos c) (cur_rows c)))) as [Hle|Hgt].
        -- now rewrite Nat.min_l.
        -- rewrite Nat.min_r by lia. rewrite length_drop in Hgt |- *.
           rewrite !drop_ge; [reflexivity|lia|lia].
    + intros i Hi. replace (S (cur_fetches c) + i)%nat with (cur_fetches c + S i)%nat by lia.
      apply Hdrop. lia.
    + apply Forall_drop. exact Hacc.
Qed.

(** The connection is lost at the next fetch: the loop ends there. *)
Lemma transfer_lost env fuel c state offset tr :
  cur_drop_at c = Some (cur_fetches c) ->
  transfer env (S fuel) c state offset tr =
    (tr, Raise (OperationalError "server closed the connection unexpectedly")).
Proof.
  intros Hdrop. rewrite transfer_unfold.
  unfold PostgreDb.read_data_next, fetchmany.
  destruct (decide (cur_drop_at c = Some (cur_fetches c))) as [_|Habs]; [|contradiction].
  reflexivity.
Qed.

(** The next page has a row that does not validate: the loop ends after
    the fetch. *)
Lemma transfer_invalid env fuel c state offset tr e :
  cur_drop_at c <> Some (cur_fetches c) ->
  validate_rows (take (arraysize c) (remaining c)) = Raise e ->
  transfer env (S fuel) c state offset tr =
    (tr ++ [EvFetch (length (take (arraysize c) (remaining c)))], Raise e).
Proof.
  intros Hdrop Hbad. rewrite transfer_unfold.
  unfold PostgreDb.read_data_next, fetchmany.
  destruct (decide (cur_drop_at c = Some (cur_fetches c))) as [Habs|_]; [contradiction|].
  unfold mbind, io_bind, emit, mret, io_ret, lift. simpl.
  destruct (take (arraysize c) (remaining c)) as [|row data] eqn:Hdata.
  - simpl in Hbad. discriminate.
  - rewrite Hbad. reflexivity.
Qed.


(** The file once the loop has checkpointed [pages]. *)
Lemma checkpoint_after_pages f m t z pages :
  loaded f = JDict m ->
  watermark f = Ok (t, z) ->
  loaded (file_after f (loop_events m z pages)) = JDict (loop_map m z pages) /\
  watermark (file_after f (loop_events m z pages)) =
    Ok (t, z + Z.of_nat (length (concat pages))).
Proof.
  intros Hm Hw. destruct pages as [|page rest].
  - simpl. rewrite Z.add_0_r. auto.
  - destruct (loop_events_last (page :: rest) m z ltac:(discriminate)) as [A' ->].
    rewrite file_after_ends_with_dump. split; [reflexivity|].
    apply watermark_loop_map with (f := f); auto.
Qed.

Lemma connects_app tr1 tr2 : connects (tr1 ++ tr2) = (connects tr1 + connects tr2)%nat.
Proof. unfold connects. now rewrite List.filter_app, length_app. Qed.

(** The number of pages a loop gets through is at most the number of
    rows. *)
Lemma pages_within_rows (k ps len : nat) :
  (0 < ps)%nat -> (k * ps < len + ps)%nat -> (k <= len)%nat.
Proof. intros Hps H. destruct k as [|k]; [lia|]. simpl in H. nia. Qed.

(** A run whose connection is lost at its fetch number [d]: the [d]
    pages before it are sent and checkpointed, and the error leaves the
    run. *)
Lemma run_until_lost env tr m t z d docs :
  loaded (file_after (initial_file env) tr) = JDict m ->
  watermark (file_after (initial_file env) tr) = Ok (t, z) ->
  INT_MIN <= z <= INT_MAX ->
  (0 < page_size_of env)%nat ->
  (d * page_size_of env <
     length (drop (Z.to_nat z) (table env t)) + page_size_of env)%nat ->
  validate_rows (take (d * page_size_of env) (drop (Z.to_nat z) (table env t))) = Ok docs ->
  Forall (fun x => es_rejects env x = false) docs ->
  postgres_to_es env (Some d) tr =
  (tr ++ [EvExecute t; EvScroll z; EvEsInit] ++
     loop_events m z (chunks (page_size_of env) docs),
   Raise (OperationalError "server closed the connection unexpectedly")).
Proof.
  intros Hm Hw Hr Hps Hlen Hdocs Hacc.
  rewrite (postgres_to_es_start _ _ _ _ _ _ Hm Hw Hr).
  unfold run_body, EsDb.init.
  rewrite (bind_ok _ _ _ ((tr ++ [EvExecute t; EvScroll z]) ++ [EvEsInit]) tt) by reflexivity.
  simpl cur_rows.
  pose proof (pages_within_rows _ _ _ Hps Hlen) as Hd.
  rewrite length_drop in Hd.
  replace (S (length (table env t))) with (d + S (length (table env t) - d))%nat by lia.
  erewrite bind_raise; [reflexivity|].
  rewrite (transfer_pages env d _ _ m z _ docs); simpl arraysize; auto.
  - rewrite transfer_lost by reflexivity.
    repeat rewrite <- app_assoc. reflexivity.
  - intros i Hi. simpl. intros Heq. inversion Heq. lia.
Qed.

(** A run that meets a page with an invalid row after [k] good pages:
    the good pages are sent and checkpointed, the bad page is fetched and
    nothing of it is sent. *)
Lemma run_until_invalid env tr m t z k docs e :
  loaded (file_after (initial_file env) tr) = JDict m ->
  watermark (file_after (initial_file env) tr) = Ok (t, z) ->
  INT_MIN <= z <= INT_MAX ->
  (0 < page_size_of env)%nat ->
  validate_rows (take (k * page_size_of env) (drop (Z.to_nat z) (table env t))) = Ok docs ->
  Forall (fun x => es_rejects env x = false) docs ->
  validate_rows (take (page_size_of env)
                   (drop (k * page_size_of env) (drop (Z.to_nat z) (table env t)))) =
    Raise e ->
  postgres_to_es env None tr =
  (tr ++ [EvExecute t; EvScroll z; EvEsInit] ++
     loop_events m z (chunks (page_size_of env) docs) ++
     [EvFetch (length (take (page_size_of env)
                         (drop (k * page_size_of env) (drop (Z.to_nat z) (table env t)))))],
   Raise e).
Proof.
  intros Hm Hw Hr Hps Hdocs Hacc Hbad.
  set (rows := drop (Z.to_nat z) (table env t)) in *.
  assert (k * page_size_of env < length rows)%nat as Hfull.
  { destruct (Nat.lt_ge_cases (k * page_size_of env) (length rows)) as [Hlt|Hge]; [exact Hlt|].
    rewrite drop_ge in Hbad by exact Hge. rewrite take_nil in Hbad. discriminate. }
  pose proof (validate_rows_length _ _ Hdocs) as Hlen.
  rewrite length_take, Nat.min_l in Hlen by lia.
  rewrite (postgres_to_es_start _ _ _ _ _ _ Hm Hw Hr).
  unfold run_body, EsDb.init.
  rewrite (bind_ok _ _ _ ((tr ++ [EvExecute t; EvScroll z]) ++ [EvEsInit]) tt) by reflexivity.
  simpl cur_rows.
  assert (k <= length (table env t))%nat as Hk.
  { subst rows. rewrite length_drop in Hfull. nia. }
  replace (S (length (table env t))) with (k + S (length (table env t) - k))%nat by lia.
  erewrite bind_raise; [reflexivity|].
  rewrite (transfer_pages env k _ _ m z _ docs); simpl arraysize; auto.
  - rewrite (transfer_invalid env _ _ _ _ _ e); simpl arraysize.
    + unfold remaining. simpl cur_rows. simpl cur_pos.
      rewrite Hlen, <- drop_drop. fold rows.
      repeat rewrite <- app_assoc. reflexivity.
    + discriminate.
    + unfold remaining. simpl cur_rows. simpl cur_pos.
      rewrite Hlen, <- drop_drop. exact Hbad.
  - unfold remaining. simpl. fold rows. lia.
Qed.

(** ** A connection lost during the run, and the retry *)

Lemma run_quiet env c tr tr' r :
  postgres_to_es env c tr = (tr', r) ->
  exists evs, tr' = tr ++ evs /\ slept evs = [] /\ connects evs = 0%nat.
Proof.
  intros H.
  destruct (emits_run _ _ _ _ _ (emits_postgres_to_es env c) H) as (evs & -> & Hall).
  exists evs. split; [reflexivity|].
  destruct (run_events_quiet _ _ Hall) as (Hs & Hc & _). auto.
Qed.

Lemma drop_length_take {A : Type} (n : nat) (l : list A) :
  drop (length (take n l)) l = drop n l.
Proof.
  rewrite length_take.
  destruct (Nat.le_gt_cases n (length l)) as [Hle|Hgt].
  - now rewrite Nat.min_l.
  - rewrite Nat.min_r by lia. rewrite !drop_ge; [reflexivity|lia|lia].
Qed.

(** X10: the first connection is lost at its fetch number [d], after
    [d] pages were fetched, sent and checkpointed, with offsets that stay
    within a C [int].  The fetch raises [OperationalError]; leaving the
    [with] block, the rollback on the closed connection raises
    [InterfaceError], and this is what the undecorated function raises,
    with those pages delivered and the offset of exactly those pages on
    file.  The decorated function logs it, sleeps 2 seconds, connects a
    second time, resumes behind the last checkpoint and returns: every
    document of the result set has then been sent exactly once, in
    order. *)
Theorem lost_connection_resumes (env : environment) (tr : trace) (t : datetime)
    (z : Z) (d : nat) (docs : list MoviesForEs) :
  watermark (file_after (initial_file env) tr) = Ok (t, z) ->
  0 <= z ->
  z + Z.of_nat (length docs) <= INT_MAX ->
  (0 < page_size_of env)%nat ->
  validate_rows (drop (Z.to_nat z) (table env t)) = Ok docs ->
  Forall (fun x => es_rejects env x = false) docs ->
  (d * page_size_of env < length docs + page_size_of env)%nat ->
  pg_plan env (connects tr) = Up (Some d) ->
  pg_plan env (S (connects tr)) = Up None ->
  exists tr1 tr',
    establish_connection_body env tr =
      (tr1, Raise (InterfaceError "connection already closed")) /\
    sent tr1 = sent tr ++ take (d * page_size_of env) docs /\
    watermark (file_after (initial_file env) tr1) =
      Ok (t, z + Z.of_nat (length (take (d * page_size_of env) docs))) /\
    establish_connection env tr = (tr', Ok JNull) /\
    sent tr' = sent tr ++ docs /\
    slept tr' = slept tr ++ [2] /\
    connects tr' = (connects tr + 2)%nat.
Proof.
  intros Hw Hz Hmax Hps Hdocs Hacc Hd Hplan1 Hplan2.
  destruct (watermark_loaded _ _ _ Hw) as [m Hm].
  assert (INT_MIN <= z <= INT_MAX) as Hr by (unfold INT_MIN; lia).
  set (ps := page_size_of env) in *.
  set (e0 := OperationalError "server closed the connection unexpectedly").
  set (e := InterfaceError "connection already closed").
  set (docs1 := take (d * ps) docs).
  set (pages1 := chunks ps docs1).
  pose proof (validate_rows_length _ _ Hdocs) as Hlen.
  pose proof (validate_rows_take _ (d * ps) _ Hdocs) as Hdocs1. fold docs1 in Hdocs1.
  assert (concat pages1 = docs1) as Hcat by (apply concat_chunks; exact Hps).
  (* the first run *)
  assert (file_after (initial_file env) (tr ++ [EvConnect]) =
          file_after (initial_file env) tr) as Hf0 by now rewrite file_after_app.
  pose proof (run_until_lost env (tr ++ [EvConnect]) m t z d docs1) as Hrun1.
  rewrite Hf0 in Hrun1. fold ps in Hrun1.
  specialize (Hrun1 Hm Hw Hr Hps ltac:(lia) Hdocs1 (Forall_take _ _ _ Hacc)).
  fold pages1 in Hrun1. fold e0 in Hrun1.
  destruct (run_quiet _ _ _ _ _ Hrun1) as (evs1 & Hevs1 & Hs1 & Hc1).
  apply app_inv_head in Hevs1.
  pose proof (establish_connection_body_run env tr _ _ _ Hplan1 Hrun1) as Hbody1.
  cbv beta iota in Hbody1. change (connection_exit e0) with e in Hbody1.
  set (tr1 := (tr ++ [EvConnect]) ++ [EvExecute t; EvScroll z; EvEsInit] ++
                loop_events m z pages1) in *.
  assert (file_after (initial_file env) tr1 =
          file_after (file_after (initial_file env) tr) (loop_events m z pages1)) as Hf1.
  { unfold tr1. now rewrite !file_after_app. }
  destruct (checkpoint_after_pages _ m t z pages1 Hm Hw) as [Hm1 Hw1].
  rewrite <- Hf1 in Hm1, Hw1. rewrite Hcat in Hw1.
  (* the second run *)
  set (tr2 := tr1 ++ [EvLogException e; EvSleep 2]).
  assert (connects tr1 = S (connects tr)) as Hct1.
  { unfold tr1. rewrite connects_app, Hevs1, Hc1, connects_app.
    change (connects [EvConnect]) with 1%nat. lia. }
  assert (connects tr2 = S (connects tr)) as Hct2.
  { unfold tr2. rewrite connects_app, Hct1.
    change (connects [EvLogException e; EvSleep 2]) with 0%nat. lia. }
  assert (file_after (initial_file env) (tr2 ++ [EvConnect]) =
          file_after (initial_file env) tr1) as Hf2.
  { unfold tr2. now rewrite !file_after_app. }
  assert (validate_rows (drop (Z.to_nat (z + Z.of_nat (length docs1))) (table env t)) =
            Ok (drop (length docs1) docs)) as Hdocs2.
  { rewrite Z2Nat.inj_add, Nat2Z.id by lia. rewrite <- drop_drop.
    now apply validate_rows_drop. }
  pose proof (run_from_checkpoint env (tr2 ++ [EvConnect]) (loop_map m z pages1) t
                (z + Z.of_nat (length docs1)) (drop (length docs1) docs)) as Hrun2.
  rewrite Hf2 in Hrun2.
  assert (INT_MIN <= z + Z.of_nat (length docs1) <= INT_MAX) as Hr2.
  { pose proof (length_take docs (d * ps)%nat) as Hl. fold docs1 in Hl.
    unfold INT_MIN. lia. }
  specialize (Hrun2 Hm1 Hw1 Hr2 Hps Hdocs2 (Forall_drop _ _ _ Hacc)).
  destruct (run_quiet _ _ _ _ _ Hrun2) as (evs2 & Hevs2 & Hs2 & Hc2).
  apply app_inv_head in Hevs2.
  assert (pg_plan env (connects tr2) = Up None) as Hplan2' by now rewrite Hct2.
  pose proof (establish_connection_body_run env tr2 _ _ _ Hplan2' Hrun2) as Hbody2.
  cbv beta iota in Hbody2.
  exists tr1. eexists.
  split; [exact Hbody1|].
  split.
  { unfold tr1. rewrite !sent_app, sent_loop_events, Hcat.
    change (sent [EvConnect]) with (@nil MoviesForEs).
    change (sent [EvExecute t; EvScroll z; EvEsInit]) with (@nil MoviesForEs).
    now rewrite app_nil_r. }
  split; [exact Hw1|].
  split.
  { unfold establish_connection.
    eapply backoff_retry_discards_result; [exact Hbody1|reflexivity|exact Hbody2]. }
  split.
  { rewrite sent_app, sent_app. unfold tr2. rewrite sent_app.
    unfold tr1 at 1. rewrite !sent_app, sent_loop_events, Hcat.
    rewrite sent_run_events, concat_chunks by exact Hps.
    change (sent [EvConnect]) with (@nil MoviesForEs).
    change (sent [EvExecute t; EvScroll z; EvEsInit]) with (@nil MoviesForEs).
    change (sent [EvLogException e; EvSleep 2]) with (@nil MoviesForEs).
    change (sent [EvExecute t; EvScroll (z + Z.of_nat (length docs1))])
      with (@nil MoviesForEs).
    simpl. rewrite !app_nil_r, <- app_assoc. f_equal.
    unfold docs1. rewrite drop_length_take. apply take_drop. }
  split.
  { rewrite slept_app, Hevs2, Hs2. unfold tr2. rewrite !slept_app.
    unfold tr1. rewrite slept_app, Hevs1, Hs1, slept_app.
    change (slept [EvConnect]) with (@nil Z).
    change (slept [EvLogException e; EvSleep 2]) with [2].
    now rewrite !app_nil_r. }
  rewrite connects_app, Hevs2, Hc2, connects_app, Hct2.
  change (connects [EvConnect]) with 1%nat. lia.
Qed.


Lemma lost_connection_resumes_witness :
  exists tr1 tr',
    establish_connection_body Scenario.flaky [] =
      (tr1, Raise (InterfaceError "connection already closed")) /\
    sent tr1 = sent [] ++ take (1 * page_size_of Scenario.flaky) Scenario.quiet_docs /\
    watermark (file_after (initial_file Scenario.flaky) tr1) =
      Ok (dt_min,
          0 + Z.of_nat (length (take (1 * page_size_of Scenario.flaky) Scenario.quiet_docs))) /\
    establish_connection Scenario.flaky [] = (tr', Ok JNull) /\
    sent tr' = sent [] ++ Scenario.quiet_docs /\
    slept tr' = slept [] ++ [2] /\
    connects tr' = (connects [] + 2)%nat.
Proof.
  apply (lost_connection_resumes Scenario.flaky [] dt_min 0 1 Scenario.quiet_docs).
  - vm_compute. reflexivity.
  - lia.
  - vm_compute. discriminate.
  - vm_compute. lia.
  - vm_compute. reflexivity.
  - apply Forall_forall. intros x _. reflexivity.
  - vm_compute. lia.
  - reflexivity.
  - reflexivity.
Defined.

(** ** A row that does not validate *)

(** X11: after [k] good pages the next page holds a row that does not
    validate, for instance one without [id] or [title]; the offsets stay
    within a C [int].  The run then ends with [ValidationError]: the [k]
    pages are sent and their offset is on file, the bad page is fetched
    and none of its rows is sent, not even the valid ones.  The process
    started again, over a database that answers, connects once, skips
    the [k] pages, fetches the same page and fails in the same way,
    without retry or sleep and without sending anything: the row blocks
    the transfer until it is repaired. *)
Theorem invalid_row_blocks_transfer (env : environment) (tr : trace) (t : datetime)
    (z : Z) (k : nat) (docs : list MoviesForEs) (e : exn) :
  watermark (file_after (initial_file env) tr) = Ok (t, z) ->
  0 <= z ->
  z + Z.of_nat (length docs) <= INT_MAX ->
  (0 < page_size_of env)%nat ->
  validate_rows (take (k * page_size_of env) (drop (Z.to_nat z) (table env t))) = Ok docs ->
  Forall (fun x => es_rejects env x = false) docs ->
  validate_rows (take (page_size_of env)
                   (drop (k * page_size_of env) (drop (Z.to_nat z) (table env t)))) =
    Raise e ->
  exists tr' n,
    postgres_to_es env None tr = (tr', Raise e) /\
    e = ValidationError /\
    length docs = (k * page_size_of env)%nat /\
    (0 < n <= page_size_of env)%nat /\
    sent tr' = sent tr ++ docs /\
    watermark (file_after (initial_file env) tr') = Ok (t, z + Z.of_nat (length docs)) /\
    (pg_plan env (connects tr') = Up None ->
     establish_connection env tr' =
       (tr' ++ [EvConnect; EvExecute t; EvScroll (z + Z.of_nat (length docs));
                EvEsInit; EvFetch n],
        Raise e)).
Proof.
  intros Hw Hz Hmax Hps Hdocs Hacc Hbad.
  destruct (watermark_loaded _ _ _ Hw) as [m Hm].
  assert (INT_MIN <= z <= INT_MAX) as Hr by (unfold INT_MIN; lia).
  assert (INT_MIN <= z + Z.of_nat (length docs) <= INT_MAX) as Hr2
    by (unfold INT_MIN; lia).
  set (ps := page_size_of env) in *.
  set (rows := drop (Z.to_nat z) (table env t)) in *.
  set (pages := chunks ps docs).
  set (n := length (take ps (drop (k * ps) rows))).
  assert (concat pages = docs) as Hcat by (apply concat_chunks; exact Hps).
  assert (k * ps < length rows)%nat as Hfull.
  { destruct (Nat.lt_ge_cases (k * ps) (length rows)) as [Hlt|Hge]; [exact Hlt|].
    rewrite drop_ge in Hbad by exact Hge. rewrite take_nil in Hbad. discriminate. }
  pose proof (validate_rows_length _ _ Hdocs) as Hlen.
  rewrite length_take, Nat.min_l in Hlen by lia.
  pose proof (run_until_invalid env tr m t z k docs e Hm Hw Hr Hps Hdocs Hacc Hbad) as Hrun.
  fold ps rows pages n in Hrun.
  set (tr' := tr ++ [EvExecute t; EvScroll z; EvEsInit] ++
                loop_events m z pages ++ [EvFetch n]) in *.
  destruct (checkpoint_after_pages _ m t z pages Hm Hw) as [Hm1 Hw1].
  rewrite Hcat in Hw1.
  assert (file_after (initial_file env) tr' =
          file_after (file_after (initial_file env) tr) (loop_events m z pages)) as Hf1.
  { unfold tr'. now rewrite !file_after_app. }
  rewrite <- Hf1 in Hm1, Hw1.
  exists tr', n.
  split; [exact Hrun|].
  split; [eapply validate_rows_raises, Hbad|].
  split; [exact Hlen|].
  split.
  { unfold n. rewrite length_take, length_drop. lia. }
  split.
  { unfold tr'. rewrite !sent_app, sent_loop_events, Hcat.
    change (sent [EvExecute t; EvScroll z; EvEsInit]) with (@nil MoviesForEs).
    change (sent [EvFetch n]) with (@nil MoviesForEs).
    simpl. now rewrite app_nil_r. }
  split; [exact Hw1|].
  intros Hplan.
  assert (file_after (initial_file env) (tr' ++ [EvConnect]) =
          file_after (initial_file env) tr') as Hf2 by now rewrite file_after_app.
  pose proof (run_until_invalid env (tr' ++ [EvConnect]) (loop_map m z pages) t
                (z + Z.of_nat (length docs)) 0 [] e) as Hrun2.
  rewrite Hf2 in Hrun2. fold ps in Hrun2.
  assert (drop (Z.to_nat (z + Z.of_nat (length docs))) (table env t) = drop (k * ps) rows)
    as Hrows.
  { rewrite Z2Nat.inj_add, Nat2Z.id by lia. unfold rows. now rewrite drop_drop, Hlen. }
  rewrite Hrows in Hrun2. simpl take in Hrun2. simpl drop in Hrun2.
  specialize (Hrun2 Hm1 Hw1 Hr2 Hps eq_refl ltac:(constructor) Hbad).
  fold n in Hrun2.
  pose proof (establish_connection_body_run env tr' _ _ _ Hplan Hrun2) as Hbody.
  cbv beta iota in Hbody.
  assert (connection_exit e = e) as Hexit
    by (rewrite (validate_rows_raises _ _ Hbad); reflexivity).
  rewrite Hexit in Hbody.
  unfold establish_connection, backoff. simpl seq.
  erewrite backoff_loop_other; [|exact Hbody|].
  - rewrite <- app_assoc. reflexivity.
  - rewrite (validate_rows_raises _ _ Hbad). reflexivity.
Qed.

Lemma invalid_row_blocks_transfer_witness :
  exists tr' n,
    postgres_to_es Breaks.spoiled None [] = (tr', Raise ValidationError) /\
    ValidationError = ValidationError /\
    length (take 100 Scenario.quiet_docs) = (1 * page_size_of Breaks.spoiled)%nat /\
    (0 < n <= page_size_of Breaks.spoiled)%nat /\
    sent tr' = sent [] ++ take 100 Scenario.quiet_docs /\
    watermark (file_after (initial_file Breaks.spoiled) tr') =
      Ok (dt_min, 0 + Z.of_nat (length (take 100 Scenario.quiet_docs))) /\
    (pg_plan Breaks.spoiled (connects tr') = Up None ->
     establish_connection Breaks.spoiled tr' =
       (tr' ++ [EvConnect; EvExecute dt_min;
                EvScroll (0 + Z.of_nat (length (take 100 Scenario.quiet_docs)));
                EvEsInit; EvFetch n],
        Raise ValidationError)).
Proof.
  apply (invalid_row_blocks_transfer Breaks.spoiled [] dt_min 0 1
           (take 100 Scenario.quiet_docs) ValidationError).
  - vm_compute. reflexivity.
  - lia.
  - vm_compute. discriminate.
  - vm_compute. lia.
  - vm_compute. reflexivity.
  - apply Forall_forall. intros x _. reflexivity.
  - vm_compute. reflexivity.
Defined.


(** ** Connections refused at first *)

Lemma body_refused env tr msg :
  pg_plan env (connects tr) = Refused msg ->
  establish_connection_body env tr = (tr ++ [EvConnect], Raise (OperationalError msg)).
Proof.
  intros Hp. unfold establish_connection_body, connect, mbind, io_bind. now rewrite Hp.
Qed.

(** Connect and run on a database that answers, from a loadable
    checkpoint, over rows that validate and that the index accepts. *)
Lemma body_completes env tr t z docs :
  watermark (file_after (initial_file env) tr) = Ok (t, z) ->
  INT_MIN <= z <= INT_MAX ->
  (0 < page_size_of env)%nat ->
  validate_rows (drop (Z.to_nat z) (table env t)) = Ok docs ->
  Forall (fun x => es_rejects env x = false) docs ->
  pg_plan env (connects tr) = Up None ->
  exists tr',
    establish_connection_body env tr = (tr', Ok JNull) /\
    sent tr' = sent tr ++ docs /\
    slept tr' = slept tr /\
    connects tr' = S (connects tr).
Proof.
  intros Hw Hr Hps Hdocs Hacc Hplan.
  destruct (watermark_loaded _ _ _ Hw) as [m Hm].
  assert (file_after (initial_file env) (tr ++ [EvConnect]) =
          file_after (initial_file env) tr) as Hf by now rewrite file_after_app.
  pose proof (run_from_checkpoint env (tr ++ [EvConnect]) m t z docs) as Hrun.
  rewrite Hf in Hrun. specialize (Hrun Hm Hw Hr Hps Hdocs Hacc).
  destruct (run_quiet _ _ _ _ _ Hrun) as (evs & Hevs & Hs & Hc).
  apply app_inv_head in Hevs.
  pose proof (establish_connection_body_run env tr _ _ _ Hplan Hrun) as Hbody.
  cbv beta iota in Hbody.
  eexists. split; [exact Hbody|]. split; [|split].
  - rewrite !sent_app, sent_run_events, concat_chunks by exact Hps.
    change (sent [EvConnect]) with (@nil MoviesForEs).
    change (sent [EvExecute t; EvScroll z]) with (@nil MoviesForEs).
    simpl. now rewrite app_nil_r.
  - rewrite slept_app, Hevs, Hs, slept_app.
    change (slept [EvConnect]) with (@nil Z). now rewrite !app_nil_r.
  - rewrite connects_app, Hevs, Hc, connects_app.
    change (connects [EvConnect]) with 1%nat. lia.
Qed.

(** [j] refused connections in a row, from retry [a] on: each one is
    slept for, tried and logged. *)
Lemma backoff_loop_refusals env : forall j a r tr,
  (1 <= a)%nat ->
  (a + j + r = 10)%nat ->
  (forall i, (i < j)%nat -> exists msg, pg_plan env (connects tr + i) = Refused msg) ->
  exists tr_j,
    backoff_loop (establish_connection_body env) (seq a (j + S r)) tr =
    backoff_loop (establish_connection_body env) (seq (a + j) (S r)) tr_j /\
    slept tr_j = slept tr ++ map delay (seq a j) /\
    connects tr_j = (connects tr + j)%nat /\
    sent tr_j = sent tr /\
    forall f, file_after f tr_j = file_after f tr.
Proof.
  induction j as [|j IH]; intros a r tr Ha Hsum Href.
  - exists tr. rewrite !Nat.add_0_r. simpl. rewrite app_nil_r. auto.
  - destruct (Href 0%nat ltac:(lia)) as [msg Hmsg]. rewrite Nat.add_0_r in Hmsg.
    assert (before_call a tr = tr ++ [EvSleep (delay a)]) as Hbefore.
    { unfold before_call. destruct (decide (a = 0%nat)); [lia|reflexivity]. }
    assert (connects (tr ++ [EvSleep (delay a)]) = connects tr) as Hc.
    { rewrite connects_app. change (connects [EvSleep (delay a)]) with 0%nat. lia. }
    set (e := OperationalError msg).
    set (tr1 := ((tr ++ [EvSleep (delay a)]) ++ [EvConnect]) ++ [EvLogException e]).
    assert (connects tr1 = S (connects tr)) as Hc1.
    { unfold tr1. rewrite !connects_app.
      change (connects [EvSleep (delay a)]) with 0%nat.
      change (connects [EvConnect]) with 1%nat.
      change (connects [EvLogException e]) with 0%nat. lia. }
    destruct (IH (S a) r tr1 ltac:(lia) ltac:(lia)) as (tr_j & Hloop & Hs & Hcj & Hsent & Hfile).
    { intros i Hi. rewrite Hc1.
      replace (S (connects tr) + i)%nat with (connects tr + S i)%nat by lia.
      apply Href. lia. }
    exists tr_j. split; [|split; [|split; [|split]]].
    + replace (a + S j)%nat with (S a + j)%nat by lia.
      change (seq a (S j + S r)) with (a :: seq (S a) (j + S r)).
      rewrite (backoff_loop_retry (establish_connection_body env) a _ tr
                 ((tr ++ [EvSleep (delay a)]) ++ [EvConnect]) e).
      * exact Hloop.
      * rewrite Hbefore. apply body_refused. now rewrite Hc.
      * reflexivity.
      * unfold max_retries. lia.
    + rewrite Hs. unfold tr1. rewrite !slept_app.
      change (slept [EvSleep (delay a)]) with [delay a].
      change (slept [EvConnect]) with (@nil Z).
      change (slept [EvLogException e]) with (@nil Z).
      cbn [seq map]. rewrite !app_nil_r, <- app_assoc. reflexivity.
    + rewrite Hcj, Hc1. lia.
    + rewrite Hsent. unfold tr1. rewrite !sent_app.
      change (sent [EvSleep (delay a)]) with (@nil MoviesForEs).
      change (sent [EvConnect]) with (@nil MoviesForEs).
      change (sent [EvLogException e]) with (@nil MoviesForEs).
      now rewrite !app_nil_r.
    + intros f. rewrite Hfile. unfold tr1. now rewrite !file_after_app.
Qed.

(** X12: the database refuses the first [j] connections, [j <= 10], and
    then answers; the checkpoint's offset is a C [int].  The decorated
    function sleeps before the retries 1 to [j], the delays
    [min(600, 2 * 2^(k-1))] in order, connects [j + 1] times in all, runs
    the transfer once and returns: every document is sent exactly once,
    and no refusal reaches the caller. *)
Theorem refused_connections_retried (env : environment) (tr : trace) (t : datetime)
    (z : Z) (docs : list MoviesForEs) (j : nat) :
  watermark (file_after (initial_file env) tr) = Ok (t, z) ->
  INT_MIN <= z <= INT_MAX ->
  (0 < page_size_of env)%nat ->
  validate_rows (drop (Z.to_nat z) (table env t)) = Ok docs ->
  Forall (fun x => es_rejects env x = false) docs ->
  (j <= 10)%nat ->
  (forall i, (i < j)%nat -> exists msg, pg_plan env (connects tr + i) = Refused msg) ->
  pg_plan env (connects tr + j) = Up None ->
  exists tr',
    establish_connection env tr = (tr', Ok JNull) /\
    slept tr' = slept tr ++ map delay (seq 1 j) /\
    connects tr' = (connects tr + j + 1)%nat /\
    sent tr' = sent tr ++ docs.
Proof.
  intros Hw Hr Hps Hdocs Hacc Hj Href Hup.
  unfold establish_connection, backoff.
  change (seq 0 (max_retries + 1)) with (0%nat :: seq 1 10).
  destruct j as [|j].
  - rewrite Nat.add_0_r in Hup.
    destruct (body_completes env tr t z docs Hw Hr Hps Hdocs Hacc Hup)
      as (tr' & Hbody & Hsent & Hs & Hc).
    exists tr'. split; [|split; [|split]].
    + eapply backoff_loop_ok. exact Hbody.
    + rewrite Hs. simpl. now rewrite app_nil_r.
    + rewrite Hc. lia.
    + exact Hsent.
  - destruct (Href 0%nat ltac:(lia)) as [msg Hmsg]. rewrite Nat.add_0_r in Hmsg.
    set (e := OperationalError msg).
    set (tr1 := (tr ++ [EvConnect]) ++ [EvLogException e]).
    assert (connects tr1 = S (connects tr)) as Hc1.
    { unfold tr1. rewrite !connects_app.
      change (connects [EvConnect]) with 1%nat.
      change (connects [EvLogException e]) with 0%nat. lia. }
    destruct (backoff_loop_refusals env j 1 (9 - j) tr1 ltac:(lia) ltac:(lia))
      as (tr_j & Hloop & Hs & Hcj & Hsent & Hfile).
    { intros i Hi. rewrite Hc1.
      replace (S (connects tr) + i)%nat with (connects tr + S i)%nat by lia.
      apply Href. lia. }
    set (tr2 := tr_j ++ [EvSleep (delay (S j))]).
    assert (watermark (file_after (initial_file env) tr2) = Ok (t, z)) as Hw2.
    { unfold tr2. rewrite file_after_app. simpl. rewrite Hfile. unfold tr1.
      rewrite !file_after_app. exact Hw. }
    assert (pg_plan env (connects tr2) = Up None) as Hup2.
    { unfold tr2. rewrite connects_app, Hcj, Hc1.
      change (connects [EvSleep (delay (S j))]) with 0%nat.
      replace (S (connects tr) + j + 0)%nat with (connects tr + S j)%nat by lia.
      exact Hup. }
    destruct (body_completes env tr2 t z docs Hw2 Hr Hps Hdocs Hacc Hup2)
      as (tr' & Hbody & Hsent' & Hs' & Hc').
    exists tr'. split; [|split; [|split]].
    + erewrite backoff_loop_retry; [| apply body_refused; exact Hmsg | reflexivity
                                    | unfold max_retries; lia].
      change (before_call 0 tr) with tr. fold e. fold tr1.
      replace (seq 1 10) with (seq 1 (j + S (9 - j))) by (f_equal; lia).
      rewrite Hloop. eapply backoff_loop_ok.
      unfold before_call. simpl. exact Hbody.
    + rewrite Hs'. unfold tr2. rewrite slept_app, Hs. unfold tr1. rewrite !slept_app.
      change (slept [EvConnect]) with (@nil Z).
      change (slept [EvLogException e]) with (@nil Z).
      change (slept [EvSleep (delay (S j))]) with [delay (S j)].
      rewrite seq_S, map_app. rewrite !app_nil_r, <- app_assoc. reflexivity.
    + rewrite Hc'. unfold tr2. rewrite connects_app, Hcj, Hc1.
      change (connects [EvSleep (delay (S j))]) with 0%nat. lia.
    + rewrite Hsent'. unfold tr2. rewrite sent_app, Hsent. unfold tr1. rewrite !sent_app.
      change (sent [EvConnect]) with (@nil MoviesForEs).
      change (sent [EvLogException e]) with (@nil MoviesForEs).
      change (sent [EvSleep (delay (S j))]) with (@nil MoviesForEs).
      now rewrite !app_nil_r.
Qed.

Lemma refused_connections_retried_witness :
  exists tr',
    establish_connection Breaks.waking [] = (tr', Ok JNull) /\
    slept tr' = slept [] ++ map delay (seq 1 3) /\
    connects tr' = (connects [] + 3 + 1)%nat /\
    sent tr' = sent [] ++ Scenario.quiet_docs.
Proof.
  apply (refused_connections_retried Breaks.waking [] dt_min 0 Scenario.quiet_docs 3).
  - vm_compute. reflexivity.
  - unfold INT_MIN, INT_MAX. lia.
  - vm_compute. lia.
  - vm_compute. reflexivity.
  - apply Forall_forall. intros x _. reflexivity.
  - lia.
  - intros i Hi. exists "the database system is starting up"%string.
    destruct i as [|[|[|i]]]; [reflexivity|reflexivity|reflexivity|lia].
  - reflexivity.
Defined.


(** ** etl_fill.py: the stricter [retrieve_state] *)



(** ** How far the decorated function goes *)

(** The loop over the attempts [a, a+1, ..., 10] around a function that
    connects once per call and does not sleep itself. *)
Lemma backoff_loop_calls (func : io json) :
  (forall tr0, slept (fst (func tr0)) = slept tr0 /\
               connects (fst (func tr0)) = S (connects tr0)) ->
  forall n a tr,
    (a + S n = 11)%nat ->
    exists k, (1 <= k <= S n)%nat /\
      connects (fst (backoff_loop func (seq a (S n)) tr)) = (connects tr + k)%nat /\
      slept (fst (backoff_loop func (seq a (S n)) tr)) =
        slept tr ++ map delay (List.filter (fun x => negb (x =? 0)%nat) (seq a k)) /\
      (forall e, snd (backoff_loop func (seq a (S n)) tr) = Raise e ->
                 is_psycopg2_Error e = true -> k = S n).
Proof.
  intros Hfunc. induction n as [|n IH]; intros a tr Ha.
  - assert (a = max_retries) as -> by (unfold max_retries; lia).
    cbn [seq]. rewrite backoff_loop_unfold.
    destruct (Hfunc (before_call max_retries tr)) as [Hs Hc].
    assert (slept (before_call max_retries tr) = slept tr ++ [delay max_retries]) as Hsb
      by (unfold before_call; simpl; now rewrite slept_app).
    assert (connects (before_call max_retries tr) = connects tr) as Hcb.
    { unfold before_call. simpl. rewrite connects_app.
      change (connects [EvSleep (delay max_retries)]) with 0%nat. lia. }
    exists 1%nat. split; [lia|].
    destruct (func (before_call max_retries tr)) as [tr1 [v|e]]; simpl in Hs, Hc.
    + simpl fst. simpl snd. rewrite Hs, Hc, Hsb, Hcb.
      split; [lia|]. split; [reflexivity|discriminate].
    + destruct (is_psycopg2_Error e) eqn:He.
      * destruct (decide (max_retries = max_retries)) as [_|Habs]; [|contradiction].
        simpl fst. rewrite connects_app, slept_app, Hs, Hc, Hsb, Hcb.
        change (connects [EvLogException e]) with 0%nat.
        change (slept [EvLogException e]) with (@nil Z).
        split; [lia|]. split; [now rewrite app_nil_r|reflexivity].
      * simpl fst. simpl snd. rewrite Hs, Hc, Hsb, Hcb.
        split; [lia|]. split; [reflexivity|].
        intros e' H He'. inversion H; subst. congruence.
  - change (seq a (S (S n))) with (a :: seq (S a) (S n)).
    rewrite backoff_loop_unfold.
    destruct (Hfunc (before_call a tr)) as [Hs Hc].
    assert (slept (before_call a tr) =
            slept tr ++ map delay (List.filter (fun x => negb (x =? 0)%nat) [a])) as Hsb.
    { unfold before_call. destruct a as [|a]; simpl.
      - now rewrite app_nil_r.
      - now rewrite slept_app. }
    assert (connects (before_call a tr) = connects tr) as Hcb.
    { unfold before_call. destruct (decide (a = 0%nat)); [reflexivity|].
      rewrite connects_app. change (connects [EvSleep (delay a)]) with 0%nat. lia. }
    destruct (func (before_call a tr)) as [tr1 [v|e]]; simpl in Hs, Hc.
    + exists 1%nat. simpl fst. simpl snd. rewrite Hs, Hc, Hsb, Hcb.
      split; [lia|]. split; [lia|]. split; [reflexivity|discriminate].
    + destruct (is_psycopg2_Error e) eqn:He.
      * destruct (decide (a = max_retries)) as [Habs|_]; [unfold max_retries in Habs; lia|].
        destruct (IH (S a) (tr1 ++ [EvLogException e]) ltac:(lia))
          as (k & Hk & Hck & Hsk & Hgive).
        exists (S k). split; [lia|]. rewrite Hck, Hsk.
        rewrite connects_app, slept_app, Hs, Hc, Hsb, Hcb.
        change (connects [EvLogException e]) with 0%nat.
        change (slept [EvLogException e]) with (@nil Z).
        split; [lia|]. split.
        -- rewrite app_nil_r, <- app_assoc, <- map_app. do 2 f_equal.
           cbn [seq]. destruct a; reflexivity.
        -- intros e' H He'. f_equal. eapply Hgive; eauto.
      * exists 1%nat. simpl fst. simpl snd. rewrite Hs, Hc, Hsb, Hcb.
        split; [lia|]. split; [lia|]. split; [reflexivity|].
        intros e' H He'. inversion H; subst. congruence.
Qed.

Lemma body_connects_once env tr0 :
  slept (fst (establish_connection_body env tr0)) = slept tr0 /\
  connects (fst (establish_connection_body env tr0)) = S (connects tr0).
Proof.
  destruct (pg_plan env (connects tr0)) as [msg|c] eqn:Hp.
  - rewrite (body_refused env tr0 msg Hp). simpl fst.
    rewrite slept_app, connects_app.
    change (slept [EvConnect]) with (@nil Z).
    change (connects [EvConnect]) with 1%nat.
    rewrite app_nil_r. split; [reflexivity|lia].
  - destruct (postgres_to_es env c (tr0 ++ [EvConnect])) as [tr1 r] eqn:Hrun.
    rewrite (establish_connection_body_run env tr0 c tr1 r Hp Hrun). simpl fst.
    destruct (run_quiet _ _ _ _ _ Hrun) as (evs & -> & Hs & Hc).
    rewrite !slept_app, !connects_app, Hs, Hc.
    change (slept [EvConnect]) with (@nil Z).
    change (connects [EvConnect]) with 1%nat.
    rewrite !app_nil_r. split; [reflexivity|lia].
Qed.

(** X14: whatever the database, the index and the file do, the
    decorated [establish_connection] opens one connection per attempt,
    between 1 and 11 in all, and sleeps before each attempt but the
    first, the delays of the retries in order; a [psycopg2.Error]
    reaches the caller only after the eleventh connection. *)
Theorem establish_connection_effort (env : environment) (tr : trace) :
  exists k, (1 <= k <= 11)%nat /\
    connects (fst (establish_connection env tr)) = (connects tr + k)%nat /\
    slept (fst (establish_connection env tr)) = slept tr ++ map delay (seq 1 (k - 1)) /\
    (forall e, snd (establish_connection env tr) = Raise e ->
               is_psycopg2_Error e = true -> k = 11%nat).
Proof.
  destruct (backoff_loop_calls (establish_connection_body env) (body_connects_once env)
              10 0 tr eq_refl) as (k & Hk & Hc & Hs & Hgive).
  change (backoff_loop (establish_connection_body env) (seq 0 11) tr)
    with (establish_connection env tr) in *.
  exists k. split; [exact Hk|]. split; [exact Hc|]. split; [|exact Hgive].
  rewrite Hs. do 2 f_equal.
  assert (k = 1 \/ k = 2 \/ k = 3 \/ k = 4 \/ k = 5 \/ k = 6 \/ k = 7 \/ k = 8 \/
          k = 9 \/ k = 10 \/ k = 11)%nat as Hcases by lia.
  repeat (destruct Hcases as [->|Hcases]; [reflexivity|]).
  subst k. reflexivity.
Qed.


(** ** loaders.py: what [bulk_write] delivers *)

Lemma streaming_bulk_sends_prefix env raise_on_error todo : forall success errors tr,
  exists i, fst (streaming_bulk env raise_on_error todo success errors tr) =
            tr ++ map EvBulk (take i todo).
Proof.
  induction todo as [|chunk rest IH]; intros success errors tr.
  - exists 0%nat. simpl. now rewrite app_nil_r.
  - rewrite streaming_bulk_unfold.
    destruct (raise_on_error && _).
    + exists 1%nat. reflexivity.
    + destruct (IH (success + (length chunk - length (List.filter (rejected env) chunk)))%nat
                  (errors ++ List.filter (rejected env) chunk) (tr ++ [EvBulk chunk]))
        as [i Hi].
      exists (S i). rewrite Hi, <- app_assoc. reflexivity.
Qed.

(** X15: [bulk_write] returns exactly when the index accepts every
    document of the page, and has then sent the page, every document
    once and in order; otherwise it raises the helper's [BulkIndexError].
    However it ends, it has issued bulk requests only, and the documents
    sent are a prefix of the page: nothing is reordered, repeated or sent
    from elsewhere. *)
Theorem bulk_write_delivery (env : environment) (data : list MoviesForEs) (tr : trace) :
  exists evs j,
    fst (EsDb.bulk_write env data tr) = tr ++ evs /\
    Forall (fun ev => is_bulk ev = true) evs /\
    sent evs = take j data /\
    (snd (EsDb.bulk_write env data tr) = Ok tt <->
     Forall (fun d => es_rejects env d = false) data) /\
    (snd (EsDb.bulk_write env data tr) = Ok tt -> sent evs = data) /\
    (forall e, snd (EsDb.bulk_write env data tr) = Raise e ->
       exists n, e = BulkIndexError n /\ (0 < n)%nat).
Proof.
  destruct (List.filter (es_rejects env) data) as [|b bad] eqn:Hbad.
  - apply filter_nil_none in Hbad.
    rewrite (bulk_write_accepts env data tr Hbad).
    exists (map EvBulk (chunks 500 (EsDb.build_index data))), (length data).
    assert (sent (map EvBulk (chunks 500 (EsDb.build_index data))) = data) as Hsent.
    { rewrite sent_bulks, concat_chunks by lia. apply build_index_source. }
    split; [reflexivity|]. split.
    { apply Forall_forall. intros ev Hev. apply list_elem_of_fmap in Hev as (c & -> & _).
      reflexivity. }
    split; [rewrite Hsent; now rewrite firstn_all|].
    split; [split; auto|]. split; [auto|]. discriminate.
  - assert (Exists (fun d => es_rejects env d = true) data) as Hex.
    { apply Exists_exists. exists b.
      assert (In b (List.filter (es_rejects env) data)) as Hin by (rewrite Hbad; now left).
      apply List.filter_In in Hin as [Hin Hrej]. split; [now apply list_elem_of_In|exact Hrej]. }
    destruct (streaming_bulk_raises env (chunks 500 (EsDb.build_index data)) 0%nat [] tr)
      as (evs & n & H & Hn & Hall).
    { apply Exists_concat_chunks; [lia|].
      unfold EsDb.build_index. apply Exists_exists in Hex as (d & Hd & Hrej).
      apply Exists_exists. exists (mkAction "movies" d). split; [|exact Hrej].
      apply list_elem_of_fmap. eauto. }
    destruct (streaming_bulk_sends_prefix env true (chunks 500 (EsDb.build_index data))
                0%nat [] tr) as [i Hi].
    rewrite H in Hi. simpl fst in Hi. apply app_inv_head in Hi.
    assert (EsDb.bulk_write env data tr = (tr ++ evs, Raise (BulkIndexError n))) as Hrun.
    { unfold EsDb.bulk_write, bulk. now erewrite bind_raise by exact H. }
    rewrite Hrun. simpl fst. simpl snd.
    exists evs, (length (concat (take i (chunks 500 (EsDb.build_index data))))).
    split; [reflexivity|]. split; [exact Hall|]. split.
    { rewrite Hi, sent_bulks.
      rewrite (prefix_take (concat (take i (chunks 500 (EsDb.build_index data))))
                 (concat (drop i (chunks 500 (EsDb.build_index data))))
                 (EsDb.build_index data)) at 1.
      - rewrite <- firstn_map. now rewrite build_index_source.
      - rewrite <- concat_app, take_drop. symmetry. apply concat_chunks. lia. }
    split.
    { split; [discriminate|]. intros Hacc. exfalso.
      apply Exists_exists in Hex as (d & Hd & Hrej).
      rewrite Forall_forall in Hacc. specialize (Hacc d Hd). congruence. }
    split; [discriminate|].
    intros e He. inversion He; subst. eauto.
Qed.
